(** * Asset controllers: tokens, collectibles, suggestions, detection, rates

    A shallow embedding of the asset-tracking controllers
    ([AssetsController], [AssetsDetectionController],
    [CurrencyRateController]) and of the helpers of [util] they call,
    together with the properties of the specification that concern them.

    Conventions of the embedding.
    - A JavaScript string is a [string] of 8-bit characters (ASCII text).
    - An integer-valued [number] ([decimals], [tokenId], [time]) is a [Z];
      where the code turns it into text, the text is the one
      [Number::toString] gives the double.
    - An optional field ([image?], [name?], ...) is an [option]; [None]
      stands for [undefined] (and for [null] where JSON delivers it).
    - An object used as a dictionary is a [gmap]; an object whose key order
      is observed by [for ... in] is an association list.
    - An array is the list of its elements.  Where the code pushes to or
      assigns into the array of the current state before it publishes a
      copy, the embedding has the list after the change; which arrays are
      one object is not tracked.
    - An [async] method is embedded by its outcome when it runs to
      completion without interleaving: the value it resolves with, or the
      error it rejects with, and the controller it leaves behind.  The
      mutex of the controllers is free before and after every such run.
    - Network collaborators (indexing API, contract calls, price API) are
      oracles passed as arguments. *)

From Stdlib Require Import NArith ZArith QArith String Ascii DecimalString.
From stdpp Require Import base option list gmap strings.

Local Open Scope string_scope.
Local Open Scope list_scope.

(** ** Characters and strings, as JavaScript treats them on ASCII text *)

Module Js.

Definition is_upper (c : ascii) : bool :=
let n := N_of_ascii c in ((65 <=? n) && (n <=? 90))%N.

Definition is_lower (c : ascii) : bool :=
let n := N_of_ascii c in ((97 <=? n) && (n <=? 122))%N.

Definition is_digit (c : ascii) : bool :=
let n := N_of_ascii c in ((48 <=? n) && (n <=? 57))%N.

(** [[0-9a-fA-F]] *)
Definition is_hex (c : ascii) : bool :=
let n := N_of_ascii c in
(is_digit c || ((97 <=? n) && (n <=? 102)) || ((65 <=? n) && (n <=? 70)))%N.

Definition lower_char (c : ascii) : ascii :=
if is_upper c then ascii_of_N (N_of_ascii c + 32) else c.

Definition upper_char (c : ascii) : ascii :=
if is_lower c then ascii_of_N (N_of_ascii c - 32) else c.

(** [String.prototype.toLowerCase] *)
Fixpoint toLowerCase (s : string) : string :=
match s with
| EmptyString => EmptyString
| String c rest => String (lower_char c) (toLowerCase rest)
end.

Fixpoint all_chars (p : ascii -> bool) (s : string) : bool :=
match s with
| EmptyString => true
| String c rest => p c && all_chars p rest
end.

(** Truthiness of a string: only the empty string is falsy. *)
Definition truthy (s : string) : bool :=
match s with
| EmptyString => false
| String _ _ => true
end.

(** Truthiness of an optional string: [undefined] and [''] are falsy. *)
Definition truthy_opt (o : option string) : bool :=
match o with
| Some s => truthy s
| None => false
end.

(** [a || b] on an optional string and a string. *)
Definition or_else (o : option string) (d : string) : string :=
match o with
| Some s => if truthy s then s else d
| None => d
end.

(** The value of a hexadecimal digit, [parseInt(c, 16)]; [None] is [NaN]. *)
Definition hex_value (c : ascii) : option N :=
let n := N_of_ascii c in
if is_digit c then Some (n - 48)%N
else if ((97 <=? n) && (n <=? 102))%N then Some (n - 87)%N
else if ((65 <=? n) && (n <=? 70))%N then Some (n - 55)%N
else None.

(** [String.prototype.toUpperCase] *)
Fixpoint toUpperCase (s : string) : string :=
  match s with
  | EmptyString => EmptyString
  | String c rest => String (upper_char c) (toUpperCase rest)
  end.

(** [s.includes(c)] for a search string of one character. *)
Fixpoint includes (c : ascii) (s : string) : bool :=
  match s with
  | EmptyString => false
  | String c' rest => Ascii.eqb c' c || includes c rest
  end.

(** White space and line terminators, as [parseInt], [Number] and [\s]
    skip them: tab, line feed, vertical tab, form feed, carriage return and
    space. *)
Definition is_whitespace (c : ascii) : bool :=
  let n := N_of_ascii c in
  ((9 <=? n) && (n <=? 13) || (n =? 32))%N.

(** The characters after the leading white space. *)
Fixpoint skip_whitespace (l : list ascii) : list ascii :=
  match l with
  | c :: rest => if is_whitespace c then skip_whitespace rest else l
  | [] => []
  end.

(** The value of a decimal digit. *)
Definition digit_value (c : ascii) : Z := Z.of_N (N_of_ascii c) - 48.

(** The longest prefix of decimal digits with its value, and the rest. *)
Fixpoint decimal_prefix (l : list ascii) : list ascii * list ascii :=
  match l with
  | c :: rest =>
      if is_digit c
      then let '(digits, rest') := decimal_prefix rest in (c :: digits, rest')
      else ([], l)
  | [] => ([], [])
  end.

(** The number a string of decimal digits denotes. *)
Definition decimal_value (digits : list ascii) : Z :=
  fold_left (fun acc c => 10 * acc + digit_value c)%Z digits 0%Z.

(** [parseInt(string, 10)]; [None] is [NaN].  The sign and the longest
    prefix of digits after the leading white space are read, the rest of the
    string is ignored. *)
Definition parseInt (string : string) : option Z :=
  let inputString := skip_whitespace (list_ascii_of_string string) in
  let '(sign, inputString) :=
    match inputString with
    | "-"%char :: rest => ((-1)%Z, rest)
    | "+"%char :: rest => (1%Z, rest)
    | _ => (1%Z, inputString)
    end in
  match fst (decimal_prefix inputString) with
  | [] => None
  | digits => Some (sign * decimal_value digits)%Z
  end.

(** [Number.MAX_SAFE_INTEGER] *)
Definition MAX_SAFE_INTEGER : Z := 2 ^ 53 - 1.

(** The tests of [Number] on what [parseInt] returns.  The number is the
    integer read, rounded to a double: it is an infinity when the magnitude
    of the integer is [2^1024 - 2^970] or more, and it is a safe integer
    exactly when the magnitude is at most [2^53 - 1], since an integer
    above that is rounded to one that is not safe. *)

(** [Number.isFinite(n)] *)
Definition Number_isFinite (n : option Z) : bool :=
  match n with
  | Some z => (Z.abs z <? 2 ^ 1024 - 2 ^ 970)%Z
  | None => false
  end.

(** [Number.isNaN(n)] *)
Definition Number_isNaN (n : option Z) : bool :=
  match n with
  | Some _ => false
  | None => true
  end.

(** [Number.isSafeInteger(n)] *)
Definition Number_isSafeInteger (n : option Z) : bool :=
  match n with
  | Some z => (Z.abs z <=? MAX_SAFE_INTEGER)%Z
  | None => false
  end.

(** [n > m] and [n < m] for what [parseInt] returns: false on [NaN]. *)
Definition Number_gt (n : option Z) (m : Z) : bool :=
  match n with
  | Some z => (m <? z)%Z
  | None => false
  end.

Definition Number_lt (n : option Z) (m : Z) : bool :=
  match n with
  | Some z => (z <? m)%Z
  | None => false
  end.

(** *** The text of an integer-valued number

    [Number::toString] writes the decimal numeral with the fewest
    significant digits that is still rounded to the number.  Up to 21
    digits it is written out, with zeros after the significant digits;
    beyond, the text has the exponent notation [d.ddde+NN].  An integer
    below [2^53] in magnitude is its own shortest numeral. *)

(** The decimal digits of a positive integer, the most significant first;
    [fuel] bounds their number. *)
Fixpoint decimal_digits (fuel : nat) (n : Z) : list ascii :=
  match fuel with
  | O => []
  | S fuel' =>
      if (n <? 10)%Z then [ascii_of_N (Z.to_N (48 + n))]
      else decimal_digits fuel' (n / 10)%Z
             ++ [ascii_of_N (Z.to_N (48 + n mod 10))]
  end.

Definition numeral (n : Z) : list ascii :=
  decimal_digits (S (Z.to_nat (Z.log2 n))) n.

(** The distance between the double [v] and the next one. *)
Definition ulp (v : Z) : Z := (2 ^ Z.max 0 (Z.log2 v - 52))%Z.

(** The integer [r] is rounded to the double [v]: it lies between the
    midpoints to the neighbours of [v], which count when the significand of
    [v] is even.  The neighbour below a power of two is at half the
    distance. *)
Definition rounds_to (v r : Z) : bool :=
  let u := ulp v in
  let below := if (v =? 2 ^ Z.log2 v)%Z then u else (2 * u)%Z in
  let above := (2 * u)%Z in
  if Z.even (v / u)
  then ((4 * v - below <=? 4 * r) && (4 * r <=? 4 * v + above))%Z
  else ((4 * v - below <? 4 * r) && (4 * r <? 4 * v + above))%Z.

(** The multiple of [P] that is rounded to [v], if there is one: the
    closest, and of two equally close the one with an even multiplier. *)
Definition candidate (v P : Z) : option Z :=
  let lower := (v / P * P)%Z in
  let upper := (lower + P)%Z in
  match rounds_to v lower, rounds_to v upper with
  | true, true =>
      if (v - lower <? upper - v)%Z then Some lower
      else if (upper - v <? v - lower)%Z then Some upper
      else if Z.even (v / P) then Some lower else Some upper
  | true, false => Some lower
  | false, true => Some upper
  | false, false => None
  end.

(** The integer with the fewest significant digits that is rounded to [v]:
    a multiple of [P], else of [P / 10], and so on. *)
Fixpoint shortest (fuel : nat) (v P : Z) : Z :=
  match fuel with
  | O => v
  | S fuel' =>
      match candidate v P with
      | Some w => w
      | None => shortest fuel' v (P / 10)%Z
      end
  end.

Fixpoint strip_zeros (reversed : list ascii) : list ascii :=
  match reversed with
  | "0"%char :: rest => strip_zeros rest
  | _ => reversed
  end.

Definition text_of_positive (v : Z) : string :=
  let digits := length (numeral v) in
  let w := shortest digits v (10 ^ (Z.of_nat digits - 1))%Z in
  let ds := numeral w in
  let n := Z.of_nat (length ds) in
  if (n <=? 21)%Z then string_of_list_ascii ds
  else
    let exponent := "e"%char :: "+"%char :: numeral (n - 1) in
    match rev (strip_zeros (rev ds)) with
    | [] => EmptyString
    | [d] => string_of_list_ascii (d :: exponent)
    | d :: fraction =>
        string_of_list_ascii (d :: "."%char :: fraction ++ exponent)
    end.

(** [String(v)], which a template literal and the first argument of
    [parseInt] apply to a number. *)
Definition Number_toString (v : Z) : string :=
  match v with
  | Z0 => "0"
  | Zpos _ => text_of_positive v
  | Zneg p => String "-" (text_of_positive (Zpos p))
  end.

(** An optional exponent part at the head of [l]: what follows it, or
    [None] when an exponent indicator is not followed by digits. *)
Definition exponent_part (l : list ascii) : option (list ascii) :=
  match l with
  | c :: rest =>
      if Ascii.eqb c "e" || Ascii.eqb c "E" then
        let rest :=
          match rest with
          | s :: rest' =>
              if Ascii.eqb s "+" || Ascii.eqb s "-" then rest' else rest
          | [] => rest
          end in
        match decimal_prefix rest with
        | ([], _) => None
        | (_, rest') => Some rest'
        end
      else Some l
  | [] => Some l
  end.

Definition is_nil {A : Type} (l : list A) : bool :=
  match l with [] => true | _ => false end.

(** [StrUnsignedDecimalLiteral] *)
Definition unsigned_decimal_literal (l : list ascii) : bool :=
  if bool_decide (l = list_ascii_of_string "Infinity") then true
  else
    let '(integer, rest) := decimal_prefix l in
    match rest with
    | "."%char :: rest =>
        let '(fraction, rest) := decimal_prefix rest in
        if is_nil integer && is_nil fraction then false
        else match exponent_part rest with
             | Some [] => true
             | _ => false
             end
    | _ =>
        if is_nil integer then false
        else match exponent_part rest with
             | Some [] => true
             | _ => false
             end
    end.

Definition is_octal (c : ascii) : bool :=
  let n := N_of_ascii c in ((48 <=? n) && (n <=? 55))%N.

Definition is_binary (c : ascii) : bool :=
  let n := N_of_ascii c in ((48 <=? n) && (n <=? 49))%N.

(** [StrNumericLiteral]: a decimal literal with an optional sign, or a
    hexadecimal, octal or binary literal without one. *)
Definition numeric_literal (l : list ascii) : bool :=
  match l with
  | "0"%char :: p :: rest =>
      if Ascii.eqb p "x" || Ascii.eqb p "X"
      then negb (is_nil rest) && forallb is_hex rest
      else if Ascii.eqb p "o" || Ascii.eqb p "O"
      then negb (is_nil rest) && forallb is_octal rest
      else if Ascii.eqb p "b" || Ascii.eqb p "B"
      then negb (is_nil rest) && forallb is_binary rest
      else unsigned_decimal_literal l
  | s :: rest =>
      if Ascii.eqb s "+" || Ascii.eqb s "-"
      then unsigned_decimal_literal rest
      else unsigned_decimal_literal l
  | [] => false
  end.

(** [isNaN(Number(string))]: the string, without the white space around
    it, is neither empty nor a numeric literal. *)
Definition isNaN_Number (string : string) : bool :=
  let trimmed :=
    rev (skip_whitespace
           (rev (skip_whitespace (list_ascii_of_string string)))) in
  negb (is_nil trimmed || numeric_literal trimmed).


End Js.

(** ** Keccak-256, the hash behind the address checksum

    [ethereumjs-util] computes the checksum casing of an address from the
    Keccak-256 digest of its lower-case hexadecimal text.  The permutation
    works on 25 lanes of 64 bits, kept here in a list in the order
    [x + 5 * y]. *)

Module Keccak.

Local Open Scope N_scope.

Definition mask64 : N := 0xFFFFFFFFFFFFFFFF.

Definition rotl64 (w r : N) : N :=
N.land (N.lor (N.shiftl w r) (N.shiftr w (64 - r))) mask64.

Definition lane (st : list N) (x y : nat) : N :=
nth (Nat.modulo x 5 + 5 * Nat.modulo y 5) st 0.

Definition grid (f : nat -> nat -> N) : list N :=
flat_map (fun y => map (fun x => f x y) (seq 0 5)) (seq 0 5).

Definition theta (st : list N) : list N :=
let C x := fold_left N.lxor (map (fun y => lane st x y) (seq 0 5)) 0 in
let D x := N.lxor (C (x + 4)%nat) (rotl64 (C (x + 1)%nat) 1) in
grid (fun x y => N.lxor (lane st x y) (D x)).

Definition rotation_offsets : list N :=
[ 0; 1; 62; 28; 27;
  36; 44; 6; 55; 20;
  3; 10; 43; 25; 39;
  41; 45; 15; 21; 8;
  18; 2; 61; 56; 14 ].

Definition rho_pi (st : list N) : list N :=
grid (fun X Y =>
  let x := Nat.modulo (X + 3 * Y) 5 in
  rotl64 (lane st x X) (lane rotation_offsets x X)).

Definition chi (st : list N) : list N :=
grid (fun x y =>
  N.lxor (lane st x y)
    (N.land (N.lxor (lane st (x + 1) y) mask64) (lane st (x + 2) y))).

Definition round_constants : list N :=
[ 0x0000000000000001; 0x0000000000008082; 0x800000000000808A;
  0x8000000080008000; 0x000000000000808B; 0x0000000080000001;
  0x8000000080008081; 0x8000000000008009; 0x000000000000008A;
  0x0000000000000088; 0x0000000080008009; 0x000000008000000A;
  0x000000008000808B; 0x800000000000008B; 0x8000000000008089;
  0x8000000000008003; 0x8000000000008002; 0x8000000000000080;
  0x000000000000800A; 0x800000008000000A; 0x8000000080008081;
  0x8000000000008080; 0x0000000080000001; 0x8000000080008008 ].

Definition iota (rc : N) (st : list N) : list N :=
match st with
| a :: rest => N.lxor a rc :: rest
| [] => []
end.

Definition keccak_f (st : list N) : list N :=
fold_left (fun s rc => iota rc (chi (rho_pi (theta s)))) round_constants st.

(** Rate of Keccak-256 in bytes. *)
Definition rate : nat := 136.

(** A lane from its bytes, least significant first. *)
Fixpoint le_word (bs : list N) : N :=
match bs with
| [] => 0
| b :: rest => N.lor b (N.shiftl (le_word rest) 8)
end.

Fixpoint chunks (fuel n : nat) (bs : list N) : list (list N) :=
match fuel with
| O => []
| S fuel' =>
    match bs with
    | [] => []
    | _ => firstn n bs :: chunks fuel' n (skipn n bs)
    end
end.

(** Keccak padding: [0x01], zeros, and [0x80] in the last byte of the block. *)
Definition pad (msg : list N) : list N :=
let q := (rate - Nat.modulo (length msg) rate)%nat in
if Nat.eqb q 1 then msg ++ [0x81]
else msg ++ [0x01] ++ repeat 0 (q - 2) ++ [0x80].

Definition absorb (st block : list N) : list N :=
let lanes := map le_word (chunks 17 8 block) in
keccak_f (map (fun p => N.lxor (fst p) (snd p))
              (combine st (lanes ++ repeat 0 8))).

Definition word_bytes (w : N) : list N :=
map (fun i => N.land (N.shiftr w (8 * N.of_nat i)) 0xFF) (seq 0 8).

Definition keccak256 (msg : list N) : list N :=
let padded := pad msg in
let st := fold_left absorb (chunks (length padded) rate padded) (repeat 0 25) in
flat_map word_bytes (firstn 4 st).

(** The digest as the hexadecimal digits of [digest.toString('hex')]. *)
Definition nibbles (bs : list N) : list N :=
flat_map (fun b => [N.shiftr b 4; N.land b 15]) bs.

End Keccak.

(** ** Address utilities of [ethereumjs-util] and [ethjs-util] *)

(** [stripHexPrefix]: drops a leading ['0x']. *)
Definition stripHexPrefix (str : string) : string :=
  match str with
  | String "0" (String "x" rest) => rest
  | _ => str
  end.

(** [isHexString(value)]: [/^0x[0-9A-Fa-f]*$/]. *)
Definition isHexString (value : string) : bool :=
  match value with
  | String "0" (String "x" rest) => Js.all_chars Js.is_hex rest
  | _ => false
  end.

(** [padToEven]: a leading ['0'] when the length is odd. *)
Definition padToEven (value : string) : string :=
  if Nat.even (String.length value) then value else String "0" value.

(** [Buffer.from(text, 'hex')] on hexadecimal text of even length. *)
Fixpoint hex_bytes (s : string) : list N :=
  match s with
  | String a (String b rest) =>
      match Js.hex_value a, Js.hex_value b with
      | Some h, Some l => (16 * h + l)%N :: hex_bytes rest
      | _, _ => []
      end
  | _ => []
  end.

(** [Buffer.from(text, 'utf8')] on ASCII text. *)
Definition utf8_bytes (s : string) : list N :=
  map N_of_ascii (list_ascii_of_string s).

(** [keccak(a)] on a string: a ['0x']-prefixed hexadecimal string is hashed
    as the bytes it denotes, any other string as its text. *)
Definition keccak (a : string) : list N :=
  if isHexString a
  then Keccak.keccak256 (hex_bytes (padToEven (stripHexPrefix a)))
  else Keccak.keccak256 (utf8_bytes a).

(** The loop of [toChecksumAddress]: character [i] is upper-cased when
    digit [i] of the hash is at least 8; beyond the 64 digits of the hash
    [parseInt(undefined, 16)] is [NaN] and the character is kept. *)
Fixpoint checksum_case (address : string) (hash : list N) : string :=
  match address with
  | EmptyString => EmptyString
  | String c rest =>
      match hash with
      | h :: hash' =>
          String (if (8 <=? h)%N then Js.upper_char c else c)
                 (checksum_case rest hash')
      | [] => String c (checksum_case rest [])
      end
  end.

(** [toChecksumAddress(address)] (EIP-55, no chain id). *)
Definition toChecksumAddress (address : string) : string :=
  let address := Js.toLowerCase (stripHexPrefix address) in
  let hash := Keccak.nibbles (keccak address) in
  "0x" +:+ checksum_case address hash.

(** [isValidAddress(address)]: [/^0x[0-9a-fA-F]{40}$/]. *)
Definition isValidAddress (address : string) : bool :=
  match address with
  | String "0" (String "x" rest) =>
      Nat.eqb (String.length rest) 40 && Js.all_chars Js.is_hex rest
  | _ => false
  end.

Global Arguments toChecksumAddress : simpl never.

(** ** Errors and outcomes *)

(** The errors that reach the code below: the [invalidParams] error of
    [eth-rpc-errors], a plain [Error], and the [TypeError] the engine
    raises when a property of [undefined] is read. *)
Inductive JsError : Type :=
  | InvalidParams (msg : string)
  | Error (msg : string)
  | TypeError (property : string).

(** The double-quote character, for messages that quote a value. *)
Definition dquote : string := String "034"%char EmptyString.

(** [error.message] *)
Definition message (e : JsError) : string :=
  match e with
  | InvalidParams msg => msg
  | Error msg => msg
  | TypeError property =>
      "Cannot read property '" +:+ property +:+ "' of undefined"
  end.

(** What a call does: it returns a value or throws. *)
Inductive Result (A : Type) : Type :=
  | Ok (a : A)
  | Throw (e : JsError).
Arguments Ok {A} a.
Arguments Throw {A} e.

(** [safelyExecute(operation)]: the result of the operation, or [undefined]
    when it throws; the error goes no further. *)
Definition safelyExecute {A : Type} (operation : Result A) : option A :=
  match operation with
  | Ok a => Some a
  | Throw _ => None
  end.

(** ** Arrays *)

Module Array.
Section Ops.
Context {A : Type}.

(** [array.find(p)] *)
Definition find (p : A -> bool) (l : list A) : option A := List.find p l.

(** [array.findIndex(p)]; [None] is [-1]. *)
Fixpoint findIndex (p : A -> bool) (l : list A) : option nat :=
  match l with
  | [] => None
  | x :: rest => if p x then Some O else S <$> findIndex p rest
  end.

(** [array.indexOf(x)]; [None] is [-1]. *)
Definition indexOf `{EqDecision A} (l : list A) (x : A) : option nat :=
  findIndex (fun y => bool_decide (y = x)) l.

(** [array.filter(p)] *)
Definition filter (p : A -> bool) (l : list A) : list A := List.filter p l.

(** [array[i] = x] for an index [i] the search returned; at [-1] the
    assignment creates the property ['-1'] and no element changes. *)
Definition assign (l : list A) (i : option nat) (x : A) : list A :=
  match i with
  | Some n => <[n := x]> l
  | None => l
  end.

(** [array[i]] for an index the search returned; [undefined] at [-1]. *)
Definition at_index (l : list A) (i : option nat) : option A :=
  match i with
  | Some n => l !! n
  | None => None
  end.
End Ops.
End Array.

(** ** Data model *)

Module Token.
Record t : Type := mk
  { address : string;
    symbol : string;
    decimals : Z;
    image : option string }.
Global Instance eq_dec : EqDecision t.
Proof. solve_decision. Defined.
End Token.
Abbreviation Token := Token.t.

Module Collectible.
Record t : Type := mk
  { address : string;
    description : option string;
    image : option string;
    name : option string;
    tokenId : Z }.
Global Instance eq_dec : EqDecision t.
Proof. solve_decision. Defined.
End Collectible.
Abbreviation Collectible := Collectible.t.

Module CollectibleContract.
Record t : Type := mk
  { name : option string;
    logo : option string;
    address : string;
    symbol : option string;
    description : option string;
    totalSupply : option string }.
Global Instance eq_dec : EqDecision t.
Proof. solve_decision. Defined.
End CollectibleContract.
Abbreviation CollectibleContract := CollectibleContract.t.

Module ApiCollectibleContractResponse.
Record t : Type := mk
  { description : option string;
    image_url : option string;
    name : option string;
    symbol : option string;
    total_supply : option string }.
End ApiCollectibleContractResponse.

Module CollectibleInformation.
Record t : Type := mk
  { description : option string;
    image : option string;
    name : option string }.
End CollectibleInformation.
Abbreviation CollectibleInformation := CollectibleInformation.t.

(** [SuggestedAssetStatus]; as in the type of [SuggestedAssetMeta], a failed
    suggestion carries its error. *)
Inductive SuggestedAssetStatus : Type :=
  | accepted
  | failed (error : JsError)
  | pending
  | rejected.

Module SuggestedAssetMeta.
Record t : Type := mk
  { id : string;
    time : Z;
    type : string;
    asset : Token;
    status : SuggestedAssetStatus }.
Definition with_status (s : SuggestedAssetStatus) (m : t) : t :=
  {| id := id m; time := time m; type := type m; asset := asset m;
     status := s |}.
End SuggestedAssetMeta.
Abbreviation SuggestedAssetMeta := SuggestedAssetMeta.t.

(** A keyed slice: account address, then chain identifier, then the list. *)
Abbreviation Keyed A := (gmap string (gmap string (list A))).

Record AssetsState : Type := mkAssetsState
  { allTokens : Keyed Token;
    allCollectibleContracts : Keyed CollectibleContract;
    allCollectibles : Keyed Collectible;
    collectibleContracts : list CollectibleContract;
    collectibles : list Collectible;
    ignoredTokens : list Token;
    ignoredCollectibles : list Collectible;
    suggestedAssets : list SuggestedAssetMeta;
    tokens : list Token }.

Record AssetsConfig : Type := mkAssetsConfig
  { networkType : string;
    selectedAddress : string;
    chainId : string }.

Definition defaultConfig : AssetsConfig :=
  {| networkType := "mainnet"; selectedAddress := ""; chainId := "" |}.

Definition defaultState : AssetsState :=
  {| allCollectibleContracts := ∅;
     allCollectibles := ∅;
     allTokens := ∅;
     collectibleContracts := [];
     collectibles := [];
     ignoredCollectibles := [];
     ignoredTokens := [];
     suggestedAssets := [];
     tokens := [] |}.

(** *** The event hub and the promises of [watchAsset] *)

(** A promise handed out by [watchAsset]. *)
Inductive Settlement : Type :=
  | Unsettled
  | Resolved (value : string)
  | Rejected (reason : JsError).

(** The events of [hub].  The name [`${id}:finished`] determines [id] and
    is never ['pendingSuggestedAsset'], so a name is kept as the event it
    denotes. *)
Inductive HubEvent : Type :=
  | pendingSuggestedAsset
  | finished (id : string).

(** The controller: its state and configuration; the listeners [watchAsset]
    registered with [hub.once], each with the identifier whose [finished]
    event it waits for and the promise it settles; the promises created so
    far; and the record of every [hub.emit]. *)
Record AssetsController : Type := mkAssetsController
  { state : AssetsState;
    config : AssetsConfig;
    hub : list (string * nat);
    promises : list Settlement;
    emitted : list (HubEvent * SuggestedAssetMeta) }.

Definition newAssetsController : AssetsController :=
  {| state := defaultState; config := defaultConfig;
     hub := []; promises := []; emitted := [] |}.

(** Modelled from the spec: [BaseController.update] is not among the
    sources; it "swaps" the given fields "atomically into the published
    state" and keeps the others.  One setter per field; a call
    [this.update({a, b})] is the composition of the setters of [a] and [b]. *)
Definition with_state (f : AssetsState -> AssetsState) (c : AssetsController)
  : AssetsController :=
  {| state := f (state c); config := config c; hub := hub c;
     promises := promises c; emitted := emitted c |}.

Definition set_tokens (all : Keyed Token) (l : list Token) (s : AssetsState)
  : AssetsState :=
  {| allTokens := all; tokens := l;
     allCollectibleContracts := allCollectibleContracts s;
     allCollectibles := allCollectibles s;
     collectibleContracts := collectibleContracts s;
     collectibles := collectibles s;
     ignoredTokens := ignoredTokens s;
     ignoredCollectibles := ignoredCollectibles s;
     suggestedAssets := suggestedAssets s |}.

Definition set_ignoredTokens (l : list Token) (s : AssetsState) : AssetsState :=
  {| ignoredTokens := l;
     allTokens := allTokens s; tokens := tokens s;
     allCollectibleContracts := allCollectibleContracts s;
     allCollectibles := allCollectibles s;
     collectibleContracts := collectibleContracts s;
     collectibles := collectibles s;
     ignoredCollectibles := ignoredCollectibles s;
     suggestedAssets := suggestedAssets s |}.

Definition set_collectibles (all : Keyed Collectible) (l : list Collectible)
    (s : AssetsState) : AssetsState :=
  {| allCollectibles := all; collectibles := l;
     allTokens := allTokens s; tokens := tokens s;
     allCollectibleContracts := allCollectibleContracts s;
     collectibleContracts := collectibleContracts s;
     ignoredTokens := ignoredTokens s;
     ignoredCollectibles := ignoredCollectibles s;
     suggestedAssets := suggestedAssets s |}.

Definition set_ignoredCollectibles (l : list Collectible) (s : AssetsState)
  : AssetsState :=
  {| ignoredCollectibles := l;
     allTokens := allTokens s; tokens := tokens s;
     allCollectibleContracts := allCollectibleContracts s;
     allCollectibles := allCollectibles s;
     collectibleContracts := collectibleContracts s;
     collectibles := collectibles s;
     ignoredTokens := ignoredTokens s;
     suggestedAssets := suggestedAssets s |}.

Definition set_collectibleContracts (all : Keyed CollectibleContract)
    (l : list CollectibleContract) (s : AssetsState) : AssetsState :=
  {| allCollectibleContracts := all; collectibleContracts := l;
     allTokens := allTokens s; tokens := tokens s;
     allCollectibles := allCollectibles s;
     collectibles := collectibles s;
     ignoredTokens := ignoredTokens s;
     ignoredCollectibles := ignoredCollectibles s;
     suggestedAssets := suggestedAssets s |}.

Definition set_suggestedAssets (l : list SuggestedAssetMeta) (s : AssetsState)
  : AssetsState :=
  {| suggestedAssets := l;
     allTokens := allTokens s; tokens := tokens s;
     allCollectibleContracts := allCollectibleContracts s;
     allCollectibles := allCollectibles s;
     collectibleContracts := collectibleContracts s;
     collectibles := collectibles s;
     ignoredTokens := ignoredTokens s;
     ignoredCollectibles := ignoredCollectibles s |}.

(** The copy-on-write step every mutation repeats:
    [{ ...all, [selectedAddress]: { ...all[selectedAddress], [chainId]: l } }]. *)
Definition write_slice {A : Type} (all : Keyed A) (cfg : AssetsConfig)
    (l : list A) : Keyed A :=
  let addressSlice := default ∅ (all !! selectedAddress cfg) in
  let newAddressSlice := <[chainId cfg := l]> addressSlice in
  <[selectedAddress cfg := newAddressSlice]> all.

(** [all[selectedAddress]?.[chainId] || []] *)
Definition read_slice {A : Type} (all : Keyed A) (account chain : string)
  : list A :=
  default [] (all !! account ≫= fun slice => slice !! chain).

(** ** [util.validateTokenToWatch] *)

(** The checks [typeof decimals === 'undefined'] and
    [typeof symbol !== 'string'] cannot fire on a [Token].
    [parseInt(decimals, 10)] reads the text of the number: the number
    itself while the text is a numeral, and the leading digit of the text,
    with its sign, once the text is in exponent notation. *)
Definition validateTokenToWatch (token : Token) : Result unit :=
  let address := Token.address token in
  let symbol := Token.symbol token in
  let decimals := Token.decimals token in
  if negb (Js.truthy address) || negb (Js.truthy symbol) then
    Throw (InvalidParams "Must specify address, symbol, and decimals.")
  else if (11 <? String.length symbol)%nat then
    Throw (InvalidParams
      ("Invalid symbol " +:+ dquote +:+ symbol +:+ dquote
         +:+ ": longer than 11 characters."))
  else
    let numDecimals := Js.parseInt (Js.Number_toString decimals) in
    if Js.Number_isNaN numDecimals
       || Js.Number_gt numDecimals 36 || Js.Number_lt numDecimals 0 then
      Throw (InvalidParams
        ("Invalid decimals " +:+ dquote +:+ Js.Number_toString decimals
           +:+ dquote +:+ ": must be 0 <= 36."))
    else if negb (isValidAddress address) then
      Throw (InvalidParams
        ("Invalid address " +:+ dquote +:+ address +:+ dquote +:+ "."))
    else Ok tt.

(** ** AssetsController: the event hub *)

(** What the listener installed by [watchAsset] does with the record it is
    handed. *)
Definition settlement_of (meta : SuggestedAssetMeta) : Settlement :=
  match SuggestedAssetMeta.status meta with
  | accepted => Resolved (Token.address (SuggestedAssetMeta.asset meta))
  | rejected => Rejected (Error "User rejected to watch the asset.")
  | failed error => Rejected (Error (message error))
  | pending => Rejected (Error "Unknown status: pending")
  end.

(** Settling a promise: only the first [resolve] or [reject] counts. *)
Definition settle (outcome : Settlement) (ps : list Settlement) (p : nat)
  : list Settlement :=
  match ps !! p with
  | Some Unsettled => <[p := outcome]> ps
  | _ => ps
  end.

(** [this.hub.emit(event, meta)]: every listener of [event] runs, in the
    order of registration, and a [once] listener is removed when it runs.
    The listeners of [watchAsset] wait for [finished] events only. *)
Definition emit (event : HubEvent) (meta : SuggestedAssetMeta)
    (c : AssetsController) : AssetsController :=
  let listens (l : string * nat) : bool :=
    match event with
    | finished id => String.eqb (fst l) id
    | pendingSuggestedAsset => false
    end in
  let listening := List.filter listens (hub c) in
  let others := List.filter (fun l => negb (listens l)) (hub c) in
  {| state := state c; config := config c;
     hub := others;
     promises := fold_left (settle (settlement_of meta))
                   (map snd listening) (promises c);
     emitted := emitted c ++ [(event, meta)] |}.

(** [failSuggestedAsset(suggestedAssetMeta, error)].  Spreading [undefined]
    is harmless, reading [suggestedAssetMeta.id] off it is not. *)
Definition failSuggestedAsset (suggestedAssetMeta : option SuggestedAssetMeta)
    (error : JsError) (c : AssetsController) : Result unit * AssetsController :=
  match suggestedAssetMeta with
  | Some meta =>
      let failedSuggestedAssetMeta :=
        SuggestedAssetMeta.with_status (failed error) meta in
      (Ok tt, emit (finished (SuggestedAssetMeta.id meta))
                   failedSuggestedAssetMeta c)
  | None => (Throw (TypeError "id"), c)
  end.

(** ** AssetsController: tokens *)

(** The body shared by [addToken] and the loop of [addTokens]: replace the
    first entry with this (checksummed) address, or push. *)
Definition put_token (tokens : list Token) (newEntry : Token) : list Token :=
  let address := Token.address newEntry in
  let previousEntry :=
    Array.find (fun token => String.eqb (Token.address token) address) tokens in
  match previousEntry with
  | Some previousEntry =>
      let previousIndex := Array.indexOf tokens previousEntry in
      Array.assign tokens previousIndex newEntry
  | None => tokens ++ [newEntry]
  end.

(** [addToken(address, symbol, decimals, image)]; resolves with the new
    token list. *)
Definition addToken (address symbol : string) (decimals : Z)
    (image : option string) (c : AssetsController)
  : list Token * AssetsController :=
  let address := toChecksumAddress address in
  let newEntry :=
    {| Token.address := address; Token.symbol := symbol;
       Token.decimals := decimals; Token.image := image |} in
  let tokens := put_token (tokens (state c)) newEntry in
  let newAllTokens := write_slice (allTokens (state c)) (config c) tokens in
  let newTokens := tokens in
  (newTokens, with_state (set_tokens newAllTokens newTokens) c).

(** [addTokens(tokensToAdd)] *)
Definition addTokens (tokensToAdd : list Token) (c : AssetsController)
  : list Token * AssetsController :=
  let tokens :=
    fold_left
      (fun tokens tokenToAdd =>
         let checksumAddress := toChecksumAddress (Token.address tokenToAdd) in
         let newEntry :=
           {| Token.address := checksumAddress;
              Token.symbol := Token.symbol tokenToAdd;
              Token.decimals := Token.decimals tokenToAdd;
              Token.image := Token.image tokenToAdd |} in
         put_token tokens newEntry)
      tokensToAdd (tokens (state c)) in
  let newAllTokens := write_slice (allTokens (state c)) (config c) tokens in
  let newTokens := tokens in
  (newTokens, with_state (set_tokens newAllTokens newTokens) c).

(** The filter of [removeAndIgnoreToken] and of
    [removeAndIgnoreIndividualCollectible]: its callback drops the entries
    that match and pushes a dropped entry on the new ignore list unless that
    list already has a match.  Returns the entries kept and the new ignore
    list. *)
Fixpoint filter_and_ignore {A : Type} (is_target : A -> bool)
    (active newIgnored : list A) : list A * list A :=
  match active with
  | [] => ([], newIgnored)
  | entry :: rest =>
      if is_target entry then
        let alreadyIgnored := Array.find is_target newIgnored in
        let newIgnored :=
          match alreadyIgnored with
          | Some _ => newIgnored
          | None => newIgnored ++ [entry]
          end in
        filter_and_ignore is_target rest newIgnored
      else
        let '(kept, newIgnored) := filter_and_ignore is_target rest newIgnored in
        (entry :: kept, newIgnored)
  end.

(** [removeAndIgnoreToken(address)] *)
Definition removeAndIgnoreToken (address : string) (c : AssetsController)
  : AssetsController :=
  let address := toChecksumAddress address in
  let '(newTokens, newIgnoredTokens) :=
    filter_and_ignore (fun token => String.eqb (Token.address token) address)
      (tokens (state c)) (ignoredTokens (state c)) in
  let newAllTokens := write_slice (allTokens (state c)) (config c) newTokens in
  with_state
    (fun s => set_ignoredTokens newIgnoredTokens
                (set_tokens newAllTokens newTokens s)) c.

(** [removeToken(address)] *)
Definition removeToken (address : string) (c : AssetsController)
  : AssetsController :=
  let address := toChecksumAddress address in
  let newTokens :=
    Array.filter (fun token => negb (String.eqb (Token.address token) address))
      (tokens (state c)) in
  let newAllTokens := write_slice (allTokens (state c)) (config c) newTokens in
  with_state (set_tokens newAllTokens newTokens) c.

(** [clearIgnoredTokens()] *)
Definition clearIgnoredTokens (c : AssetsController) : AssetsController :=
  with_state (set_ignoredTokens []) c.

(** ** AssetsController: the suggestion workflow *)

(** [watchAsset(asset, type)].  [id] is the identifier [random()] draws and
    [now] the reading of [Date.now()].  The call rejects with the error of
    the validation, or resolves with the handle of the promise [result] and
    the record of the suggestion. *)
Definition watchAsset (asset : Token) (type id : string) (now : Z)
    (c : AssetsController)
  : Result (nat * SuggestedAssetMeta) * AssetsController :=
  let suggestedAssetMeta :=
    {| SuggestedAssetMeta.asset := asset;
       SuggestedAssetMeta.id := id;
       SuggestedAssetMeta.status := pending;
       SuggestedAssetMeta.time := now;
       SuggestedAssetMeta.type := type |} in
  let validation :=
    if String.eqb type "ERC20" then validateTokenToWatch asset
    else Throw (Error ("Asset of type " +:+ type +:+ " not supported")) in
  match validation with
  | Throw error =>
      match failSuggestedAsset (Some suggestedAssetMeta) error c with
      | (Ok _, c') => (Throw error, c')
      | (Throw e, c') => (Throw e, c')
      end
  | Ok _ =>
      let result := length (promises c) in
      let c1 :=
        {| state := state c; config := config c;
           hub := hub c ++ [(id, result)];
           promises := promises c ++ [Unsettled];
           emitted := emitted c |} in
      let suggestedAssets := suggestedAssets (state c1) ++ [suggestedAssetMeta] in
      let c2 := with_state (set_suggestedAssets suggestedAssets) c1 in
      let c3 := emit pendingSuggestedAsset suggestedAssetMeta c2 in
      (Ok (result, suggestedAssetMeta), c3)
  end.

(** [acceptWatchAsset(suggestedAssetID)].  The returned promise resolves, or
    rejects with what escapes the [catch] block. *)
Definition acceptWatchAsset (suggestedAssetID : string) (c : AssetsController)
  : Result unit * AssetsController :=
  let suggestedAssets := suggestedAssets (state c) in
  let index :=
    Array.findIndex
      (fun m => String.eqb suggestedAssetID (SuggestedAssetMeta.id m))
      suggestedAssets in
  let suggestedAssetMeta := Array.at_index suggestedAssets index in
  let tried : Result unit * AssetsController :=
    match suggestedAssetMeta with
    | None => (Throw (TypeError "type"), c)
    | Some meta =>
        if String.eqb (SuggestedAssetMeta.type meta) "ERC20" then
          let asset := SuggestedAssetMeta.asset meta in
          let '(_, c1) :=
            addToken (Token.address asset) (Token.symbol asset)
              (Token.decimals asset) (Token.image asset) c in
          let meta := SuggestedAssetMeta.with_status accepted meta in
          (Ok tt, emit (finished (SuggestedAssetMeta.id meta)) meta c1)
        else
          (Throw (Error ("Asset of type " +:+ SuggestedAssetMeta.type meta
                           +:+ " not supported")), c)
    end in
  let caught : Result unit * AssetsController :=
    match tried with
    | (Ok _, c1) => (Ok tt, c1)
    | (Throw error, c1) => failSuggestedAsset suggestedAssetMeta error c1
    end in
  match caught with
  | (Throw e, c2) => (Throw e, c2)
  | (Ok _, c2) =>
      let newSuggestedAssets :=
        Array.filter
          (fun m => negb (String.eqb (SuggestedAssetMeta.id m) suggestedAssetID))
          suggestedAssets in
      (Ok tt, with_state (set_suggestedAssets newSuggestedAssets) c2)
  end.

(** [rejectWatchAsset(suggestedAssetID)] *)
Definition rejectWatchAsset (suggestedAssetID : string) (c : AssetsController)
  : AssetsController :=
  let suggestedAssets := suggestedAssets (state c) in
  let index :=
    Array.findIndex
      (fun m => String.eqb suggestedAssetID (SuggestedAssetMeta.id m))
      suggestedAssets in
  match Array.at_index suggestedAssets index with
  | None => c
  | Some suggestedAssetMeta =>
      let suggestedAssetMeta :=
        SuggestedAssetMeta.with_status rejected suggestedAssetMeta in
      let c1 :=
        emit (finished (SuggestedAssetMeta.id suggestedAssetMeta))
          suggestedAssetMeta c in
      let newSuggestedAssets :=
        Array.filter
          (fun m => negb (String.eqb (SuggestedAssetMeta.id m) suggestedAssetID))
          suggestedAssets in
      with_state (set_suggestedAssets newSuggestedAssets) c1
  end.

(** ** AssetsController: collectibles *)

(** The network, as far as the metadata resolver sees it.  Each field is the
    outcome of one of the private request methods, [None] when it throws
    (failed fetch, malformed body, failed contract call). *)
Record Network : Type := mkNetwork
  { (** [getCollectibleInformationFromApi]: the fields [name],
        [description] and [image_original_url] of the body. *)
    collectibleFromApi :
      string -> Z -> option (option string * option string * option string);
    (** [getCollectibleInformationFromTokenURI]: the image and the name. *)
    collectibleFromTokenURI :
      string -> Z -> option (option string * option string);
    (** [getCollectibleContractInformationFromApi] *)
    contractFromApi : string -> option ApiCollectibleContractResponse.t;
    (** [getCollectibleContractInformationFromContract]: name and symbol. *)
    contractFromContract : string -> option (string * string) }.

(** [getCollectibleInformation(contractAddress, tokenId)]: the indexing
    API first, then the token URI, then the empty object. *)
Definition getCollectibleInformation (net : Network) (contractAddress : string)
    (tokenId : Z) : CollectibleInformation :=
  match collectibleFromApi net contractAddress tokenId with
  | Some (name, description, image_original_url) =>
      {| CollectibleInformation.image := image_original_url;
         CollectibleInformation.name := name;
         CollectibleInformation.description := description |}
  | None =>
      match collectibleFromTokenURI net contractAddress tokenId with
      | Some (image, name) =>
          {| CollectibleInformation.image := image;
             CollectibleInformation.name := name;
             CollectibleInformation.description := None |}
      | None =>
          {| CollectibleInformation.image := None;
             CollectibleInformation.name := None;
             CollectibleInformation.description := None |}
      end
  end.

(** The three shapes [getCollectibleContractInformation] returns: the five
    keys read off the indexing API, the two keys read off the contract, or
    the empty object. *)
Inductive ContractInformation : Type :=
  | FromApi (r : ApiCollectibleContractResponse.t)
  | FromContract (name symbol : string)
  | NoInformation.

Module ContractInformation.
(** [Object.keys(contractInformation).length] *)
Definition keys_length (i : ContractInformation) : nat :=
  match i with
  | FromApi _ => 5
  | FromContract _ _ => 2
  | NoInformation => 0
  end.
Definition name (i : ContractInformation) : option string :=
  match i with
  | FromApi r => ApiCollectibleContractResponse.name r
  | FromContract name _ => Some name
  | NoInformation => None
  end.
Definition symbol (i : ContractInformation) : option string :=
  match i with
  | FromApi r => ApiCollectibleContractResponse.symbol r
  | FromContract _ symbol => Some symbol
  | NoInformation => None
  end.
Definition image_url (i : ContractInformation) : option string :=
  match i with
  | FromApi r => ApiCollectibleContractResponse.image_url r
  | _ => None
  end.
Definition description (i : ContractInformation) : option string :=
  match i with
  | FromApi r => ApiCollectibleContractResponse.description r
  | _ => None
  end.
Definition total_supply (i : ContractInformation) : option string :=
  match i with
  | FromApi r => ApiCollectibleContractResponse.total_supply r
  | _ => None
  end.
End ContractInformation.

(** [getCollectibleContractInformation(contractAddress)] *)
Definition getCollectibleContractInformation (net : Network)
    (contractAddress : string) : ContractInformation :=
  match contractFromApi net contractAddress with
  | Some r => FromApi r
  | None =>
      match contractFromContract net contractAddress with
      | Some (name, symbol) => FromContract name symbol
      | None => NoInformation
      end
  end.

Definition is_collectible (address : string) (tokenId : Z) (c : Collectible)
  : bool :=
  String.eqb (Collectible.address c) address
  && Z.eqb (Collectible.tokenId c) tokenId.

(** [addIndividualCollectible(address, tokenId, opts)] *)
Definition addIndividualCollectible (net : Network) (address : string)
    (tokenId : Z) (opts : option CollectibleInformation) (c : AssetsController)
  : list Collectible * AssetsController :=
  let address := toChecksumAddress address in
  let collectibles := collectibles (state c) in
  let existingEntry := Array.find (is_collectible address tokenId) collectibles in
  match existingEntry with
  | Some _ => (collectibles, c)
  | None =>
      let information :=
        match opts with
        | Some opts => opts
        | None => getCollectibleInformation net address tokenId
        end in
      let newEntry :=
        {| Collectible.address := address;
           Collectible.tokenId := tokenId;
           Collectible.name := CollectibleInformation.name information;
           Collectible.image := CollectibleInformation.image information;
           Collectible.description :=
             CollectibleInformation.description information |} in
      let newCollectibles := collectibles ++ [newEntry] in
      let newAllCollectibles :=
        write_slice (allCollectibles (state c)) (config c) newCollectibles in
      (newCollectibles,
       with_state (set_collectibles newAllCollectibles newCollectibles) c)
  end.

(** [addCollectibleContract(address, detection)] *)
Definition addCollectibleContract (net : Network) (address : string)
    (detection : bool) (c : AssetsController)
  : list CollectibleContract * AssetsController :=
  let address := toChecksumAddress address in
  let collectibleContracts := collectibleContracts (state c) in
  let existingEntry :=
    Array.find
      (fun collectibleContract =>
         String.eqb (CollectibleContract.address collectibleContract) address)
      collectibleContracts in
  match existingEntry with
  | Some _ => (collectibleContracts, c)
  | None =>
      let contractInformation := getCollectibleContractInformation net address in
      let image_url := ContractInformation.image_url contractInformation in
      if (detection && negb (Js.truthy_opt image_url))
         || Nat.eqb (ContractInformation.keys_length contractInformation) 0
      then (collectibleContracts, c)
      else
        let newEntry :=
          {| CollectibleContract.address := address;
             CollectibleContract.description :=
               ContractInformation.description contractInformation;
             CollectibleContract.logo := image_url;
             CollectibleContract.name :=
               ContractInformation.name contractInformation;
             CollectibleContract.symbol :=
               ContractInformation.symbol contractInformation;
             CollectibleContract.totalSupply :=
               ContractInformation.total_supply contractInformation |} in
        let newCollectibleContracts := collectibleContracts ++ [newEntry] in
        let newAllCollectibleContracts :=
          write_slice (allCollectibleContracts (state c)) (config c)
            newCollectibleContracts in
        (newCollectibleContracts,
         with_state
           (set_collectibleContracts newAllCollectibleContracts
              newCollectibleContracts) c)
  end.

(** [addCollectible(address, tokenId, opts, detection)] *)
Definition addCollectible (net : Network) (address : string) (tokenId : Z)
    (opts : option CollectibleInformation) (detection : bool)
    (c : AssetsController) : AssetsController :=
  let address := toChecksumAddress address in
  let '(newCollectibleContracts, c1) :=
    addCollectibleContract net address detection c in
  let collectibleContract :=
    Array.find
      (fun contract => String.eqb (CollectibleContract.address contract) address)
      newCollectibleContracts in
  match collectibleContract with
  | Some _ => snd (addIndividualCollectible net address tokenId opts c1)
  | None => c1
  end.

(** [removeAndIgnoreIndividualCollectible(address, tokenId)] *)
Definition removeAndIgnoreIndividualCollectible (address : string)
    (tokenId : Z) (c : AssetsController) : AssetsController :=
  let address := toChecksumAddress address in
  let '(newCollectibles, newIgnoredCollectibles) :=
    filter_and_ignore (is_collectible address tokenId)
      (collectibles (state c)) (ignoredCollectibles (state c)) in
  let newAllCollectibles :=
    write_slice (allCollectibles (state c)) (config c) newCollectibles in
  with_state
    (fun s => set_ignoredCollectibles newIgnoredCollectibles
                (set_collectibles newAllCollectibles newCollectibles s)) c.

(** [removeIndividualCollectible(address, tokenId)] *)
Definition removeIndividualCollectible (address : string) (tokenId : Z)
    (c : AssetsController) : AssetsController :=
  let address := toChecksumAddress address in
  let newCollectibles :=
    Array.filter (fun collectible => negb (is_collectible address tokenId collectible))
      (collectibles (state c)) in
  let newAllCollectibles :=
    write_slice (allCollectibles (state c)) (config c) newCollectibles in
  with_state (set_collectibles newAllCollectibles newCollectibles) c.

(** [removeCollectibleContract(address)] *)
Definition removeCollectibleContract (address : string) (c : AssetsController)
  : list CollectibleContract * AssetsController :=
  let address := toChecksumAddress address in
  let newCollectibleContracts :=
    Array.filter
      (fun collectibleContract =>
         negb (String.eqb (CollectibleContract.address collectibleContract)
                 address))
      (collectibleContracts (state c)) in
  let newAllCollectibleContracts :=
    write_slice (allCollectibleContracts (state c)) (config c)
      newCollectibleContracts in
  (newCollectibleContracts,
   with_state
     (set_collectibleContracts newAllCollectibleContracts
        newCollectibleContracts) c).

(** [removeCollectible(address, tokenId)] *)
Definition removeCollectible (address : string) (tokenId : Z)
    (c : AssetsController) : AssetsController :=
  let address := toChecksumAddress address in
  let c1 := removeIndividualCollectible address tokenId c in
  let remainingCollectible :=
    Array.find
      (fun collectible => String.eqb (Collectible.address collectible) address)
      (collectibles (state c1)) in
  match remainingCollectible with
  | Some _ => c1
  | None => snd (removeCollectibleContract address c1)
  end.

(** [removeAndIgnoreCollectible(address, tokenId)] *)
Definition removeAndIgnoreCollectible (address : string) (tokenId : Z)
    (c : AssetsController) : AssetsController :=
  let address := toChecksumAddress address in
  let c1 := removeAndIgnoreIndividualCollectible address tokenId c in
  let remainingCollectible :=
    Array.find
      (fun collectible => String.eqb (Collectible.address collectible) address)
      (collectibles (state c1)) in
  match remainingCollectible with
  | Some _ => c1
  | None => snd (removeCollectibleContract address c1)
  end.

(** [clearIgnoredCollectibles()] *)
Definition clearIgnoredCollectibles (c : AssetsController) : AssetsController :=
  with_state (set_ignoredCollectibles []) c.

(** The listener on the preferences: a new selected address. *)
Definition onPreferencesStateChange (newSelectedAddress : string)
    (c : AssetsController) : AssetsController :=
  let s := state c in
  let chain := chainId (config c) in
  {| config := {| networkType := networkType (config c);
                  selectedAddress := newSelectedAddress;
                  chainId := chain |};
     state :=
       {| collectibleContracts :=
            read_slice (allCollectibleContracts s) newSelectedAddress chain;
          collectibles := read_slice (allCollectibles s) newSelectedAddress chain;
          tokens := read_slice (allTokens s) newSelectedAddress chain;
          allTokens := allTokens s;
          allCollectibleContracts := allCollectibleContracts s;
          allCollectibles := allCollectibles s;
          ignoredTokens := ignoredTokens s;
          ignoredCollectibles := ignoredCollectibles s;
          suggestedAssets := suggestedAssets s |};
     hub := hub c; promises := promises c; emitted := emitted c |}.

(** The listener on the network: a new chain identifier. *)
Definition onNetworkStateChange (newChainId : string) (c : AssetsController)
  : AssetsController :=
  let s := state c in
  let account := selectedAddress (config c) in
  {| config := {| networkType := networkType (config c);
                  selectedAddress := account;
                  chainId := newChainId |};
     state :=
       {| collectibleContracts :=
            read_slice (allCollectibleContracts s) account newChainId;
          collectibles := read_slice (allCollectibles s) account newChainId;
          tokens := read_slice (allTokens s) account newChainId;
          allTokens := allTokens s;
          allCollectibleContracts := allCollectibleContracts s;
          allCollectibles := allCollectibles s;
          ignoredTokens := ignoredTokens s;
          ignoredCollectibles := ignoredCollectibles s;
          suggestedAssets := suggestedAssets s |};
     hub := hub c; promises := promises c; emitted := emitted c |}.

(** ** AssetsDetectionController *)

(** An entry of the static registry [@metamask/contract-metadata], as far as
    the detection reads it.  The registry is an object keyed by address; its
    key order is the order of the association list. *)
Module ContractMetadata.
Record t : Type := mk
  { erc20 : bool;
    decimals : Z;
    symbol : string }.
End ContractMetadata.
Abbreviation ContractMap := (list (string * ContractMetadata.t)).

(** [contractMap[address]] *)
Fixpoint contract_lookup (contractMap : ContractMap) (address : string)
  : option ContractMetadata.t :=
  match contractMap with
  | [] => None
  | (key, contract) :: rest =>
      if String.eqb key address then Some contract
      else contract_lookup rest address
  end.

(** The property names every array inherits from [Array.prototype] and
    [Object.prototype] (ES2019; what later engines add are method names
    as well). *)
Definition array_inherited_names : list string :=
  [ "constructor"; "concat"; "copyWithin"; "fill"; "find"; "findIndex";
    "lastIndexOf"; "pop"; "push"; "reverse"; "shift"; "unshift"; "slice";
    "sort"; "splice"; "includes"; "indexOf"; "join"; "keys"; "entries";
    "values"; "forEach"; "filter"; "flat"; "flatMap"; "map"; "every"; "some";
    "reduce"; "reduceRight"; "toLocaleString"; "toString";
    "hasOwnProperty"; "isPrototypeOf"; "propertyIsEnumerable"; "valueOf";
    "__defineGetter__"; "__defineSetter__"; "__lookupGetter__";
    "__lookupSetter__"; "__proto__" ].

(** [key in array]: the operator looks for a property of that name, so it
    holds of the indices below the length, of ['length'] and of the
    inherited names; the elements of the array play no part. *)
Definition in_array {A : Type} (key : string) (array : list A) : bool :=
  existsb
    (fun i => String.eqb key (NilEmpty.string_of_uint (Nat.to_uint i)))
    (seq 0 (length array))
  || String.eqb key "length"
  || existsb (String.eqb key) array_inherited_names.

(** An item of the owned-collectibles listing.  [token_id] holds the value
    of [Number(token_id)] of a decimal identifier. *)
Module ApiCollectibleResponse.
Record t : Type := mk
  { token_id : Z;
    image_original_url : option string;
    name : option string;
    description : option string;
    asset_contract_address : string }.
End ApiCollectibleResponse.
Abbreviation ApiCollectibleResponse := ApiCollectibleResponse.t.

Module Detection.

Record Config : Type := mkConfig
  { interval : Z;
    networkType : string;
    selectedAddress : string;
    tokens : list Token }.

Record t : Type := mk
  { config : Config;
    disabled : bool }.

Definition DEFAULT_INTERVAL : Z := 180000.
Definition MAINNET : string := "mainnet".

Definition defaultConfig : Config :=
  {| interval := DEFAULT_INTERVAL; networkType := "mainnet";
     selectedAddress := ""; tokens := [] |}.

(** [isMainnet()] *)
Definition isMainnet (d : t) : bool :=
  if negb (String.eqb (networkType (config d)) MAINNET) || disabled d
  then false else true.

(** The first loop of [detectTokens]: the candidate addresses. *)
Definition tokensToDetect (contractMap : ContractMap) (d : t) : list string :=
  let tokensAddresses :=
    Array.filter (fun token => Js.truthy (Token.address token))
      (tokens (config d)) in
  fold_left
    (fun tokensToDetect '(address, contract) =>
       if ContractMetadata.erc20 contract
          && negb (in_array address tokensAddresses)
       then tokensToDetect ++ [address]
       else tokensToDetect)
    contractMap [].

(** The second loop of [detectTokens]: the tokens staged for the keys of
    [balances].  Reading [decimals] off a missing registry entry throws. *)
Fixpoint tokensToAdd (contractMap : ContractMap) (ignoredTokens : list Token)
    (balances : list (string * N)) : Result (list Token) :=
  match balances with
  | [] => Ok []
  | (tokenAddress, _) :: rest =>
      let ignored :=
        if negb (Nat.eqb (length ignoredTokens) 0) then
          Array.find
            (fun token =>
               String.eqb (Token.address token)
                 (toChecksumAddress tokenAddress))
            ignoredTokens
        else None in
      match ignored with
      | Some _ => tokensToAdd contractMap ignoredTokens rest
      | None =>
          match contract_lookup contractMap tokenAddress with
          | None => Throw (TypeError "decimals")
          | Some contract =>
              match tokensToAdd contractMap ignoredTokens rest with
              | Throw e => Throw e
              | Ok staged =>
                  Ok ({| Token.address := tokenAddress;
                         Token.decimals := ContractMetadata.decimals contract;
                         Token.symbol := ContractMetadata.symbol contract;
                         Token.image := None |} :: staged)
              end
          end
      end
  end.

(** What one run of [detectTokens] did: the arguments of the balance call
    if it was made, the argument of [addTokens] if it was called, and the
    assets controller afterwards. *)
Record TokensRun : Type := mkTokensRun
  { balancesCall : option (string * list string);
    addTokensCall : option (list Token);
    assetsAfter : AssetsController }.

(** [detectTokens()].  [getBalancesInSingleCall] is the injected contract
    call: the non-zero balances by token address, or a failure. *)
Definition detectTokens (contractMap : ContractMap)
    (getBalancesInSingleCall :
       string -> list string -> Result (list (string * N)))
    (d : t) (assets : AssetsController) : TokensRun :=
  if negb (isMainnet d) then
    {| balancesCall := None; addTokensCall := None; assetsAfter := assets |}
  else
    let tokensToDetect := tokensToDetect contractMap d in
    let selectedAddress := selectedAddress (config d) in
    if negb (Js.truthy selectedAddress) then
      {| balancesCall := None; addTokensCall := None; assetsAfter := assets |}
    else
      let call := Some (selectedAddress, tokensToDetect) in
      match getBalancesInSingleCall selectedAddress tokensToDetect with
      | Throw _ =>
          {| balancesCall := call; addTokensCall := None;
             assetsAfter := assets |}
      | Ok balances =>
          match tokensToAdd contractMap (ignoredTokens (state assets))
                  balances with
          | Throw _ =>
              {| balancesCall := call; addTokensCall := None;
                 assetsAfter := assets |}
          | Ok staged =>
              if negb (Nat.eqb (length staged) 0) then
                {| balancesCall := call; addTokensCall := Some staged;
                   assetsAfter := snd (addTokens staged assets) |}
              else
                {| balancesCall := call; addTokensCall := None;
                   assetsAfter := assets |}
          end
      end.

(** Whether the callback of [detectCollectibles] finds the item in the
    ignore list. *)
Definition ignored_collectible (ignoredCollectibles : list Collectible)
    (collectible : ApiCollectibleResponse) : option Collectible :=
  if negb (Nat.eqb (length ignoredCollectibles) 0) then
    Array.find
      (fun c =>
         String.eqb (Collectible.address c)
           (toChecksumAddress
              (ApiCollectibleResponse.asset_contract_address collectible))
         && Z.eqb (Collectible.tokenId c)
              (ApiCollectibleResponse.token_id collectible))
      ignoredCollectibles
  else None.

(** The callback [detectCollectibles] maps over the listing. *)
Definition detectCollectible (net : Network)
    (collectible : ApiCollectibleResponse) (assets : AssetsController)
  : AssetsController :=
  match ignored_collectible (ignoredCollectibles (state assets)) collectible with
  | Some _ => assets
  | None =>
      addCollectible net
        (ApiCollectibleResponse.asset_contract_address collectible)
        (ApiCollectibleResponse.token_id collectible)
        (Some
           {| CollectibleInformation.description :=
                ApiCollectibleResponse.description collectible;
              CollectibleInformation.image :=
                ApiCollectibleResponse.image_original_url collectible;
              CollectibleInformation.name :=
                ApiCollectibleResponse.name collectible |})
        true assets
  end.

(** [detectCollectibles()].  [ownerCollectibles] is what
    [getOwnerCollectibles] yields: the listing (empty when the request
    fails) or a failure to read the body.  The callbacks are taken one
    after the other, in the order of the listing; the mutex of the assets
    controller interleaves their steps ([detectCollectibles_scheduled]
    below), with the same outcome. *)
Definition detectCollectibles (net : Network)
    (ownerCollectibles : Result (list ApiCollectibleResponse))
    (d : t) (assets : AssetsController) : AssetsController :=
  if negb (isMainnet d) then assets
  else if negb (Js.truthy (selectedAddress (config d))) then assets
  else
    match ownerCollectibles with
    | Throw _ => assets
    | Ok apiCollectibles =>
        fold_left (fun assets collectible => detectCollectible net collectible assets)
          apiCollectibles assets
    end.

End Detection.

(** *** The order in which the mutex runs a pass over the collectibles

    [detectCollectibles] starts the callbacks of all items at once.  Each
    runs to its first wait for the mutex inside [addCollectibleContract], so
    the ignore list is consulted for every item before any add, and the
    contract steps queue up in the order of the listing.  The collectible
    step of an item is queued when its contract step has returned, behind
    the contract steps that are still waiting.  The mutex therefore runs
    the contract steps of all items, then their collectible steps. *)

(** The items the callbacks do not find in the ignore list. *)
Definition detectable (ignoredCollectibles : list Collectible)
    (apiCollectibles : list ApiCollectibleResponse)
  : list ApiCollectibleResponse :=
  List.filter
    (fun collectible =>
       match Detection.ignored_collectible ignoredCollectibles collectible with
       | Some _ => false
       | None => true
       end)
    apiCollectibles.

(** The contract steps, in order; each item is paired with whether
    [addCollectible] found its contract in the list its step returned. *)
Fixpoint contract_steps (net : Network)
    (apiCollectibles : list ApiCollectibleResponse) (assets : AssetsController)
  : list (ApiCollectibleResponse * bool) * AssetsController :=
  match apiCollectibles with
  | [] => ([], assets)
  | collectible :: rest =>
      let address :=
        toChecksumAddress
          (ApiCollectibleResponse.asset_contract_address collectible) in
      let '(newCollectibleContracts, assets1) :=
        addCollectibleContract net address true assets in
      let found :=
        match Array.find
                (fun contract =>
                   String.eqb (CollectibleContract.address contract) address)
                newCollectibleContracts with
        | Some _ => true
        | None => false
        end in
      let '(decided, assets2) := contract_steps net rest assets1 in
      ((collectible, found) :: decided, assets2)
  end.

(** The collectible steps of the items whose contract was found. *)
Fixpoint collectible_steps (net : Network)
    (decided : list (ApiCollectibleResponse * bool)) (assets : AssetsController)
  : AssetsController :=
  match decided with
  | [] => assets
  | (collectible, found) :: rest =>
      let address :=
        toChecksumAddress
          (ApiCollectibleResponse.asset_contract_address collectible) in
      let opts :=
        Some
          {| CollectibleInformation.description :=
               ApiCollectibleResponse.description collectible;
             CollectibleInformation.image :=
               ApiCollectibleResponse.image_original_url collectible;
             CollectibleInformation.name :=
               ApiCollectibleResponse.name collectible |} in
      let assets1 :=
        if found
        then snd (addIndividualCollectible net address
                    (ApiCollectibleResponse.token_id collectible) opts assets)
        else assets in
      collectible_steps net rest assets1
  end.

(** The collectible step of an item, taken or not. *)
Definition collectible_step (net : Network) (collectible : ApiCollectibleResponse)
    (found : bool) (assets : AssetsController) : AssetsController :=
  collectible_steps net [(collectible, found)] assets.

(** The pass in the order of the mutex. *)
Definition detectCollectibles_scheduled (net : Network)
    (ownerCollectibles : Result (list ApiCollectibleResponse))
    (d : Detection.t) (assets : AssetsController) : AssetsController :=
  if negb (Detection.isMainnet d) then assets
  else if negb (Js.truthy (Detection.selectedAddress (Detection.config d)))
  then assets
  else
    match ownerCollectibles with
    | Throw _ => assets
    | Ok apiCollectibles =>
        let '(decided, assets1) :=
          contract_steps net
            (detectable (ignoredCollectibles (state assets)) apiCollectibles)
            assets in
        collectible_steps net decided assets1
    end.

(** ** CurrencyRateController *)

Module CurrencyRate.

(** A [number] that may be [NaN] ([Number(json.USD)] of an absent field). *)
Inductive JsNumber : Type :=
  | Num (q : Q)
  | NaN.

Record State : Type := mkState
  { conversionDate : Q;
    conversionRate : Q;
    currentCurrency : string;
    nativeCurrency : string;
    pendingCurrentCurrency : option string;
    pendingNativeCurrency : option string;
    usdConversionRate : option JsNumber }.

Definition defaultState : State :=
  {| conversionDate := 0;
     conversionRate := 0;
     currentCurrency := "usd";
     nativeCurrency := "ETH";
     pendingCurrentCurrency := None;
     pendingNativeCurrency := None;
     usdConversionRate := None |}.

(** What [fetchExchangeRate] resolves with. *)
Record Rates : Type := mkRates
  { rates_conversionDate : Q;
    rates_conversionRate : Q;
    rates_usdConversionRate : JsNumber }.

(** The injected [fetchExchangeRate(currency, nativeCurrency,
    includeUSDRate)]: the rates, or the error it throws. *)
Definition Fetch : Type := string -> string -> bool -> Result Rates.

(** The controller: its state, its options, the handle [intervalId] and
    the interval timers of the host that are currently set. *)
Record t : Type := mk
  { state : State;
    includeUsdRate : bool;
    intervalDelay : Z;
    intervalId : option nat;
    timers : list nat }.

(** [stopPolling()]: [clearInterval(this.intervalId)] when there is one. *)
Definition stopPolling (c : t) : t :=
  match intervalId c with
  | Some handle =>
      {| state := state c; includeUsdRate := includeUsdRate c;
         intervalDelay := intervalDelay c; intervalId := intervalId c;
         timers := List.filter (fun h => negb (Nat.eqb h handle)) (timers c) |}
  | None => c
  end.

(** [updateExchangeRate()].  The lock is taken at the start and released
    in the [finally] block on both paths. *)
Definition updateExchangeRate (fetchExchangeRate : Fetch) (c : t)
  : Result unit * t :=
  let s := state c in
  let currency :=
    Js.or_else (pendingCurrentCurrency s) (currentCurrency s) in
  let native := Js.or_else (pendingNativeCurrency s) (nativeCurrency s) in
  match fetchExchangeRate currency native (includeUsdRate c) with
  | Throw e => (Throw e, c)
  | Ok rates =>
      (Ok tt,
       {| state :=
            {| conversionDate := rates_conversionDate rates;
               conversionRate := rates_conversionRate rates;
               currentCurrency := currency;
               nativeCurrency := native;
               pendingCurrentCurrency := None;
               pendingNativeCurrency := None;
               usdConversionRate := Some (rates_usdConversionRate rates) |};
          includeUsdRate := includeUsdRate c;
          intervalDelay := intervalDelay c;
          intervalId := intervalId c;
          timers := timers c |})
  end.

(** The callback [startPolling] hands to [setInterval]: what it resolves
    with, and the controller afterwards. *)
Definition intervalCallback (fetchExchangeRate : Fetch) (c : t)
  : option unit * t :=
  let '(outcome, c') := updateExchangeRate fetchExchangeRate c in
  (safelyExecute outcome, c').

(** A handle no timer has. *)
Definition fresh_timer (hs : list nat) : nat := S (foldr Nat.max 0 hs).

(** [startPolling()]: what the returned promise settles with, and the
    controller afterwards. *)
Definition startPolling (fetchExchangeRate : Fetch) (c : t) : Result unit * t :=
  let c1 := stopPolling c in
  let '(_, c2) := intervalCallback fetchExchangeRate c1 in
  let handle := fresh_timer (timers c2) in
  (Ok tt,
   {| state := state c2; includeUsdRate := includeUsdRate c2;
      intervalDelay := intervalDelay c2;
      intervalId := Some handle;
      timers := timers c2 ++ [handle] |}).

(** The polling loop: the timer of the controller fires once for each
    element of [fetches], which is the behaviour of the price API at that
    tick; a timer that is not set does not fire. *)
Fixpoint ticks (fetches : list Fetch) (c : t) : t :=
  match fetches with
  | [] => c
  | fetchExchangeRate :: rest =>
      match intervalId c with
      | Some handle =>
          if existsb (Nat.eqb handle) (timers c)
          then ticks rest (snd (intervalCallback fetchExchangeRate c))
          else c
      | None => c
      end
  end.

(** [setCurrentCurrency(currentCurrency)] *)
Definition setCurrentCurrency (fetchExchangeRate : Fetch)
    (newCurrency : string) (c : t) : Result unit * t :=
  let s := state c in
  updateExchangeRate fetchExchangeRate
    {| state :=
         {| conversionDate := conversionDate s;
            conversionRate := conversionRate s;
            currentCurrency := currentCurrency s;
            nativeCurrency := nativeCurrency s;
            pendingCurrentCurrency := Some newCurrency;
            pendingNativeCurrency := pendingNativeCurrency s;
            usdConversionRate := usdConversionRate s |};
       includeUsdRate := includeUsdRate c;
       intervalDelay := intervalDelay c;
       intervalId := intervalId c;
       timers := timers c |}.

(** [setNativeCurrency(symbol)] *)
Definition setNativeCurrency (fetchExchangeRate : Fetch) (symbol : string)
    (c : t) : Result unit * t :=
  let s := state c in
  updateExchangeRate fetchExchangeRate
    {| state :=
         {| conversionDate := conversionDate s;
            conversionRate := conversionRate s;
            currentCurrency := currentCurrency s;
            nativeCurrency := nativeCurrency s;
            pendingCurrentCurrency := pendingCurrentCurrency s;
            pendingNativeCurrency := Some symbol;
            usdConversionRate := usdConversionRate s |};
       includeUsdRate := includeUsdRate c;
       intervalDelay := intervalDelay c;
       intervalId := intervalId c;
       timers := timers c |}.

(** [start()] *)
Definition start (fetchExchangeRate : Fetch) (c : t) : Result unit * t :=
  startPolling fetchExchangeRate c.

(** [stop()] *)
Definition stop (c : t) : t := stopPolling c.


End CurrencyRate.

(** ** Predicates of the statements and sample inputs *)

Definition has_address (address : string) (token : Token) : bool :=
  String.eqb (Token.address token) address.

(** The ignore list after the filter: unchanged when it already has a
    match or when nothing active matches, else extended by the first
    active match. *)
Definition ignored_after {A : Type} (is_target : A -> bool)
    (active ignored : list A) : list A :=
  match Array.find is_target ignored with
  | Some _ => ignored
  | None =>
      match Array.find is_target active with
      | Some entry => ignored ++ [entry]
      | None => ignored
      end
  end.

(** No active token has the address of an ignored token, and no active
    collectible has the address and token id of an ignored collectible. *)
Definition tokens_disjoint (active ignored : list Token) : Prop :=
  forall token ignoredToken,
    token ∈ active -> ignoredToken ∈ ignored ->
    Token.address ignoredToken <> Token.address token.

Definition collectibles_disjoint (active ignored : list Collectible) : Prop :=
  forall collectible ignoredCollectible,
    collectible ∈ active -> ignoredCollectible ∈ ignored ->
    ~ (Collectible.address ignoredCollectible = Collectible.address collectible
       /\ Collectible.tokenId ignoredCollectible = Collectible.tokenId collectible).

Definition active_ignored_disjoint (c : AssetsController) : Prop :=
  tokens_disjoint (tokens (state c)) (ignoredTokens (state c))
  /\ collectibles_disjoint (collectibles (state c))
       (ignoredCollectibles (state c)).

(** The same, as a check that computes. *)
Definition active_ignored_disjointb (c : AssetsController) : bool :=
  forallb
    (fun token =>
       forallb
         (fun ignoredToken =>
            negb (String.eqb (Token.address ignoredToken) (Token.address token)))
         (ignoredTokens (state c)))
    (tokens (state c))
  && forallb
       (fun collectible =>
          forallb
            (fun ignoredCollectible =>
               negb (is_collectible (Collectible.address collectible)
                       (Collectible.tokenId collectible) ignoredCollectible))
            (ignoredCollectibles (state c)))
       (collectibles (state c)).

Module Sample.
(** An address in lower case and its checksummed form. *)
Definition lowerAddress : string :=
  "0x6b175474e89094c44da98b954eedeac495271d0f".
Definition checksumAddress : string :=
  "0x6B175474E89094C44Da98b954EedeAC495271d0F".

Definition otherAddress : string :=
  "0x0D8775F648430679A709E98d2b0Cb6250d2887EF".

(** The address of a contract of collectibles, in lower case and
    checksummed. *)
Definition kittiesLower : string :=
  "0x06012c8cf97bead5deae237070f9587f8e7a266d".
Definition kittiesAddress : string :=
  "0x06012c8cf97BEaD5deAe237070F9587f8E7A266d".

(** A controller that tracks one token. *)
Definition oneToken : AssetsController :=
  snd (addToken lowerAddress "DAI" 18 None newAssetsController).

(** The token is removed and ignored. *)
Definition ignoredToken : AssetsController :=
  removeAndIgnoreToken lowerAddress oneToken.

(** The user adds the ignored token again. *)
Definition reAddedToken : AssetsController :=
  snd (addToken lowerAddress "DAI" 18 None ignoredToken).
End Sample.

Definition contract_at (address : string) (contract : CollectibleContract)
  : bool :=
  String.eqb (CollectibleContract.address contract) address.

Definition collectible_at (address : string) (collectible : Collectible) : bool :=
  String.eqb (Collectible.address collectible) address.

(** Exactly one active collectible has the contract address [a], and it is
    the one with [tokenId]. *)
Definition only_collectible_of (l : list Collectible) (a : string) (tokenId : Z)
  : Prop :=
  exists i x,
    l !! i = Some x /\ Collectible.address x = a
    /\ Collectible.tokenId x = tokenId
    /\ forall j y, l !! j = Some y -> Collectible.address y = a -> j = i.

Definition has_id (id : string) (m : SuggestedAssetMeta) : bool :=
  String.eqb id (SuggestedAssetMeta.id m).

Module SampleWatch.
(** A valid payload whose address is written in lower case. *)
Definition asset : Token :=
  {| Token.address := Sample.lowerAddress; Token.symbol := "DAI";
     Token.decimals := 18; Token.image := None |}.

(** The same payload with a number of decimals out of range. *)
Definition badAsset : Token :=
  {| Token.address := Sample.lowerAddress; Token.symbol := "DAI";
     Token.decimals := 37; Token.image := None |}.

(** The request is pending on a new controller. *)
Definition watching : AssetsController :=
  snd (watchAsset asset "ERC20" "id-1" 1 newAssetsController).

(** The request is pending on a controller that tracks the token already. *)
Definition watchingTracked : AssetsController :=
  snd (watchAsset asset "ERC20" "id-1" 1 Sample.oneToken).
End SampleWatch.

Module SampleRates.
Import CurrencyRate.

(** A controller whose timer is set, with a currency change pending. *)
Definition polling : CurrencyRate.t :=
  {| state :=
       {| conversionDate := 1600000000;
          conversionRate := 2000;
          currentCurrency := "usd";
          nativeCurrency := "ETH";
          pendingCurrentCurrency := Some "eur";
          pendingNativeCurrency := None;
          usdConversionRate := None |};
     includeUsdRate := false;
     intervalDelay := 180000;
     intervalId := Some 1%nat;
     timers := [1%nat] |}.

(** The price API is down. *)
Definition down : Fetch := fun _ _ _ => Throw (Error "Fetch failed").

(** The price API answers. *)
Definition up : Fetch :=
  fun _ _ _ =>
    Ok {| rates_conversionDate := 1600000180;
          rates_conversionRate := 1800;
          rates_usdConversionRate := NaN |}.
(** A controller that was never started. *)
Definition idle : CurrencyRate.t :=
  {| state := defaultState; includeUsdRate := true; intervalDelay := 180000;
     intervalId := None; timers := [] |}.


End SampleRates.

(** An active contract entry for the address. *)
Definition has_contract (a : string) (l : list CollectibleContract) : Prop :=
  exists k, k ∈ l /\ CollectibleContract.address k = a.

(** An entry for the collectible. *)
Definition has_collectible (a : string) (tokenId : Z) (l : list Collectible)
  : Prop :=
  exists x, x ∈ l /\ Collectible.address x = a /\ Collectible.tokenId x = tokenId.

Module SampleDetection.
(** No indexing API; name and symbol can be read off the contract. *)
Definition contractOnly : Network :=
  {| collectibleFromApi := fun _ _ => None;
     collectibleFromTokenURI := fun _ _ => None;
     contractFromApi := fun _ => None;
     contractFromContract := fun _ => Some ("Kitties", "CK") |}.

(** The indexing API knows the contract and has an image for it. *)
Definition indexed : Network :=
  {| collectibleFromApi := fun _ _ => None;
     collectibleFromTokenURI := fun _ _ => None;
     contractFromApi :=
       fun _ =>
         Some {| ApiCollectibleContractResponse.description := None;
                 ApiCollectibleContractResponse.image_url :=
                   Some "https://example.org/kitties.png";
                 ApiCollectibleContractResponse.name := Some "Kitties";
                 ApiCollectibleContractResponse.symbol := Some "CK";
                 ApiCollectibleContractResponse.total_supply := None |};
     contractFromContract := fun _ => None |}.

(** Neither the indexing API nor the contract answers. *)
Definition offline : Network :=
  {| collectibleFromApi := fun _ _ => None;
     collectibleFromTokenURI := fun _ _ => None;
     contractFromApi := fun _ => None;
     contractFromContract := fun _ => None |}.

(** The user added collectible 1 of a contract by hand. *)
Definition manual : AssetsController :=
  addCollectible contractOnly Sample.kittiesLower 1 None false
    newAssetsController.

(** The listing of the owner has collectible 2 of the same contract. *)
Definition item : ApiCollectibleResponse :=
  {| ApiCollectibleResponse.token_id := 2;
     ApiCollectibleResponse.image_original_url := None;
     ApiCollectibleResponse.name := Some "Kitty 2";
     ApiCollectibleResponse.description := None;
     ApiCollectibleResponse.asset_contract_address := Sample.kittiesLower |}.

(** A registry with two ERC20 contracts and one that is not. *)
Definition contractMap : ContractMap :=
  [ (Sample.checksumAddress,
     {| ContractMetadata.erc20 := true; ContractMetadata.decimals := 18;
        ContractMetadata.symbol := "DAI" |});
    (Sample.kittiesAddress,
     {| ContractMetadata.erc20 := false; ContractMetadata.decimals := 0;
        ContractMetadata.symbol := "CK" |});
    (Sample.otherAddress,
     {| ContractMetadata.erc20 := true; ContractMetadata.decimals := 6;
        ContractMetadata.symbol := "BAT" |}) ].

(** A detector on mainnet whose configured tokens are those of
    [Sample.oneToken]: the user tracks the first contract of the registry. *)
Definition detector : Detection.t :=
  {| Detection.config :=
       {| Detection.interval := Detection.DEFAULT_INTERVAL;
          Detection.networkType := "mainnet";
          Detection.selectedAddress :=
            "0x9d8A62f656a8d1615C1294fd71e9CFb3E4855A4F";
          Detection.tokens := tokens (state Sample.oneToken) |};
     Detection.disabled := false |}.

(** The balance checker finds no balance. *)
Definition noBalances : string -> list string -> Result (list (string * N)) :=
  fun _ _ => Ok [].
End SampleDetection.

(** ** Further predicates and utilities *)

(** The address is in the form [toChecksumAddress] gives it. *)
Definition is_checksummed (address : string) : Prop :=
  toChecksumAddress address = address.

(** [addToken] applied to the fields of a token, as [addTokens] reads them
    off each element. *)
Definition addToken_of (c : AssetsController) (tokenToAdd : Token)
  : AssetsController :=
  snd (addToken (Token.address tokenToAdd) (Token.symbol tokenToAdd)
         (Token.decimals tokenToAdd) (Token.image tokenToAdd) c).

(** No two entries of the list have the same address. *)
Definition tokens_unique (l : list Token) : Prop :=
  NoDup (map Token.address l).

(** Every active and every ignored token has a checksummed address. *)
Definition tokens_checksummed (c : AssetsController) : Prop :=
  Forall (fun token => is_checksummed (Token.address token)) (tokens (state c))
  /\ Forall (fun token => is_checksummed (Token.address token))
       (ignoredTokens (state c)).

(** The entry the loop of [addTokens] builds for an element. *)
Definition entry_of (tokenToAdd : Token) : Token :=
  {| Token.address := toChecksumAddress (Token.address tokenToAdd);
     Token.symbol := Token.symbol tokenToAdd;
     Token.decimals := Token.decimals tokenToAdd;
     Token.image := Token.image tokenToAdd |}.

(** The active lists are the slices of the selected account and chain. *)
Definition mirrors_slices (c : AssetsController) : Prop :=
  let account := selectedAddress (config c) in
  let chain := chainId (config c) in
  read_slice (allTokens (state c)) account chain = tokens (state c)
  /\ read_slice (allCollectibles (state c)) account chain
     = collectibles (state c)
  /\ read_slice (allCollectibleContracts (state c)) account chain
     = collectibleContracts (state c).

(** [addCollectibleContract] accepts the metadata the resolver finds for
    the address. *)
Definition accepted_metadata (net : Network) (a : string) (detection : bool)
  : Prop :=
  let information := getCollectibleContractInformation net a in
  if detection
  then Js.truthy_opt (ContractInformation.image_url information) = true
  else ContractInformation.keys_length information <> 0.

(** Every active collectible has an active contract entry. *)
Definition contracts_cover (c : AssetsController) : Prop :=
  forall x, x ∈ collectibles (state c) ->
            has_contract (Collectible.address x) (collectibleContracts (state c)).

(** What an operation on the collectibles leaves alone. *)
Definition same_but_collectibles (c c' : AssetsController) : Prop :=
  tokens (state c') = tokens (state c)
  /\ allTokens (state c') = allTokens (state c)
  /\ ignoredTokens (state c') = ignoredTokens (state c)
  /\ ignoredCollectibles (state c') = ignoredCollectibles (state c)
  /\ suggestedAssets (state c') = suggestedAssets (state c)
  /\ config c' = config c
  /\ hub c' = hub c /\ promises c' = promises c /\ emitted c' = emitted c.

Abbreviation opts_of item :=
  (Some
     {| CollectibleInformation.description :=
          ApiCollectibleResponse.description item;
        CollectibleInformation.image :=
          ApiCollectibleResponse.image_original_url item;
        CollectibleInformation.name := ApiCollectibleResponse.name item |}).

(** Nothing is left to do for the item. *)
Definition settled (net : Network) (item : ApiCollectibleResponse)
    (assets : AssetsController) : Prop :=
  let a := toChecksumAddress (ApiCollectibleResponse.asset_contract_address item) in
  let tokenId := ApiCollectibleResponse.token_id item in
  has_collectible a tokenId (ignoredCollectibles (state assets))
  \/ (has_contract a (collectibleContracts (state assets))
      /\ has_collectible a tokenId (collectibles (state assets)))
  \/ (~ has_contract a (collectibleContracts (state assets))
      /\ ~ accepted_metadata net a true).

Definition collectible_key (x : Collectible) : string * Z :=
  (Collectible.address x, Collectible.tokenId x).

(** No two active collectibles have the same address and token id, and no
    two active contract entries the same address. *)
Definition entries_unique (c : AssetsController) : Prop :=
  NoDup (map collectible_key (collectibles (state c)))
  /\ NoDup (map CollectibleContract.address (collectibleContracts (state c))).

(** The balance call fails, or it returns a balance for a well-formed
    address that is neither ignored nor in the registry. *)
Definition token_pass_fails (contractMap : ContractMap)
    (getBalancesInSingleCall : string -> list string -> Result (list (string * N)))
    (d : Detection.t) (assets : AssetsController) : Prop :=
  match getBalancesInSingleCall (Detection.selectedAddress (Detection.config d))
          (Detection.tokensToDetect contractMap d) with
  | Throw _ => True
  | Ok balances =>
      exists entry,
        entry ∈ balances
        /\ isValidAddress (fst entry) = true
        /\ contract_lookup contractMap (fst entry) = None
        /\ forall token, token ∈ ignoredTokens (state assets) ->
                         Token.address token <> toChecksumAddress (fst entry)
  end.

(** Every stored suggestion is a pending ERC20 request whose payload passes
    the validation. *)
Definition suggestions_valid (c : AssetsController) : Prop :=
  Forall
    (fun m =>
       SuggestedAssetMeta.type m = "ERC20"
       /\ validateTokenToWatch (SuggestedAssetMeta.asset m) = Ok tt
       /\ SuggestedAssetMeta.status m = pending)
    (suggestedAssets (state c)).

(** The only interval timer that may be set is the one the controller
    holds the handle of. *)
Definition own_timer_only (c : CurrencyRate.t) : Prop :=
  CurrencyRate.timers c = []
  \/ exists handle,
       CurrencyRate.intervalId c = Some handle
       /\ CurrencyRate.timers c = [handle].

(** ** [apis/crypto-compare] *)

(** [getPricingURL(currentCurrency, nativeCurrency, includeUSDRate)] *)
Definition getPricingURL (currentCurrency nativeCurrency : string)
    (includeUSDRate : bool) : string :=
  "https://min-api.cryptocompare.com/data/price?fsym="
  +:+ Js.toUpperCase nativeCurrency
  +:+ "&tsyms=" +:+ Js.toUpperCase currentCurrency
  +:+ (if includeUSDRate
          && negb (String.eqb (Js.toUpperCase currentCurrency) "USD")
       then ",USD" else "").

(** ** [util]: hexadecimal text *)

(** [isHexPrefixed(str)] *)
Definition isHexPrefixed (str : string) : bool :=
  match str with
  | String "0" (String "x" _) => true
  | _ => false
  end.

(** [addHexPrefix(str)] *)
Definition addHexPrefix (str : string) : string :=
  if isHexPrefixed str then str else "0x" +:+ str.

(** A hexadecimal digit of [toString(16)] and [toString('hex')]. *)
Definition hex_digit (n : N) : ascii :=
  if (n <? 10)%N then ascii_of_N (48 + n) else ascii_of_N (87 + n).

(** [buffer.toString('hex')] *)
Fixpoint hex_of_bytes (buffer : list N) : string :=
  match buffer with
  | [] => EmptyString
  | b :: rest =>
      String (hex_digit (N.shiftr b 4))
        (String (hex_digit (N.land b 15)) (hex_of_bytes rest))
  end.

(** [bufferToHex(buf)] *)
Definition bufferToHex (buf : list N) : string := "0x" +:+ hex_of_bytes buf.

(** [hexRe]: [/^[0-9A-Fa-f]+$/gu], as [match] applies it. *)
Definition hexRe (s : string) : bool :=
  Js.truthy s && Js.all_chars Js.is_hex s.

(** [normalizeMessageData(data)] *)
Definition normalizeMessageData (data : string) : string :=
  let stripped := stripHexPrefix data in
  if hexRe stripped then addHexPrefix stripped
  else bufferToHex (utf8_bytes data).

(** *** Big numbers

    A [BN] is an integer.  [toString(16)] writes it in lower-case
    hexadecimal digits, with a minus sign when it is negative; the
    constructor, given a string and the base 16, removes white space, takes a
    leading minus sign, and reads the hexadecimal digits that follow.  On
    any other character the versions of [bn.js] differ (a masked character
    code, or a failed assertion), and without a digit the constructor
    leaves an object with no words, which is no integer: the model has no
    result there. *)

(** The hexadecimal digits of [n], the most significant first; [fuel]
    bounds their number. *)
Fixpoint hex_digits (fuel : nat) (n : N) : list ascii :=
  match fuel with
  | O => []
  | S fuel' =>
      if (n <? 16)%N then [hex_digit n]
      else hex_digits fuel' (N.shiftr n 4) ++ [hex_digit (N.land n 15)]
  end.

Module BN.

(** [bn.toString(16)] *)
Definition toString (bn : Z) : string :=
  match bn with
  | Z0 => "0"
  | Zpos p => string_of_list_ascii (hex_digits (S (N.to_nat (N.log2 (Npos p)))) (Npos p))
  | Zneg p =>
      String "-"
        (string_of_list_ascii (hex_digits (S (N.to_nat (N.log2 (Npos p)))) (Npos p)))
  end.

(** One more digit of the number read so far. *)
Definition shift_in (r : option N) (c : ascii) : option N :=
  match r, Js.hex_value c with
  | Some r, Some d => Some (16 * r + d)%N
  | _, _ => None
  end.

(** The number a string of hexadecimal digits denotes. *)
Definition parseHex (l : list ascii) : option N :=
  fold_left shift_in l (Some 0%N).

(** [new BN(number, 16)] on a string *)
Definition ofString (number : string) : option Z :=
  let number :=
    List.filter (fun c => negb (Js.is_whitespace c))
      (list_ascii_of_string number) in
  match number with
  | [] | ["-"%char] => None
  | "-"%char :: rest => option_map (fun n => (- Z.of_N n)%Z) (parseHex rest)
  | _ => option_map Z.of_N (parseHex number)
  end.

End BN.

(** [BNToHex(inputBn)] *)
Definition BNToHex (inputBn : Z) : string := addHexPrefix (BN.toString inputBn).

(** [hexToBN(inputHex)] *)
Definition hexToBN (inputHex : string) : option Z :=
  BN.ofString (stripHexPrefix inputHex).

(** ** [util]: transactions *)

(** A transaction, as far as [util] reads it. *)
Module Transaction.
Record t : Type := mk
  { data : option string;
    from : option string;
    gas : option string;
    gasPrice : option string;
    nonce : option string;
    to : option string;
    value : option string }.
End Transaction.
Abbreviation Transaction := Transaction.t.

(** [if (transaction[key]) normalizedTransaction[key] =
    NORMALIZERS[key](transaction[key])] *)
Definition normalized (normalizer : string -> string) (field : option string)
  : option string :=
  match field with
  | Some v => if Js.truthy v then Some (normalizer v) else None
  | None => None
  end.

(** [normalizeTransaction(transaction)] *)
Definition normalizeTransaction (transaction : Transaction) : Transaction :=
  {| Transaction.data := normalized addHexPrefix (Transaction.data transaction);
     Transaction.from :=
       Some (default ""
               (normalized (fun from => Js.toLowerCase (addHexPrefix from))
                  (Transaction.from transaction)));
     Transaction.gas := normalized addHexPrefix (Transaction.gas transaction);
     Transaction.gasPrice :=
       normalized addHexPrefix (Transaction.gasPrice transaction);
     Transaction.nonce := normalized addHexPrefix (Transaction.nonce transaction);
     Transaction.to :=
       normalized (fun to => Js.toLowerCase (addHexPrefix to))
         (Transaction.to transaction);
     Transaction.value := normalized addHexPrefix (Transaction.value transaction) |}.

(** The text a template literal has for an optional string. *)
Definition interpolated (v : option string) : string :=
  match v with
  | Some s => s
  | None => "undefined"
  end.

(** The check of [from] that the validators share. *)
Definition invalid_from (from : option string) : bool :=
  match from with
  | Some from => negb (Js.truthy from) || negb (isValidAddress from)
  | None => true
  end.

Definition invalid_from_error (from : option string) : JsError :=
  Error ("Invalid " +:+ dquote +:+ "from" +:+ dquote +:+ " address: "
           +:+ interpolated from +:+ " must be a valid string.").

Definition invalid_to_error (to : option string) : JsError :=
  Error ("Invalid " +:+ dquote +:+ "to" +:+ dquote +:+ " address: "
           +:+ interpolated to +:+ " must be a valid string.").

(** [validateTransaction(transaction)]: throws, or returns with the
    transaction as the call leaves it (it deletes [to] from a contract
    deployment). *)
Definition validateTransaction (transaction : Transaction)
  : Result Transaction :=
  if invalid_from (Transaction.from transaction) then
    Throw (invalid_from_error (Transaction.from transaction))
  else
    let checked : Result Transaction :=
      match Transaction.to transaction with
      | Some to =>
          if String.eqb to "0x" then
            if Js.truthy_opt (Transaction.data transaction) then
              Ok {| Transaction.data := Transaction.data transaction;
                    Transaction.from := Transaction.from transaction;
                    Transaction.gas := Transaction.gas transaction;
                    Transaction.gasPrice := Transaction.gasPrice transaction;
                    Transaction.nonce := Transaction.nonce transaction;
                    Transaction.to := None;
                    Transaction.value := Transaction.value transaction |}
            else Throw (invalid_to_error (Transaction.to transaction))
          else if negb (isValidAddress to) then
            Throw (invalid_to_error (Transaction.to transaction))
          else Ok transaction
      | None =>
          if Js.truthy_opt (Transaction.data transaction) then Ok transaction
          else Throw (invalid_to_error (Transaction.to transaction))
      end in
    match checked with
    | Throw error => Throw error
    | Ok transaction =>
        match Transaction.value transaction with
        | None => Ok transaction
        | Some value =>
            if Js.includes "-" value then
              Throw (Error ("Invalid " +:+ dquote +:+ "value" +:+ dquote +:+ ": "
                              +:+ value +:+ " is not a positive number."))
            else if Js.includes "." value then
              Throw (Error ("Invalid " +:+ dquote +:+ "value" +:+ dquote +:+ ": "
                              +:+ value
                              +:+ " number must be denominated in wei."))
            else
              let intValue := Js.parseInt value in
              let isValid :=
                Js.Number_isFinite intValue
                && negb (Js.Number_isNaN intValue)
                && negb (Js.isNaN_Number value)
                && Js.Number_isSafeInteger intValue in
              if negb isValid then
                Throw (Error ("Invalid " +:+ dquote +:+ "value" +:+ dquote
                                +:+ ": " +:+ value
                                +:+ " number must be a valid number."))
              else Ok transaction
        end
    end.

(** A normaliser whose results are prefixed and which leaves prefixed
    results alone. *)
Definition stable (normalizer : string -> string) : Prop :=
  forall v, isHexPrefixed (normalizer v) = true
            /\ normalizer (normalizer v) = normalizer v.

Module SampleTransaction.
(** A transfer of one ether. *)
Definition transfer : Transaction :=
  {| Transaction.data := None;
     Transaction.from := Some Sample.checksumAddress;
     Transaction.gas := Some "0x5208";
     Transaction.gasPrice := None;
     Transaction.nonce := None;
     Transaction.to := Some Sample.otherAddress;
     Transaction.value := Some "0xde0b6b3a7640000" |}.
End SampleTransaction.

(** The transaction with another value. *)
Definition with_value (value : option string) (transaction : Transaction)
  : Transaction :=
  {| Transaction.data := Transaction.data transaction;
     Transaction.from := Transaction.from transaction;
     Transaction.gas := Transaction.gas transaction;
     Transaction.gasPrice := Transaction.gasPrice transaction;
     Transaction.nonce := Transaction.nonce transaction;
     Transaction.to := Transaction.to transaction;
     Transaction.value := value |}.

(** Every active or ignored collectible and every active contract entry
    has a checksummed address. *)
Definition collectibles_checksummed (c : AssetsController) : Prop :=
  Forall (fun x => is_checksummed (Collectible.address x)) (collectibles (state c))
  /\ Forall (fun x => is_checksummed (Collectible.address x))
       (ignoredCollectibles (state c))
  /\ Forall (fun k => is_checksummed (CollectibleContract.address k))
       (collectibleContracts (state c)).

(** The contract entries are those of the addresses of the active
    collectibles. *)
Definition contracts_match (c : AssetsController) : Prop :=
  contracts_cover c
  /\ forall k, k ∈ collectibleContracts (state c) ->
       exists x, x ∈ collectibles (state c)
                 /\ Collectible.address x = CollectibleContract.address k.

(** * Properties *)

(** ** The address checksum *)

(** The digest of the empty message. *)
Example keccak256_empty :
  Keccak.keccak256 [] =
  [ 0xc5; 0xd2; 0x46; 0x01; 0x86; 0xf7; 0x23; 0x3c;
    0x92; 0x7e; 0x7d; 0xb2; 0xdc; 0xc7; 0x03; 0xc0;
    0xe5; 0x00; 0xb6; 0x53; 0xca; 0x82; 0x27; 0x3b;
    0x7b; 0xfa; 0xd8; 0x04; 0x5d; 0x85; 0xa4; 0x70 ]%N.
Proof. vm_compute. reflexivity. Qed.

(** Two of the test addresses of EIP-55. *)
Example toChecksumAddress_eip55_1 :
  toChecksumAddress "0x5aaeb6053f3e94c9b9a09f33669435e7ef1beaed"
  = "0x5aAeb6053F3E94C9b9A09f33669435E7Ef1BeAed".
Proof. vm_compute. reflexivity. Qed.

Example toChecksumAddress_eip55_2 :
  toChecksumAddress "0xFB6916095CA1DF60BB79CE92CE3EA74C37C5D359"
  = "0xfB6916095ca1df60bB79Ce92cE3Ea74c37c5d359".
Proof. vm_compute. reflexivity. Qed.

(** *** The checksum only depends on the lower-case text, so it is idempotent *)

Lemma lower_upper_char (c : ascii) :
  Js.lower_char (Js.upper_char c) = Js.lower_char c.
Proof. destruct c as [[] [] [] [] [] [] [] []]; reflexivity. Qed.

Lemma lower_lower_char (c : ascii) :
  Js.lower_char (Js.lower_char c) = Js.lower_char c.
Proof. destruct c as [[] [] [] [] [] [] [] []]; reflexivity. Qed.

Lemma toLowerCase_idemp (s : string) :
  Js.toLowerCase (Js.toLowerCase s) = Js.toLowerCase s.
Proof.
  induction s as [|c s IH]; simpl; [reflexivity|].
  now rewrite lower_lower_char, IH.
Qed.

Lemma toLowerCase_checksum_case (s : string) (hash : list N) :
  Js.toLowerCase (checksum_case s hash) = Js.toLowerCase s.
Proof.
  revert hash; induction s as [|c s IH]; intros hash; simpl; [reflexivity|].
  destruct hash as [|h hash]; simpl; rewrite IH; [reflexivity|].
  destruct (8 <=? h)%N; [now rewrite lower_upper_char | reflexivity].
Qed.

Lemma stripHexPrefix_0x (s : string) : stripHexPrefix ("0x" +:+ s) = s.
Proof. reflexivity. Qed.

Lemma toChecksumAddress_idemp (address : string) :
  toChecksumAddress (toChecksumAddress address) = toChecksumAddress address.
Proof.
  unfold toChecksumAddress at 1 3.
  set (l := Js.toLowerCase (stripHexPrefix address)).
  assert (Hl : Js.toLowerCase (stripHexPrefix (toChecksumAddress address)) = l).
  { unfold toChecksumAddress. fold l. rewrite stripHexPrefix_0x.
    rewrite toLowerCase_checksum_case. apply toLowerCase_idemp. }
  now rewrite Hl.
Qed.

(** ** Arrays: searching *)

Section ArrayFacts.
Context {A : Type}.
Implicit Types (p : A -> bool) (l : list A).

Lemma findIndex_Some p l i :
  Array.findIndex p l = Some i ->
  exists x, l !! i = Some x /\ p x = true
            /\ forall j y, j < i -> l !! j = Some y -> p y = false.
Proof.
  revert i; induction l as [|y l IH]; intros i; simpl; [discriminate|].
  destruct (p y) eqn:Hy.
  - intros [= <-]. exists y. repeat split; [assumption|]. intros j z Hj; lia.
  - destruct (Array.findIndex p l) as [k|] eqn:Hk; simpl; [|discriminate].
    intros [= <-]. destruct (IH k eq_refl) as (x & Hx & Hpx & Hlt).
    exists x. repeat split; [assumption..|].
    intros [|j] z Hj Hz; simpl in Hz.
    + congruence.
    + apply (Hlt j); [lia | assumption].
Qed.

Lemma findIndex_None p l :
  Array.findIndex p l = None <-> (forall x, x ∈ l -> p x = false).
Proof.
  induction l as [|y l IH]; simpl.
  - split; [intros _ x Hx; inversion Hx | reflexivity].
  - destruct (p y) eqn:Hy.
    + split; [discriminate|]. intros H. specialize (H y (list_elem_of_here _ _)).
      congruence.
    + destruct (Array.findIndex p l) as [k|]; simpl.
      * split; [discriminate|]. intros H. exfalso.
        assert (Hk : Some k = None); [|discriminate].
        apply IH. intros x Hx. apply H. now apply list_elem_of_further.
      * split; [|reflexivity]. intros _ x Hx.
        apply elem_of_cons in Hx as [->|Hx]; [assumption|].
        now apply IH.
Qed.

Lemma find_findIndex p l :
  Array.find p l = Array.at_index l (Array.findIndex p l).
Proof.
  unfold Array.find.
  induction l as [|y l IH]; simpl; [reflexivity|].
  destruct (p y); [reflexivity|]. rewrite IH.
  now destruct (Array.findIndex p l).
Qed.

Lemma find_None p l :
  Array.find p l = None <-> (forall x, x ∈ l -> p x = false).
Proof.
  rewrite find_findIndex, <- findIndex_None.
  destruct (Array.findIndex p l) as [i|] eqn:Hi; simpl; [|tauto].
  destruct (findIndex_Some _ _ _ Hi) as (x & Hx & _).
  rewrite Hx. split; discriminate.
Qed.

Lemma find_Some_true p l x : Array.find p l = Some x -> x ∈ l /\ p x = true.
Proof.
  intros H. apply List.find_some in H as [Hin Hp].
  split; [now apply list_elem_of_In | assumption].
Qed.

(** [indexOf] of what [find] returned is where [find] found it. *)
Lemma indexOf_find `{EqDecision A} p l x :
  Array.find p l = Some x -> Array.indexOf l x = Array.findIndex p l.
Proof.
  unfold Array.indexOf, Array.find.
  induction l as [|y l IH]; simpl; [discriminate|].
  destruct (p y) eqn:Hy.
  - intros [= ->]. now rewrite bool_decide_eq_true_2.
  - intros Hx. rewrite bool_decide_eq_false_2.
    + now rewrite IH.
    + intros ->. apply List.find_some in Hx as [_ Hx]. congruence.
Qed.

Lemma filter_elem_of p l x :
  x ∈ Array.filter p l <-> x ∈ l /\ p x = true.
Proof.
  unfold Array.filter. rewrite !list_elem_of_In. apply List.filter_In.
Qed.

Lemma filter_id p l :
  (forall x, x ∈ l -> p x = true) -> Array.filter p l = l.
Proof.
  unfold Array.filter. induction l as [|y l IH]; intros H; simpl; [reflexivity|].
  rewrite (H y (list_elem_of_here _ _)). f_equal. apply IH.
  intros x Hx. apply H. now apply list_elem_of_further.
Qed.

Lemma filter_filter_same p l :
  Array.filter p (Array.filter p l) = Array.filter p l.
Proof. apply filter_id. intros x Hx. now apply filter_elem_of in Hx. Qed.
End ArrayFacts.

(** ** Keyed slices *)

Lemma read_write_slice {A : Type} (all : Keyed A) (cfg : AssetsConfig)
    (l : list A) :
  write_slice all cfg l !! selectedAddress cfg
    ≫= (fun slice => slice !! chainId cfg) = Some l.
Proof.
  unfold write_slice. rewrite lookup_insert_eq. simpl. apply lookup_insert_eq.
Qed.

Lemma write_slice_other_account {A : Type} (all : Keyed A)
    (cfg : AssetsConfig) (l : list A) (account : string) :
  account <> selectedAddress cfg ->
  write_slice all cfg l !! account = all !! account.
Proof. intros H. unfold write_slice. now rewrite lookup_insert_ne. Qed.

Lemma write_slice_other_chain {A : Type} (all : Keyed A) (cfg : AssetsConfig)
    (l : list A) (chain : string) :
  chain <> chainId cfg ->
  write_slice all cfg l !! selectedAddress cfg
    ≫= (fun slice => slice !! chain)
  = all !! selectedAddress cfg ≫= (fun slice => slice !! chain).
Proof.
  intros H. unfold write_slice. rewrite lookup_insert_eq. simpl.
  rewrite lookup_insert_ne by congruence.
  destruct (all !! selectedAddress cfg); [reflexivity|]. simpl. apply lookup_empty.
Qed.

Lemma write_slice_twice {A : Type} (all : Keyed A) (cfg : AssetsConfig)
    (l1 l2 : list A) :
  write_slice (write_slice all cfg l1) cfg l2 = write_slice all cfg l2.
Proof.
  unfold write_slice. rewrite lookup_insert_eq. simpl.
  now rewrite !insert_insert_eq.
Qed.

(** ** Tokens *)

(** [put_token] by the position of the first entry with the address. *)
Lemma put_token_findIndex (tokens : list Token) (newEntry : Token) :
  put_token tokens newEntry =
  match Array.findIndex (has_address (Token.address newEntry)) tokens with
  | Some i => <[i := newEntry]> tokens
  | None => tokens ++ [newEntry]
  end.
Proof.
  unfold put_token. fold (has_address (Token.address newEntry)).
  destruct (Array.find _ tokens) as [previous|] eqn:Hfind.
  - rewrite (indexOf_find _ _ _ Hfind).
    rewrite find_findIndex in Hfind.
    destruct (Array.findIndex _ tokens); [reflexivity | discriminate].
  - pose proof (proj1 (find_None _ _) Hfind) as Hnone.
    now rewrite (proj2 (findIndex_None _ _) Hnone).
Qed.

Lemma first_index_unique {A : Type} (p : A -> bool) (l : list A) (i : nat) (x : A) :
  l !! i = Some x -> p x = true ->
  (forall j y, j < i -> l !! j = Some y -> p y = false) ->
  Array.findIndex p l = Some i.
Proof.
  intros Hi Hp Hfirst.
  destruct (Array.findIndex p l) as [k|] eqn:Hk.
  - destruct (findIndex_Some _ _ _ Hk) as (y & Hy & Hpy & Hlt).
    destruct (Nat.lt_trichotomy k i) as [Hlt'|[->|Hgt]]; [|reflexivity|].
    + rewrite (Hfirst k y Hlt' Hy) in Hpy. discriminate.
    + rewrite (Hlt i x Hgt Hi) in Hp. discriminate.
  - rewrite findIndex_None in Hk.
    rewrite (Hk x) in Hp; [discriminate|]. apply list_elem_of_lookup. eauto.
Qed.

(** C2. [addToken] checksums the address.  When the active token list has
    an entry with the checksummed address, an entry with that address is
    replaced by the new values at its position: it is the first such entry
    (the only one when addresses are unique), and the list keeps its length
    and every other entry.  Otherwise the new entry is appended at the end.
    On every call the list the call resolves with is written both to the
    active projection [tokens] and to the slice of [allTokens] keyed by the
    selected address and the chain identifier. *)
Theorem addToken_replaces_in_place_or_appends
    (address symbol : string) (decimals : Z) (image : option string)
    (c : AssetsController) :
  let checksummed := toChecksumAddress address in
  let newEntry :=
    {| Token.address := checksummed; Token.symbol := symbol;
       Token.decimals := decimals; Token.image := image |} in
  let old := tokens (state c) in
  let result := fst (addToken address symbol decimals image c) in
  let c' := snd (addToken address symbol decimals image c) in
  (forall t,
      t ∈ old -> Token.address t = checksummed ->
      exists i previous,
        old !! i = Some previous /\ Token.address previous = checksummed
        /\ result = <[i := newEntry]> old)
  /\ (forall i previous,
        old !! i = Some previous ->
        Token.address previous = checksummed ->
        (forall j t, j < i -> old !! j = Some t -> Token.address t <> checksummed) ->
        result = <[i := newEntry]> old
        /\ length result = length old
        /\ result !! i = Some newEntry
        /\ (forall j, j <> i -> result !! j = old !! j))
  /\ ((forall t, t ∈ old -> Token.address t <> checksummed) ->
      result = old ++ [newEntry])
  /\ tokens (state c') = result
  /\ allTokens (state c') !! selectedAddress (config c)
       ≫= (fun slice => slice !! chainId (config c)) = Some result
  /\ config c' = config c.
Proof.
  intros checksummed newEntry old result c'.
  assert (Hresult : result = put_token old newEntry) by reflexivity.
  rewrite put_token_findIndex in Hresult. simpl in Hresult.
  fold checksummed in Hresult.
  split; [|split; [|split; [|split; [|split]]]].
  - intros t Ht Haddr.
    destruct (Array.findIndex (has_address checksummed) old) as [i|] eqn:Hidx.
    + destruct (findIndex_Some _ _ _ Hidx) as (previous & Hi & Hp & _).
      exists i, previous. split; [assumption|]. split; [|assumption].
      now apply String.eqb_eq.
    + pose proof (proj1 (findIndex_None _ _) Hidx t Ht) as Hnone.
      unfold has_address in Hnone. rewrite Haddr, String.eqb_refl in Hnone.
      discriminate.
  - intros i previous Hi Haddr Hfirst.
    assert (Hidx : Array.findIndex (has_address checksummed) old = Some i).
    { apply (first_index_unique _ _ _ previous); [assumption| |].
      - unfold has_address. now apply String.eqb_eq.
      - intros j t Hj Ht. unfold has_address. apply String.eqb_neq. eauto. }
    rewrite Hidx in Hresult. subst result. rewrite Hresult.
    split; [reflexivity|]. split; [apply length_insert|]. split.
    + apply list_lookup_insert_eq. now apply lookup_lt_Some in Hi.
    + intros j Hj. now apply list_lookup_insert_ne.
  - intros Hnone.
    assert (Hidx : Array.findIndex (has_address checksummed) old = None).
    { apply findIndex_None. intros t Ht. unfold has_address.
      apply String.eqb_neq. auto. }
    now rewrite Hidx in Hresult.
  - reflexivity.
  - apply read_write_slice.
  - reflexivity.
Qed.

(** ** Remove and ignore *)

Section FilterAndIgnore.
Context {A : Type} (is_target : A -> bool).

Lemma find_app_new (ignored : list A) (entry : A) :
  Array.find is_target ignored = None -> is_target entry = true ->
  Array.find is_target (ignored ++ [entry]) = Some entry.
Proof.
  unfold Array.find. induction ignored as [|x l IH]; simpl; intros Hnone Hentry.
  - now rewrite Hentry.
  - destruct (is_target x); [discriminate|]. now apply IH.
Qed.

Lemma filter_and_ignore_spec (active ignored : list A) :
  filter_and_ignore is_target active ignored
  = (Array.filter (fun entry => negb (is_target entry)) active,
     ignored_after is_target active ignored).
Proof.
  unfold ignored_after, Array.filter.
  revert ignored; induction active as [|entry rest IH]; intros ignored; simpl.
  - now destruct (Array.find is_target ignored).
  - change (Array.find is_target (entry :: rest))
      with (if is_target entry then Some entry else Array.find is_target rest).
    destruct (is_target entry) eqn:Hentry; simpl.
    + rewrite IH. destruct (Array.find is_target ignored) eqn:Hign.
      * now rewrite Hign.
      * now rewrite (find_app_new _ _ Hign Hentry).
    + now rewrite IH.
Qed.

Lemma find_filter_out (l : list A) :
  Array.find is_target (Array.filter (fun entry => negb (is_target entry)) l)
  = None.
Proof.
  apply find_None. intros x Hx. apply filter_elem_of in Hx as [_ Hx].
  now apply negb_true_iff.
Qed.

(** Once the matches are gone a second pass changes nothing. *)
Lemma ignored_after_filtered (active ignored : list A) :
  ignored_after is_target (Array.filter (fun entry => negb (is_target entry)) active)
    ignored = ignored.
Proof.
  unfold ignored_after. rewrite find_filter_out.
  now destruct (Array.find is_target ignored).
Qed.

(** No two entries of the new ignore list match, if none of the old did. *)
Lemma ignored_after_single (active ignored : list A) :
  Array.find is_target ignored = None ->
  length (Array.filter is_target (ignored_after is_target active ignored)) <= 1.
Proof.
  intros Hnone. unfold ignored_after. rewrite Hnone.
  assert (Hzero : Array.filter is_target ignored = []).
  { unfold Array.filter. pose proof (proj1 (find_None _ _) Hnone) as Hall.
    clear Hnone. induction ignored as [|x l IH]; simpl; [reflexivity|].
    rewrite (Hall x (list_elem_of_here _ _)). apply IH.
    intros y Hy. apply Hall. now apply list_elem_of_further. }
  destruct (Array.find is_target active) as [entry|].
  - unfold Array.filter in *. rewrite List.filter_app, Hzero. simpl.
    destruct (is_target entry); simpl; lia.
  - rewrite Hzero. simpl. lia.
Qed.
End FilterAndIgnore.

(** [removeAndIgnoreToken] in closed form. *)
Lemma removeAndIgnoreToken_eq (address : string) (c : AssetsController) :
  let target := has_address (toChecksumAddress address) in
  let newTokens :=
    Array.filter (fun token => negb (target token)) (tokens (state c)) in
  removeAndIgnoreToken address c
  = with_state
      (fun s =>
         set_ignoredTokens
           (ignored_after target (tokens (state c)) (ignoredTokens (state c)))
           (set_tokens (write_slice (allTokens (state c)) (config c) newTokens)
              newTokens s)) c.
Proof.
  intros target newTokens. unfold removeAndIgnoreToken.
  fold (has_address (toChecksumAddress address)). fold target.
  now rewrite filter_and_ignore_spec.
Qed.

(** [removeAndIgnoreIndividualCollectible] in closed form. *)
Lemma removeAndIgnoreIndividualCollectible_eq (address : string) (tokenId : Z)
    (c : AssetsController) :
  let target := is_collectible (toChecksumAddress address) tokenId in
  let newCollectibles :=
    Array.filter (fun collectible => negb (target collectible))
      (collectibles (state c)) in
  removeAndIgnoreIndividualCollectible address tokenId c
  = with_state
      (fun s =>
         set_ignoredCollectibles
           (ignored_after target (collectibles (state c))
              (ignoredCollectibles (state c)))
           (set_collectibles
              (write_slice (allCollectibles (state c)) (config c) newCollectibles)
              newCollectibles s)) c.
Proof.
  intros target newCollectibles. unfold removeAndIgnoreIndividualCollectible.
  fold target. now rewrite filter_and_ignore_spec.
Qed.

Lemma negb_filter_twice {A : Type} (p : A -> bool) (l : list A) :
  Array.filter (fun x => negb (p x)) (Array.filter (fun x => negb (p x)) l)
  = Array.filter (fun x => negb (p x)) l.
Proof. apply filter_filter_same. Qed.

Lemma removeAndIgnoreToken_idemp (address : string) (c : AssetsController) :
  removeAndIgnoreToken address (removeAndIgnoreToken address c)
  = removeAndIgnoreToken address c.
Proof.
  rewrite (removeAndIgnoreToken_eq address (removeAndIgnoreToken address c)).
  rewrite (removeAndIgnoreToken_eq address c).
  destruct c as [s cfg h ps em]; destruct s; unfold with_state; simpl.
  rewrite negb_filter_twice, ignored_after_filtered, write_slice_twice.
  reflexivity.
Qed.

Lemma removeAndIgnoreIndividualCollectible_idemp (address : string)
    (tokenId : Z) (c : AssetsController) :
  removeAndIgnoreIndividualCollectible address tokenId
    (removeAndIgnoreIndividualCollectible address tokenId c)
  = removeAndIgnoreIndividualCollectible address tokenId c.
Proof.
  rewrite (removeAndIgnoreIndividualCollectible_eq address tokenId
             (removeAndIgnoreIndividualCollectible address tokenId c)).
  rewrite (removeAndIgnoreIndividualCollectible_eq address tokenId c).
  destruct c as [s cfg h ps em]; destruct s; unfold with_state; simpl.
  rewrite negb_filter_twice, ignored_after_filtered, write_slice_twice.
  reflexivity.
Qed.

Lemma removeCollectibleContract_idemp (address : string) (c : AssetsController) :
  snd (removeCollectibleContract address (snd (removeCollectibleContract address c)))
  = snd (removeCollectibleContract address c).
Proof.
  destruct c as [s cfg h ps em]; destruct s.
  unfold removeCollectibleContract, with_state; simpl.
  rewrite negb_filter_twice, write_slice_twice. reflexivity.
Qed.

(** The two steps of [removeAndIgnoreCollectible] touch different fields. *)
Lemma removeAndIgnoreIndividual_removeContract (address contract : string)
    (tokenId : Z) (c : AssetsController) :
  removeAndIgnoreIndividualCollectible address tokenId
    (snd (removeCollectibleContract contract c))
  = snd (removeCollectibleContract contract
           (removeAndIgnoreIndividualCollectible address tokenId c)).
Proof.
  rewrite !removeAndIgnoreIndividualCollectible_eq.
  destruct c as [s cfg h ps em]; destruct s. reflexivity.
Qed.

Lemma removeCollectibleContract_collectibles (address : string)
    (c : AssetsController) :
  collectibles (state (snd (removeCollectibleContract address c)))
  = collectibles (state c).
Proof. reflexivity. Qed.

Lemma removeAndIgnoreCollectible_idemp (address : string) (tokenId : Z)
    (c : AssetsController) :
  removeAndIgnoreCollectible address tokenId
    (removeAndIgnoreCollectible address tokenId c)
  = removeAndIgnoreCollectible address tokenId c.
Proof.
  unfold removeAndIgnoreCollectible.
  set (a := toChecksumAddress address).
  set (c1 := removeAndIgnoreIndividualCollectible a tokenId c).
  assert (Hsame : removeAndIgnoreIndividualCollectible a tokenId c1 = c1)
    by apply removeAndIgnoreIndividualCollectible_idemp.
  destruct (Array.find _ (collectibles (state c1))) as [remaining|] eqn:Hrem.
  - now rewrite Hsame, Hrem.
  - rewrite removeAndIgnoreIndividual_removeContract, Hsame.
    rewrite removeCollectibleContract_collectibles, Hrem.
    apply removeCollectibleContract_idemp.
Qed.

Lemma removeAndIgnoreCollectible_lists (address : string) (tokenId : Z)
    (c : AssetsController) :
  let target := is_collectible (toChecksumAddress address) tokenId in
  let c1 := removeAndIgnoreCollectible address tokenId c in
  collectibles (state c1)
  = Array.filter (fun collectible => negb (target collectible))
      (collectibles (state c))
  /\ ignoredCollectibles (state c1)
     = ignored_after target (collectibles (state c))
         (ignoredCollectibles (state c)).
Proof.
  intros target c1. subst c1. unfold removeAndIgnoreCollectible.
  rewrite removeAndIgnoreIndividualCollectible_eq.
  rewrite toChecksumAddress_idemp. fold target.
  destruct (Array.find _ _); split; reflexivity.
Qed.

(** C7. Calling [removeAndIgnoreToken] a second time with the same address,
    or [removeAndIgnoreCollectible] a second time with the same address and
    token id, changes nothing: the controller after the second call is the
    controller after the first, so neither the active list nor the ignore
    list moves again.  After the two calls the active list is the original
    one without the entries of the entity, and the ignore list is the
    original one, extended by the first active entry of the entity exactly
    when the entity was active and the ignore list had no entry for it: the
    entity is entered once and never duplicated. *)
Theorem removeAndIgnore_twice_moves_once (c : AssetsController) :
  (forall address,
     let target := has_address (toChecksumAddress address) in
     let c1 := removeAndIgnoreToken address c in
     let c2 := removeAndIgnoreToken address c1 in
     c2 = c1
     /\ tokens (state c2)
        = Array.filter (fun token => negb (target token)) (tokens (state c))
     /\ ignoredTokens (state c2)
        = match Array.find target (ignoredTokens (state c)) with
          | Some _ => ignoredTokens (state c)
          | None =>
              match Array.find target (tokens (state c)) with
              | Some token => ignoredTokens (state c) ++ [token]
              | None => ignoredTokens (state c)
              end
          end)
  /\ (forall address tokenId,
        let target := is_collectible (toChecksumAddress address) tokenId in
        let c1 := removeAndIgnoreCollectible address tokenId c in
        let c2 := removeAndIgnoreCollectible address tokenId c1 in
        c2 = c1
        /\ collectibles (state c2)
           = Array.filter (fun collectible => negb (target collectible))
               (collectibles (state c))
        /\ ignoredCollectibles (state c2)
           = match Array.find target (ignoredCollectibles (state c)) with
             | Some _ => ignoredCollectibles (state c)
             | None =>
                 match Array.find target (collectibles (state c)) with
                 | Some collectible => ignoredCollectibles (state c) ++ [collectible]
                 | None => ignoredCollectibles (state c)
                 end
             end).
Proof.
  split.
  - intros address target c1 c2.
    assert (H21 : c2 = c1) by apply removeAndIgnoreToken_idemp.
    rewrite H21. split; [reflexivity|]. subst c1.
    rewrite removeAndIgnoreToken_eq. split; reflexivity.
  - intros address tokenId target c1 c2.
    assert (H21 : c2 = c1) by apply removeAndIgnoreCollectible_idemp.
    rewrite H21. split; [reflexivity|].
    apply removeAndIgnoreCollectible_lists.
Qed.

(** ** Active lists and ignore lists *)

Lemma active_ignored_disjointb_spec (c : AssetsController) :
  active_ignored_disjointb c = true <-> active_ignored_disjoint c.
Proof.
  unfold active_ignored_disjointb, active_ignored_disjoint,
    tokens_disjoint, collectibles_disjoint.
  rewrite andb_true_iff, !forallb_forall.
  split; intros [Ht Hc]; split.
  - intros t i Hin Hign. rewrite list_elem_of_In in Hin, Hign.
    specialize (Ht t Hin). rewrite forallb_forall in Ht.
    specialize (Ht i Hign). apply negb_true_iff in Ht.
    now apply String.eqb_neq.
  - intros x i Hin Hign [Ha Hid]. rewrite list_elem_of_In in Hin, Hign.
    specialize (Hc x Hin). rewrite forallb_forall in Hc.
    specialize (Hc i Hign). apply negb_true_iff in Hc.
    unfold is_collectible in Hc. rewrite Ha, Hid, String.eqb_refl, Z.eqb_refl in Hc.
    discriminate.
  - intros t Hin. apply forallb_forall. intros i Hign.
    apply negb_true_iff, String.eqb_neq.
    apply Ht; now apply list_elem_of_In.
  - intros x Hin. apply forallb_forall. intros i Hign.
    apply negb_true_iff. unfold is_collectible.
    destruct (String.eqb_spec (Collectible.address i) (Collectible.address x)) as [Ha|];
      [|reflexivity].
    destruct (Z.eqb_spec (Collectible.tokenId i) (Collectible.tokenId x)) as [Hid|];
      [|reflexivity].
    exfalso. apply (Hc x i); [now apply list_elem_of_In..|]. now split.
Qed.

Lemma ignored_after_elem_of {A : Type} (is_target : A -> bool)
    (active ignored : list A) (x : A) :
  x ∈ ignored_after is_target active ignored ->
  x ∈ ignored \/ is_target x = true.
Proof.
  unfold ignored_after. destruct (Array.find is_target ignored); [now left|].
  destruct (Array.find is_target active) as [entry|] eqn:Hentry; [|now left].
  rewrite elem_of_app, list_elem_of_singleton. intros [H| ->]; [now left|].
  right. now apply find_Some_true in Hentry.
Qed.

Lemma put_token_elem_of (tokens : list Token) (newEntry token : Token) :
  token ∈ put_token tokens newEntry -> token = newEntry \/ token ∈ tokens.
Proof.
  rewrite put_token_findIndex.
  destruct (Array.findIndex _ tokens) as [i|].
  - intros H. apply list_elem_of_lookup in H as [j Hj].
    destruct (decide (i = j)) as [->|Hne].
    + destruct (decide (j < length tokens)) as [Hlt|Hge].
      * rewrite list_lookup_insert_eq in Hj by assumption. left. congruence.
      * rewrite list_insert_ge in Hj by lia. right.
        apply list_elem_of_lookup. eauto.
    + rewrite list_lookup_insert_ne in Hj by assumption. right.
      apply list_elem_of_lookup. eauto.
  - rewrite elem_of_app, list_elem_of_singleton. tauto.
Qed.

Lemma put_token_has_new (tokens : list Token) (newEntry : Token) :
  newEntry ∈ put_token tokens newEntry.
Proof.
  rewrite put_token_findIndex.
  destruct (Array.findIndex _ tokens) as [i|] eqn:Hi.
  - apply list_elem_of_insert.
    destruct (findIndex_Some _ _ _ Hi) as (x & Hx & _).
    now apply lookup_lt_Some in Hx.
  - apply elem_of_app. right. now apply list_elem_of_singleton.
Qed.

Lemma removeAndIgnoreToken_disjoint (address : string) (c : AssetsController) :
  active_ignored_disjoint c ->
  active_ignored_disjoint (removeAndIgnoreToken address c).
Proof.
  intros [Ht Hc]. rewrite removeAndIgnoreToken_eq. split; [|exact Hc].
  simpl. intros t i Hin Hign.
  apply filter_elem_of in Hin as [Hin Hnot].
  apply negb_true_iff in Hnot.
  apply ignored_after_elem_of in Hign as [Hign|Htarget].
  - now apply Ht.
  - unfold has_address in *. apply String.eqb_eq in Htarget.
    apply String.eqb_neq in Hnot. congruence.
Qed.

Lemma removeAndIgnoreCollectible_disjoint (address : string) (tokenId : Z)
    (c : AssetsController) :
  active_ignored_disjoint c ->
  active_ignored_disjoint (removeAndIgnoreCollectible address tokenId c).
Proof.
  intros [Ht Hc].
  destruct (removeAndIgnoreCollectible_lists address tokenId c) as [Hactive Hign].
  split.
  - assert (Hsame : tokens (state (removeAndIgnoreCollectible address tokenId c))
                    = tokens (state c)
                    /\ ignoredTokens (state (removeAndIgnoreCollectible address tokenId c))
                       = ignoredTokens (state c)).
    { unfold removeAndIgnoreCollectible.
      rewrite removeAndIgnoreIndividualCollectible_eq.
      destruct (Array.find _ _); split; reflexivity. }
    destruct Hsame as [-> ->]. exact Ht.
  - rewrite Hactive, Hign. intros x i Hin Hi [Ha Hid].
    apply filter_elem_of in Hin as [Hin Hnot].
    apply negb_true_iff in Hnot.
    apply ignored_after_elem_of in Hi as [Hi|Htarget].
    + apply (Hc x i Hin Hi). now split.
    + unfold is_collectible in *. rewrite <- Ha, <- Hid, Htarget in Hnot.
      discriminate.
Qed.

(** C6, as the code has it.  Starting from a controller in which no active
    entry is also ignored: [removeAndIgnoreToken] and
    [removeAndIgnoreCollectible] keep it so, and leave no active entry for
    what they removed.  [addToken] never touches the ignore lists; it keeps
    the active and the ignore lists apart exactly when no ignored token has
    the checksummed address it adds. *)
Theorem removals_keep_lists_apart_and_addToken_keeps_ignore_lists
    (c : AssetsController) :
  active_ignored_disjoint c ->
  (forall address,
     active_ignored_disjoint (removeAndIgnoreToken address c)
     /\ forall token,
          token ∈ tokens (state (removeAndIgnoreToken address c)) ->
          Token.address token <> toChecksumAddress address)
  /\ (forall address tokenId,
        active_ignored_disjoint (removeAndIgnoreCollectible address tokenId c)
        /\ forall collectible,
             collectible
               ∈ collectibles (state (removeAndIgnoreCollectible address tokenId c)) ->
             ~ (Collectible.address collectible = toChecksumAddress address
                /\ Collectible.tokenId collectible = tokenId))
  /\ (forall address symbol decimals image,
        let c' := snd (addToken address symbol decimals image c) in
        ignoredTokens (state c') = ignoredTokens (state c)
        /\ ignoredCollectibles (state c') = ignoredCollectibles (state c)
        /\ (active_ignored_disjoint c' <->
            forall ignoredToken,
              ignoredToken ∈ ignoredTokens (state c) ->
              Token.address ignoredToken <> toChecksumAddress address)).
Proof.
  intros Hdisjoint. split; [|split].
  - intros address. split; [now apply removeAndIgnoreToken_disjoint|].
    rewrite removeAndIgnoreToken_eq. simpl. intros t Hin.
    apply filter_elem_of in Hin as [_ Hnot]. apply negb_true_iff in Hnot.
    now apply String.eqb_neq.
  - intros address tokenId.
    split; [now apply removeAndIgnoreCollectible_disjoint|].
    destruct (removeAndIgnoreCollectible_lists address tokenId c) as [-> _].
    intros x Hin [Ha Hid]. apply filter_elem_of in Hin as [_ Hnot].
    apply negb_true_iff in Hnot. unfold is_collectible in Hnot.
    rewrite Ha, Hid, String.eqb_refl, Z.eqb_refl in Hnot. discriminate.
  - intros address symbol decimals image c'.
    split; [reflexivity|]. split; [reflexivity|].
    destruct Hdisjoint as [Ht Hc]. subst c'. unfold addToken. simpl.
    set (newEntry := {| Token.address := toChecksumAddress address;
                        Token.symbol := symbol; Token.decimals := decimals;
                        Token.image := image |}).
    split.
    + intros [Ht' _] i Hi. simpl in Ht'.
      apply (Ht' newEntry i); [apply put_token_has_new | exact Hi].
    + intros Hfresh. split; [|exact Hc]. simpl. intros t i Hin Hi.
      apply put_token_elem_of in Hin as [->|Hin].
      * now apply Hfresh.
      * now apply Ht.
Qed.

(** C6, counterexample.  A token is added, removed and ignored, and added
    again: before the last step no active token is ignored, after it the
    token is in the active list and in the ignore list at once. *)
Lemma addToken_of_ignored_address_is_active_and_ignored :
  active_ignored_disjoint Sample.ignoredToken
  /\ ~ active_ignored_disjoint Sample.reAddedToken
  /\ (exists token,
        token ∈ tokens (state Sample.reAddedToken)
        /\ token ∈ ignoredTokens (state Sample.reAddedToken)).
Proof.
  split; [|split].
  - apply active_ignored_disjointb_spec. vm_compute. reflexivity.
  - intros H. apply active_ignored_disjointb_spec in H. vm_compute in H.
    discriminate.
  - exists {| Token.address := Sample.checksumAddress; Token.symbol := "DAI";
              Token.decimals := 18; Token.image := None |}.
    split; apply list_elem_of_In; vm_compute; left; reflexivity.
Qed.

(** C6, at the sample: the controller in which the token is ignored and no
    longer active. *)
Lemma removals_keep_lists_apart_witness :
  active_ignored_disjoint Sample.ignoredToken
  /\ active_ignored_disjoint
       (removeAndIgnoreToken Sample.otherAddress Sample.ignoredToken)
  /\ (active_ignored_disjoint
        (snd (addToken Sample.lowerAddress "DAI" 18 None Sample.ignoredToken))
      <-> forall ignoredToken,
            ignoredToken ∈ ignoredTokens (state Sample.ignoredToken) ->
            Token.address ignoredToken <> toChecksumAddress Sample.lowerAddress).
Proof.
  assert (H : active_ignored_disjoint Sample.ignoredToken).
  { apply active_ignored_disjointb_spec. vm_compute. reflexivity. }
  pose proof (removals_keep_lists_apart_and_addToken_keeps_ignore_lists
                Sample.ignoredToken H) as (Hremove & _ & Hadd).
  split; [exact H|]. split.
  - exact (proj1 (Hremove Sample.otherAddress)).
  - exact (proj2 (proj2 (Hadd Sample.lowerAddress "DAI" 18%Z None))).
Defined.

(** ** Collectibles and their contracts *)

Lemma removeIndividualCollectible_collectibles (address : string) (tokenId : Z)
    (c : AssetsController) :
  collectibles (state (removeIndividualCollectible address tokenId c))
  = Array.filter
      (fun x => negb (is_collectible (toChecksumAddress address) tokenId x))
      (collectibles (state c)).
Proof. reflexivity. Qed.

Lemma removeAndIgnoreIndividualCollectible_collectibles (address : string)
    (tokenId : Z) (c : AssetsController) :
  collectibles (state (removeAndIgnoreIndividualCollectible address tokenId c))
  = Array.filter
      (fun x => negb (is_collectible (toChecksumAddress address) tokenId x))
      (collectibles (state c)).
Proof. now rewrite removeAndIgnoreIndividualCollectible_eq. Qed.

(** Whether a collectible of the contract remains after the one with
    [tokenId] is filtered out. *)
Lemma remaining_after_filter (a : string) (tokenId : Z) (l : list Collectible) :
  let rest := Array.filter (fun x => negb (is_collectible a tokenId x)) l in
  ((forall x, x ∈ l -> Collectible.address x = a -> Collectible.tokenId x = tokenId)
   -> Array.find (collectible_at a) rest = None)
  /\ ((exists other, other ∈ l /\ Collectible.address other = a
                     /\ Collectible.tokenId other <> tokenId)
      -> exists other, Array.find (collectible_at a) rest = Some other).
Proof.
  intros rest. split.
  - intros Honly. apply find_None. intros x Hx.
    apply filter_elem_of in Hx as [Hin Hnot]. apply negb_true_iff in Hnot.
    unfold collectible_at, is_collectible in *.
    destruct (String.eqb_spec (Collectible.address x) a) as [Ha|]; [|reflexivity].
    rewrite (Honly x Hin Ha), Z.eqb_refl in Hnot. discriminate.
  - intros (other & Hin & Ha & Hid).
    destruct (Array.find (collectible_at a) rest) as [y|] eqn:Hfind; [eauto|].
    exfalso. pose proof (proj1 (find_None _ _) Hfind other) as Hnone.
    unfold collectible_at in Hnone. rewrite Ha, String.eqb_refl in Hnone.
    assert (Hrest : other ∈ rest); [|specialize (Hnone Hrest); discriminate].
    apply filter_elem_of. split; [assumption|].
    apply negb_true_iff. unfold is_collectible.
    apply andb_false_iff. right. now apply Z.eqb_neq.
Qed.

Lemma removeCollectibleContract_checksummed (address : string)
    (c : AssetsController) :
  let a := toChecksumAddress address in
  let c' := snd (removeCollectibleContract a c) in
  collectibleContracts (state c')
  = Array.filter (fun k => negb (contract_at a k)) (collectibleContracts (state c))
  /\ allCollectibleContracts (state c')
     = write_slice (allCollectibleContracts (state c)) (config c)
         (collectibleContracts (state c')).
Proof.
  intros a c'. subst a c'. unfold removeCollectibleContract. simpl.
  rewrite toChecksumAddress_idemp. split; reflexivity.
Qed.

(** What both removals do to the contract lists, by what remains. *)
Lemma removal_contracts (remove : string -> Z -> AssetsController -> AssetsController)
    (individual : string -> Z -> AssetsController -> AssetsController) :
  (forall address tokenId c,
     remove address tokenId c =
     let address := toChecksumAddress address in
     let c1 := individual address tokenId c in
     match Array.find (collectible_at address) (collectibles (state c1)) with
     | Some _ => c1
     | None => snd (removeCollectibleContract address c1)
     end) ->
  (forall address tokenId c,
     collectibles (state (individual address tokenId c))
     = Array.filter
         (fun x => negb (is_collectible (toChecksumAddress address) tokenId x))
         (collectibles (state c))
     /\ collectibleContracts (state (individual address tokenId c))
        = collectibleContracts (state c)
     /\ allCollectibleContracts (state (individual address tokenId c))
        = allCollectibleContracts (state c)
     /\ config (individual address tokenId c) = config c) ->
  forall address tokenId c,
    let a := toChecksumAddress address in
    let c' := remove address tokenId c in
    ((forall x, x ∈ collectibles (state c) ->
                Collectible.address x = a -> Collectible.tokenId x = tokenId) ->
     collectibleContracts (state c')
     = Array.filter (fun k => negb (contract_at a k)) (collectibleContracts (state c))
     /\ allCollectibleContracts (state c')
        = write_slice (allCollectibleContracts (state c)) (config c)
            (collectibleContracts (state c')))
    /\ ((exists other, other ∈ collectibles (state c)
                       /\ Collectible.address other = a
                       /\ Collectible.tokenId other <> tokenId) ->
        collectibleContracts (state c') = collectibleContracts (state c)
        /\ allCollectibleContracts (state c')
           = allCollectibleContracts (state c)).
Proof.
  intros Hremove Hindividual address tokenId c a c'.
  subst c'. rewrite Hremove. cbv zeta. fold a.
  destruct (Hindividual a tokenId c) as (Hcol & Hcon & Hall & Hcfg).
  unfold a in Hcol at 2. rewrite toChecksumAddress_idemp in Hcol. fold a in Hcol.
  rewrite Hcol.
  destruct (remaining_after_filter a tokenId (collectibles (state c)))
    as [Hlast Hother].
  split.
  - intros Honly. rewrite (Hlast Honly).
    destruct (removeCollectibleContract_checksummed address (individual a tokenId c))
      as [H1 H2].
    fold a in H1, H2. rewrite H2, H1, Hcon, Hall, Hcfg. split; reflexivity.
  - intros Hex. destruct (Hother Hex) as [other ->]. now split.
Qed.

(** C3. When exactly one active collectible has the (checksummed) contract
    address, [removeCollectible] and [removeAndIgnoreCollectible] on its
    address and token id leave no entry of that address in the active
    collectible-contracts list (the list is filtered, and the filtered list
    is written to the keyed slice).  When another active collectible, one
    with another token id, has the contract address, the contract lists are
    left as they were. *)
Theorem removing_last_collectible_removes_contract
    (address : string) (tokenId : Z) (c : AssetsController) :
  let a := toChecksumAddress address in
  let after_remove := removeCollectible address tokenId c in
  let after_ignore := removeAndIgnoreCollectible address tokenId c in
  let without_contract :=
    Array.filter (fun k => negb (contract_at a k))
      (collectibleContracts (state c)) in
  (only_collectible_of (collectibles (state c)) a tokenId ->
     collectibleContracts (state after_remove) = without_contract
     /\ collectibleContracts (state after_ignore) = without_contract
     /\ allCollectibleContracts (state after_remove)
        = write_slice (allCollectibleContracts (state c)) (config c)
            without_contract
     /\ allCollectibleContracts (state after_ignore)
        = write_slice (allCollectibleContracts (state c)) (config c)
            without_contract
     /\ forall k, k ∈ without_contract -> CollectibleContract.address k <> a)
  /\ ((exists other,
          other ∈ collectibles (state c)
          /\ Collectible.address other = a
          /\ Collectible.tokenId other <> tokenId) ->
      collectibleContracts (state after_remove) = collectibleContracts (state c)
      /\ collectibleContracts (state after_ignore)
         = collectibleContracts (state c)
      /\ allCollectibleContracts (state after_remove)
         = allCollectibleContracts (state c)
      /\ allCollectibleContracts (state after_ignore)
         = allCollectibleContracts (state c)).
Proof.
  intros a after_remove after_ignore without_contract.
  assert (Hremove :
    forall c0, let c' := removeCollectible address tokenId c0 in _ /\ _)
    by (intros c0; apply (removal_contracts removeCollectible
          removeIndividualCollectible);
        [reflexivity | intros; repeat split; reflexivity]).
  assert (Hignore :
    forall c0, let c' := removeAndIgnoreCollectible address tokenId c0 in _ /\ _)
    by (intros c0; apply (removal_contracts removeAndIgnoreCollectible
          removeAndIgnoreIndividualCollectible);
        [reflexivity
        | intros a0 t0 c1; rewrite removeAndIgnoreIndividualCollectible_eq;
          repeat split; reflexivity]).
  destruct (Hremove c) as [Hr1 Hr2]. destruct (Hignore c) as [Hi1 Hi2].
  fold a after_remove in Hr1, Hr2. fold a after_ignore in Hi1, Hi2.
  split.
  - intros (i & x & Hx & Ha & Hid & Huniq).
    assert (Honly : forall y, y ∈ collectibles (state c) ->
              Collectible.address y = a -> Collectible.tokenId y = tokenId).
    { intros y Hy Hya. apply list_elem_of_lookup in Hy as [j Hj].
      rewrite (Huniq j y Hj Hya) in Hj. congruence. }
    destruct (Hr1 Honly) as [Hr Hrall]. destruct (Hi1 Honly) as [Hi Hiall].
    fold without_contract in Hr, Hi. rewrite Hr in Hrall. rewrite Hi in Hiall.
    repeat split; try assumption.
    intros k Hk. apply filter_elem_of in Hk as [_ Hk].
    apply negb_true_iff in Hk. now apply String.eqb_neq.
  - intros Hother. destruct (Hr2 Hother). destruct (Hi2 Hother).
    repeat split; assumption.
Qed.

(** ** The suggestion workflow *)

Lemma unknown_id_not_found (id : string) (l : list SuggestedAssetMeta) :
  (forall m, m ∈ l -> SuggestedAssetMeta.id m <> id) ->
  Array.findIndex (has_id id) l = None.
Proof.
  intros H. apply findIndex_None. intros m Hm. unfold has_id.
  apply String.eqb_neq. intros ->. now apply (H m).
Qed.

(** C10. For an identifier that no record of [suggestedAssets] has,
    [acceptWatchAsset] throws: the [catch] block is entered on reading
    [type] off the missing record and [failSuggestedAsset] throws again on
    reading its [id], so the returned promise rejects with a [TypeError] and
    the controller, with its [suggestedAssets], is as before.
    [rejectWatchAsset] returns with the controller as before. *)
Theorem accept_unknown_id_throws_reject_unknown_id_returns
    (id : string) (c : AssetsController) :
  (forall m, m ∈ suggestedAssets (state c) -> SuggestedAssetMeta.id m <> id) ->
  acceptWatchAsset id c = (Throw (TypeError "id"), c)
  /\ rejectWatchAsset id c = c.
Proof.
  intros Hunknown. apply unknown_id_not_found in Hunknown.
  unfold acceptWatchAsset, rejectWatchAsset. fold (has_id id).
  rewrite Hunknown. split; reflexivity.
Qed.

Lemma settle_keeps_settled (o : Settlement) (ps : list Settlement) (q p : nat) :
  ps !! p = Some o -> settle o ps q !! p = Some o.
Proof.
  intros Hp. unfold settle. destruct (ps !! q) as [[| |]|] eqn:Hq; try assumption.
  destruct (decide (q = p)) as [->|Hne].
  - apply list_lookup_insert_eq. now apply lookup_lt_Some in Hp.
  - now rewrite list_lookup_insert_ne.
Qed.

Lemma settle_hits (o : Settlement) (ps : list Settlement) (p : nat) :
  ps !! p = Some Unsettled -> settle o ps p !! p = Some o.
Proof.
  intros Hp. unfold settle. rewrite Hp.
  apply list_lookup_insert_eq. now apply lookup_lt_Some in Hp.
Qed.

Lemma settle_misses (o : Settlement) (ps : list Settlement) (q p : nat) :
  q <> p -> settle o ps q !! p = ps !! p.
Proof.
  intros Hne. unfold settle. destruct (ps !! q) as [[| |]|]; try reflexivity.
  now rewrite list_lookup_insert_ne.
Qed.

Lemma fold_settle_keeps_settled (o : Settlement) (ls : list nat)
    (ps : list Settlement) (p : nat) :
  ps !! p = Some o -> fold_left (settle o) ls ps !! p = Some o.
Proof.
  revert ps; induction ls as [|q ls IH]; intros ps Hp; simpl; [assumption|].
  apply IH. now apply settle_keeps_settled.
Qed.

(** A listener that fires settles its promise, if it was not settled. *)
Lemma fold_settle_hits (o : Settlement) (ls : list nat) (ps : list Settlement)
    (p : nat) :
  p ∈ ls -> ps !! p = Some Unsettled ->
  fold_left (settle o) ls ps !! p = Some o.
Proof.
  revert ps; induction ls as [|q ls IH]; intros ps Hin Hp; simpl.
  - inversion Hin.
  - destruct (decide (q = p)) as [->|Hne].
    + apply fold_settle_keeps_settled. now apply settle_hits.
    + apply IH.
      * apply elem_of_cons in Hin as [->|Hin]; [congruence | assumption].
      * now rewrite settle_misses.
Qed.

(** The promise of a listener of the event is settled by [emit]. *)
Lemma emit_finished_settles (id : string) (meta : SuggestedAssetMeta)
    (c : AssetsController) (p : nat) :
  (id, p) ∈ hub c -> promises c !! p = Some Unsettled ->
  promises (emit (finished id) meta c) !! p = Some (settlement_of meta).
Proof.
  intros Hin Hp. unfold emit. simpl. apply fold_settle_hits; [|assumption].
  apply list_elem_of_In, in_map_iff. exists (id, p). split; [reflexivity|].
  apply List.filter_In. split; [now apply list_elem_of_In|].
  simpl. apply String.eqb_refl.
Qed.

Lemma filter_out_new_id (id : string) (l : list SuggestedAssetMeta)
    (meta : SuggestedAssetMeta) :
  (forall m, m ∈ l -> SuggestedAssetMeta.id m <> id) ->
  SuggestedAssetMeta.id meta = id ->
  Array.filter (fun m => negb (String.eqb (SuggestedAssetMeta.id m) id))
    (l ++ [meta]) = l.
Proof.
  intros Hfresh Hid. unfold Array.filter. rewrite List.filter_app. simpl.
  rewrite Hid, String.eqb_refl. simpl. rewrite app_nil_r.
  apply filter_id. intros m Hm. apply negb_true_iff, String.eqb_neq. auto.
Qed.

Lemma findIndex_new_id (id : string) (l : list SuggestedAssetMeta)
    (meta : SuggestedAssetMeta) :
  (forall m, m ∈ l -> SuggestedAssetMeta.id m <> id) ->
  SuggestedAssetMeta.id meta = id ->
  Array.at_index (l ++ [meta]) (Array.findIndex (has_id id) (l ++ [meta]))
  = Some meta.
Proof.
  intros Hfresh Hid. rewrite <- find_findIndex. unfold Array.find.
  induction l as [|m l IH]; simpl.
  - unfold has_id. now rewrite Hid, String.eqb_refl.
  - assert (Hm : has_id id m = false).
    { unfold has_id. apply String.eqb_neq. intros Heq.
      apply (Hfresh m (list_elem_of_here _ _)). now symmetry. }
    rewrite Hm. apply IH. intros m' Hm'. apply Hfresh.
    now apply list_elem_of_further.
Qed.

(** [watchAsset] on a payload that passes the validation. *)
Lemma watchAsset_valid (asset : Token) (id : string) (now : Z)
    (c : AssetsController) :
  validateTokenToWatch asset = Ok tt ->
  let meta :=
    {| SuggestedAssetMeta.asset := asset; SuggestedAssetMeta.id := id;
       SuggestedAssetMeta.status := pending; SuggestedAssetMeta.time := now;
       SuggestedAssetMeta.type := "ERC20" |} in
  let result := length (promises c) in
  watchAsset asset "ERC20" id now c
  = (Ok (result, meta),
     {| state := set_suggestedAssets (suggestedAssets (state c) ++ [meta]) (state c);
        config := config c;
        hub := hub c ++ [(id, result)];
        promises := promises c ++ [Unsettled];
        emitted := emitted c ++ [(pendingSuggestedAsset, meta)] |}).
Proof.
  intros Hvalid meta result. unfold watchAsset.
  change (String.eqb "ERC20" "ERC20") with true. cbv iota. rewrite Hvalid.
  unfold emit, with_state. simpl.
  assert (Hnone : forall l : list (string * nat),
            List.filter (fun _ => false) l = []).
  { induction l; simpl; auto. }
  assert (Hall : forall l : list (string * nat),
            List.filter (fun _ => true) l = l).
  { induction l as [|a l IH]; simpl; [reflexivity | now rewrite IH]. }
  rewrite Hnone, Hall. reflexivity.
Qed.

(** C1, as the code has it.  Let the payload pass the ERC20 validation and
    let [id], the identifier drawn for the suggestion, be new among the
    pending suggestions.  [watchAsset] stores a pending record and returns
    an unsettled promise.  If [acceptWatchAsset(id)] follows, the promise
    resolves with the address as the caller wrote it in the payload, the
    active token list holds the token under its checksummed address, and
    the record is gone from [suggestedAssets].  If [rejectWatchAsset(id)]
    follows instead, the promise rejects with the fixed message, the active
    token list is as it was before the request, and the record is gone from
    [suggestedAssets]. *)
Theorem watch_then_accept_or_reject
    (asset : Token) (id : string) (now : Z) (c : AssetsController) :
  validateTokenToWatch asset = Ok tt ->
  (forall m, m ∈ suggestedAssets (state c) -> SuggestedAssetMeta.id m <> id) ->
  exists result meta c1,
    watchAsset asset "ERC20" id now c = (Ok (result, meta), c1)
    /\ promises c1 !! result = Some Unsettled
    /\ suggestedAssets (state c1) = suggestedAssets (state c) ++ [meta]
    /\ SuggestedAssetMeta.id meta = id
    /\ SuggestedAssetMeta.status meta = pending
    /\ (exists c2,
          acceptWatchAsset id c1 = (Ok tt, c2)
          /\ promises c2 !! result = Some (Resolved (Token.address asset))
          /\ {| Token.address := toChecksumAddress (Token.address asset);
                Token.symbol := Token.symbol asset;
                Token.decimals := Token.decimals asset;
                Token.image := Token.image asset |} ∈ tokens (state c2)
          /\ suggestedAssets (state c2) = suggestedAssets (state c))
    /\ (let c2 := rejectWatchAsset id c1 in
        promises c2 !! result
        = Some (Rejected (Error "User rejected to watch the asset."))
        /\ tokens (state c2) = tokens (state c)
        /\ suggestedAssets (state c2) = suggestedAssets (state c)).
Proof.
  intros Hvalid Hfresh.
  pose proof (watchAsset_valid asset id now c Hvalid) as Hwatch.
  cbv zeta in Hwatch.
  set (meta := {| SuggestedAssetMeta.asset := asset; SuggestedAssetMeta.id := id;
                  SuggestedAssetMeta.status := pending;
                  SuggestedAssetMeta.time := now;
                  SuggestedAssetMeta.type := "ERC20" |}) in *.
  set (result := length (promises c)) in *.
  set (c1 := {| state := _; config := config c; hub := _; promises := _;
                emitted := _ |}) in Hwatch.
  exists result, meta, c1.
  assert (Hpending : promises c1 !! result = Some Unsettled).
  { unfold c1, result. simpl. rewrite lookup_app_r by lia.
    now rewrite Nat.sub_diag. }
  assert (Hlistens : (id, result) ∈ hub c1).
  { unfold c1. simpl. apply elem_of_app. right. now apply list_elem_of_singleton. }
  assert (Hfound :
    Array.at_index (suggestedAssets (state c1))
      (Array.findIndex (has_id id) (suggestedAssets (state c1))) = Some meta)
    by (apply findIndex_new_id; [assumption | reflexivity]).
  assert (Hfiltered :
    Array.filter (fun m => negb (String.eqb (SuggestedAssetMeta.id m) id))
      (suggestedAssets (state c1)) = suggestedAssets (state c))
    by (apply filter_out_new_id; [assumption | reflexivity]).
  split; [exact Hwatch|]. split; [exact Hpending|].
  split; [reflexivity|]. split; [reflexivity|]. split; [reflexivity|]. split.
  - unfold acceptWatchAsset. fold (has_id id). rewrite Hfound, Hfiltered.
    change (String.eqb (SuggestedAssetMeta.type meta) "ERC20") with true.
    cbv iota.
    destruct (addToken (Token.address (SuggestedAssetMeta.asset meta))
                (Token.symbol (SuggestedAssetMeta.asset meta))
                (Token.decimals (SuggestedAssetMeta.asset meta))
                (Token.image (SuggestedAssetMeta.asset meta)) c1)
      as [newTokens c1'] eqn:Hadd.
    eexists. split; [reflexivity|].
    unfold addToken in Hadd. injection Hadd as <- <-.
    split; [|split].
    + exact (emit_finished_settles id
               (SuggestedAssetMeta.with_status accepted meta) _ result
               Hlistens Hpending).
    + simpl. apply put_token_has_new.
    + reflexivity.
  - cbv zeta. unfold rejectWatchAsset. fold (has_id id). rewrite Hfound, Hfiltered.
    split; [|split].
    + exact (emit_finished_settles id
               (SuggestedAssetMeta.with_status rejected meta) _ result
               Hlistens Hpending).
    + reflexivity.
    + reflexivity.
Qed.

(** C1, counterexample.  The payload names the token by its address in
    lower case, which is valid.  After [acceptWatchAsset] the promise of
    [watchAsset] is resolved with the address in lower case, which is not
    the checksummed address under which the token is listed.  And on a
    controller that tracks the token already, [rejectWatchAsset] rejects the
    promise and the token is still in the active list. *)
Lemma accepted_promise_resolves_with_address_as_written :
  validateTokenToWatch SampleWatch.asset = Ok tt
  /\ promises (snd (acceptWatchAsset "id-1" SampleWatch.watching)) !! 0%nat
     = Some (Resolved Sample.lowerAddress)
  /\ toChecksumAddress (Token.address SampleWatch.asset) = Sample.checksumAddress
  /\ promises (snd (acceptWatchAsset "id-1" SampleWatch.watching)) !! 0%nat
     <> Some (Resolved (toChecksumAddress (Token.address SampleWatch.asset)))
  /\ promises (rejectWatchAsset "id-1" SampleWatch.watchingTracked) !! 0%nat
     = Some (Rejected (Error "User rejected to watch the asset."))
  /\ {| Token.address := Sample.checksumAddress; Token.symbol := "DAI";
        Token.decimals := 18; Token.image := None |}
       ∈ tokens (state (rejectWatchAsset "id-1" SampleWatch.watchingTracked)).
Proof.
  split; [vm_compute; reflexivity|].
  split; [vm_compute; reflexivity|].
  split; [vm_compute; reflexivity|].
  split; [vm_compute; intros H; discriminate H|].
  split; [vm_compute; reflexivity|].
  apply list_elem_of_In. vm_compute. left. reflexivity.
Qed.

(** C1, at the sample: the lower-case payload on the controller that tracks
    one token. *)
Lemma watch_then_accept_or_reject_witness :
  exists result meta c1,
    watchAsset SampleWatch.asset "ERC20" "id-1" 1 Sample.oneToken
    = (Ok (result, meta), c1)
    /\ promises c1 !! result = Some Unsettled
    /\ suggestedAssets (state c1)
       = suggestedAssets (state Sample.oneToken) ++ [meta]
    /\ SuggestedAssetMeta.id meta = "id-1"
    /\ SuggestedAssetMeta.status meta = pending
    /\ (exists c2,
          acceptWatchAsset "id-1" c1 = (Ok tt, c2)
          /\ promises c2 !! result
             = Some (Resolved (Token.address SampleWatch.asset))
          /\ {| Token.address :=
                  toChecksumAddress (Token.address SampleWatch.asset);
                Token.symbol := Token.symbol SampleWatch.asset;
                Token.decimals := Token.decimals SampleWatch.asset;
                Token.image := Token.image SampleWatch.asset |}
               ∈ tokens (state c2)
          /\ suggestedAssets (state c2) = suggestedAssets (state Sample.oneToken))
    /\ (let c2 := rejectWatchAsset "id-1" c1 in
        promises c2 !! result
        = Some (Rejected (Error "User rejected to watch the asset."))
        /\ tokens (state c2) = tokens (state Sample.oneToken)
        /\ suggestedAssets (state c2) = suggestedAssets (state Sample.oneToken)).
Proof.
  apply (watch_then_accept_or_reject SampleWatch.asset "id-1" 1 Sample.oneToken).
  - vm_compute. reflexivity.
  - intros m Hm. vm_compute in Hm. inversion Hm.
Defined.

(** An event nobody waits for changes nothing but the record of emissions. *)
Lemma emit_without_listener (id : string) (meta : SuggestedAssetMeta)
    (c : AssetsController) :
  (forall listener, listener ∈ hub c -> fst listener <> id) ->
  emit (finished id) meta c
  = {| state := state c; config := config c; hub := hub c;
       promises := promises c;
       emitted := emitted (emit (finished id) meta c) |}.
Proof.
  intros Hnone. unfold emit. cbn [emitted].
  assert (Hlistening :
    List.filter (fun l : string * nat => String.eqb (fst l) id) (hub c) = []).
  { induction (hub c) as [|l rest IH]; [reflexivity|]. cbn [List.filter].
    rewrite (proj2 (String.eqb_neq _ _) (Hnone l (list_elem_of_here _ _))).
    apply IH. intros l' Hl'. apply Hnone. now apply list_elem_of_further. }
  assert (Hothers :
    List.filter (fun l : string * nat => negb (String.eqb (fst l) id)) (hub c)
    = hub c).
  { apply (filter_id (fun l : string * nat => negb (String.eqb (fst l) id))).
    intros l Hl. apply negb_true_iff, String.eqb_neq. now apply Hnone. }
  now rewrite Hlistening, Hothers.
Qed.

(** The text of a number, and what [parseInt] reads in it. *)
Example Number_toString_examples :
  map Js.Number_toString
    [ 0; 37; -5; 2 ^ 53; 2 ^ 64; 10 ^ 21 - 2 ^ 17; 10 ^ 21; 2 ^ 70;
      99999999999999991611392; - 10 ^ 21 ]%Z
  = [ "0"; "37"; "-5"; "9007199254740992"; "18446744073709552000";
      "999999999999999900000"; "1e+21"; "1.1805916207174113e+21"; "1e+23";
      "-1e+21" ]
  /\ map (fun decimals => Js.parseInt (Js.Number_toString decimals))
       [ 37; 2 ^ 64; 10 ^ 21; 2 ^ 70; - 10 ^ 21 ]%Z
     = [ Some 37; Some 18446744073709552000; Some 1; Some 1; Some (-1) ]%Z.
Proof. split; vm_compute; reflexivity. Qed.

(** A number of decimals in the range is read back as it is. *)
Lemma parseInt_of_decimals_in_range (decimals : Z) :
  (0 <= decimals <= 36)%Z ->
  Js.parseInt (Js.Number_toString decimals) = Some decimals.
Proof.
  intros Hrange.
  assert (Hn : exists n, (n <= 36)%nat /\ decimals = Z.of_nat n)
    by (exists (Z.to_nat decimals); lia).
  destruct Hn as (n & Hn & ->).
  do 37 (destruct n as [|n]; [vm_compute; reflexivity|]). lia.
Qed.

(** The validation reads the text of [decimals]: a number from [10^21] on
    is written in exponent notation and passes with its leading digit, a
    negative one fails with its sign. *)
Example validateTokenToWatch_reads_the_text_of_decimals :
  let payload decimals :=
    {| Token.address := Sample.lowerAddress; Token.symbol := "DAI";
       Token.decimals := decimals; Token.image := None |} in
  validateTokenToWatch (payload 36%Z) = Ok tt
  /\ validateTokenToWatch (payload (10 ^ 21)%Z) = Ok tt
  /\ validateTokenToWatch (payload (10 ^ 21 - 2 ^ 17)%Z)
     = Throw (InvalidParams
                ("Invalid decimals " +:+ dquote +:+ "999999999999999900000"
                   +:+ dquote +:+ ": must be 0 <= 36."))
  /\ validateTokenToWatch (payload (- 10 ^ 21)%Z)
     = Throw (InvalidParams
                ("Invalid decimals " +:+ dquote +:+ "-1e+21" +:+ dquote
                   +:+ ": must be 0 <= 36."))
  /\ (exists meta,
        suggestedAssets
          (state (snd (watchAsset (payload (10 ^ 21)%Z) "ERC20" "id-1" 1
                         newAssetsController)))
        = [meta]
        /\ SuggestedAssetMeta.status meta = pending).
Proof.
  cbv zeta. split; [vm_compute; reflexivity|].
  split; [vm_compute; reflexivity|]. split; [vm_compute; reflexivity|].
  split; [vm_compute; reflexivity|].
  eexists. split; vm_compute; reflexivity.
Qed.

(** C8, as the code has it.  When the payload fails the ERC20 validation
    with an error, [watchAsset] rejects with that error.  The suggestion is
    not stored: the state, with its [suggestedAssets], is as before.  A copy
    of the suggestion with status [failed] and the error is only emitted on
    the [finished] event of its identifier, which changes nothing else
    when no listener waits for that identifier.  A payload with 37
    decimals always fails the validation. *)
Theorem watchAsset_invalid_rejects_and_stores_nothing
    (asset : Token) (id : string) (now : Z) (c : AssetsController) :
  (forall error,
     validateTokenToWatch asset = Throw error ->
     let outcome := watchAsset asset "ERC20" id now c in
     fst outcome = Throw error
     /\ state (snd outcome) = state c
     /\ suggestedAssets (state (snd outcome)) = suggestedAssets (state c)
     /\ emitted (snd outcome)
        = emitted c
          ++ [(finished id,
               {| SuggestedAssetMeta.asset := asset;
                  SuggestedAssetMeta.id := id;
                  SuggestedAssetMeta.status := failed error;
                  SuggestedAssetMeta.time := now;
                  SuggestedAssetMeta.type := "ERC20" |})]
     /\ ((forall listener, listener ∈ hub c -> fst listener <> id) ->
         snd outcome
         = {| state := state c; config := config c; hub := hub c;
              promises := promises c; emitted := emitted (snd outcome) |}))
  /\ (Token.decimals asset = 37%Z ->
      exists msg, validateTokenToWatch asset = Throw (InvalidParams msg)).
Proof.
  split.
  - intros error Hinvalid outcome. subst outcome. unfold watchAsset.
    change (String.eqb "ERC20" "ERC20") with true. cbv iota. rewrite Hinvalid.
    simpl. split; [reflexivity|]. split; [reflexivity|].
    split; [reflexivity|]. split; [reflexivity|].
    intros Hnone. apply emit_without_listener. exact Hnone.
  - intros Hdecimals. unfold validateTokenToWatch. rewrite Hdecimals.
    destruct (negb (Js.truthy (Token.address asset))
              || negb (Js.truthy (Token.symbol asset))); [eauto|].
    destruct (11 <? String.length (Token.symbol asset))%nat; [eauto|].
    simpl. eauto.
Qed.

(** C8, counterexample.  A request with 37 decimals on a new controller is
    rejected with the validation error, and afterwards no suggestion is
    stored, with status [failed] or any other: [suggestedAssets] is empty and
    the state is the initial one. *)
Lemma watchAsset_decimals_37_stores_no_failed_suggestion :
  fst (watchAsset SampleWatch.badAsset "ERC20" "id-1" 1 newAssetsController)
  = Throw (InvalidParams
             ("Invalid decimals " +:+ dquote +:+ "37" +:+ dquote
                +:+ ": must be 0 <= 36."))
  /\ state (snd (watchAsset SampleWatch.badAsset "ERC20" "id-1" 1
                   newAssetsController)) = defaultState
  /\ ~ (exists m error,
          m ∈ suggestedAssets
                (state (snd (watchAsset SampleWatch.badAsset "ERC20" "id-1" 1
                               newAssetsController)))
          /\ SuggestedAssetMeta.status m = failed error).
Proof.
  split; [vm_compute; reflexivity|].
  split; [vm_compute; reflexivity|].
  intros (m & error & Hm & _). vm_compute in Hm. inversion Hm.
Qed.

(** C10, at the sample: one suggestion is pending and the identifier is
    another one. *)
Lemma accept_unknown_id_witness :
  acceptWatchAsset "id-2" SampleWatch.watching
  = (Throw (TypeError "id"), SampleWatch.watching)
  /\ rejectWatchAsset "id-2" SampleWatch.watching = SampleWatch.watching.
Proof.
  apply (accept_unknown_id_throws_reject_unknown_id_returns "id-2"
           SampleWatch.watching).
  intros m Hm. vm_compute in Hm.
  apply list_elem_of_singleton in Hm. rewrite Hm. simpl. discriminate.
Defined.

(** ** The currency rate poller *)

(** C9. Take a tick of the currency-rate poller in which the fetch of the
    exchange rate throws.  [updateExchangeRate] throws after releasing the
    lock and leaves the controller, hence every field of its state, as it
    was; [safelyExecute] swallows the error, so the callback of the timer
    resolves with [undefined]; the timer stays set, so the ticks that follow
    run exactly as they would have without the failed one.  The next tick
    retries: its callback calls the fetch again for the same pair, and when
    that fetch returns rates it resolves with a value, stores the date and
    the rates returned and commits the pending currencies, so with the
    timer set the failed tick followed by that one leaves the controller
    the retry leaves.  [startPolling] with a failing first fetch also
    resolves, leaves the state as it was, and sets the timer, whose first
    tick retries in the same way. *)
Theorem failed_fetch_tick_leaves_state_and_schedule
    (fetchExchangeRate : CurrencyRate.Fetch) (c : CurrencyRate.t)
    (error : JsError) :
  let s := CurrencyRate.state c in
  fetchExchangeRate
    (Js.or_else (CurrencyRate.pendingCurrentCurrency s)
       (CurrencyRate.currentCurrency s))
    (Js.or_else (CurrencyRate.pendingNativeCurrency s)
       (CurrencyRate.nativeCurrency s))
    (CurrencyRate.includeUsdRate c) = Throw error ->
  let currency :=
    Js.or_else (CurrencyRate.pendingCurrentCurrency s)
      (CurrencyRate.currentCurrency s) in
  let native :=
    Js.or_else (CurrencyRate.pendingNativeCurrency s)
      (CurrencyRate.nativeCurrency s) in
  let stored rates :=
    {| CurrencyRate.conversionDate := CurrencyRate.rates_conversionDate rates;
       CurrencyRate.conversionRate := CurrencyRate.rates_conversionRate rates;
       CurrencyRate.currentCurrency := currency;
       CurrencyRate.nativeCurrency := native;
       CurrencyRate.pendingCurrentCurrency := None;
       CurrencyRate.pendingNativeCurrency := None;
       CurrencyRate.usdConversionRate :=
         Some (CurrencyRate.rates_usdConversionRate rates) |} in
  CurrencyRate.updateExchangeRate fetchExchangeRate c = (Throw error, c)
  /\ CurrencyRate.intervalCallback fetchExchangeRate c = (None, c)
  /\ (forall rest,
        CurrencyRate.ticks (fetchExchangeRate :: rest) c
        = CurrencyRate.ticks rest c)
  /\ (let started := CurrencyRate.startPolling fetchExchangeRate c in
      fst started = Ok tt
      /\ CurrencyRate.state (snd started) = CurrencyRate.state c
      /\ exists handle,
           CurrencyRate.intervalId (snd started) = Some handle
           /\ handle ∈ CurrencyRate.timers (snd started))
  /\ (forall next rates,
        next currency native (CurrencyRate.includeUsdRate c) = Ok rates ->
        let retried := CurrencyRate.intervalCallback next c in
        fst retried = Some tt
        /\ CurrencyRate.state (snd retried) = stored rates
        /\ CurrencyRate.intervalId (snd retried) = CurrencyRate.intervalId c
        /\ CurrencyRate.timers (snd retried) = CurrencyRate.timers c
        /\ (forall handle rest,
              CurrencyRate.intervalId c = Some handle ->
              handle ∈ CurrencyRate.timers c ->
              CurrencyRate.ticks (fetchExchangeRate :: next :: rest) c
              = CurrencyRate.ticks rest (snd retried))
        /\ (forall rest,
              let started := snd (CurrencyRate.startPolling fetchExchangeRate c) in
              let first := CurrencyRate.intervalCallback next started in
              fst first = Some tt
              /\ CurrencyRate.state (snd first) = stored rates
              /\ CurrencyRate.ticks (next :: rest) started
                 = CurrencyRate.ticks rest (snd first))).
Proof.
  intros s Hfail currency native stored.
  assert (Hupdate :
    CurrencyRate.updateExchangeRate fetchExchangeRate c = (Throw error, c)).
  { unfold CurrencyRate.updateExchangeRate. fold s. now rewrite Hfail. }
  assert (Hcallback :
    CurrencyRate.intervalCallback fetchExchangeRate c = (None, c)).
  { unfold CurrencyRate.intervalCallback. now rewrite Hupdate. }
  split; [exact Hupdate|]. split; [exact Hcallback|]. split; [|split].
  - intros rest. simpl. rewrite Hcallback. simpl.
    destruct (CurrencyRate.intervalId c) as [handle|] eqn:Hid.
    + destruct (existsb (Nat.eqb handle) (CurrencyRate.timers c)) eqn:Hset;
        [reflexivity|].
      destruct rest; simpl; [reflexivity|]. now rewrite Hid, Hset.
    + destruct rest; simpl; [reflexivity|]. now rewrite Hid.
  - cbv zeta. unfold CurrencyRate.startPolling.
    assert (Hstopped :
      CurrencyRate.intervalCallback fetchExchangeRate (CurrencyRate.stopPolling c)
      = (None, CurrencyRate.stopPolling c)).
    { unfold CurrencyRate.intervalCallback, CurrencyRate.updateExchangeRate.
      assert (Hstate : CurrencyRate.state (CurrencyRate.stopPolling c) = s)
        by (unfold CurrencyRate.stopPolling;
            now destruct (CurrencyRate.intervalId c)).
      assert (Husd : CurrencyRate.includeUsdRate (CurrencyRate.stopPolling c)
                     = CurrencyRate.includeUsdRate c)
        by (unfold CurrencyRate.stopPolling;
            now destruct (CurrencyRate.intervalId c)).
      now rewrite Hstate, Husd, Hfail. }
    rewrite Hstopped. simpl. split; [reflexivity|]. split.
    + unfold CurrencyRate.stopPolling.
      now destruct (CurrencyRate.intervalId c).
    + eexists. split; [reflexivity|].
      apply elem_of_app. right. now apply list_elem_of_singleton.
  - intros next rates Hnext retried. subst retried.
    assert (Hretry :
      CurrencyRate.intervalCallback next c
      = (Some tt,
         {| CurrencyRate.state := stored rates;
            CurrencyRate.includeUsdRate := CurrencyRate.includeUsdRate c;
            CurrencyRate.intervalDelay := CurrencyRate.intervalDelay c;
            CurrencyRate.intervalId := CurrencyRate.intervalId c;
            CurrencyRate.timers := CurrencyRate.timers c |})).
    { unfold CurrencyRate.intervalCallback, CurrencyRate.updateExchangeRate.
      fold s. fold currency native. now rewrite Hnext. }
    rewrite Hretry. cbn [fst snd CurrencyRate.state CurrencyRate.intervalId
                         CurrencyRate.timers].
    split; [reflexivity|]. split; [reflexivity|]. split; [reflexivity|].
    split; [reflexivity|]. split.
    + intros handle rest Hid Hset.
      assert (Hfires :
        existsb (Nat.eqb handle) (CurrencyRate.timers c) = true).
      { apply existsb_exists. exists handle. split.
        - now apply list_elem_of_In.
        - apply Nat.eqb_refl. }
      cbn [CurrencyRate.ticks]. rewrite Hid, Hfires, Hcallback.
      cbn [snd]. rewrite Hid, Hfires, Hretry. cbn [snd]. rewrite ?Hid.
      reflexivity.
    + intros rest. cbv zeta. unfold CurrencyRate.startPolling.
      assert (Hstopped :
        CurrencyRate.intervalCallback fetchExchangeRate
          (CurrencyRate.stopPolling c)
        = (None, CurrencyRate.stopPolling c)).
      { unfold CurrencyRate.intervalCallback, CurrencyRate.updateExchangeRate.
        assert (Hstate : CurrencyRate.state (CurrencyRate.stopPolling c) = s)
          by (unfold CurrencyRate.stopPolling;
              now destruct (CurrencyRate.intervalId c)).
        assert (Husd : CurrencyRate.includeUsdRate (CurrencyRate.stopPolling c)
                       = CurrencyRate.includeUsdRate c)
          by (unfold CurrencyRate.stopPolling;
              now destruct (CurrencyRate.intervalId c)).
        now rewrite Hstate, Husd, Hfail. }
      rewrite Hstopped. cbn [snd].
      set (started :=
        {| CurrencyRate.state := CurrencyRate.state (CurrencyRate.stopPolling c);
           CurrencyRate.includeUsdRate := _; CurrencyRate.intervalDelay := _;
           CurrencyRate.intervalId := _; CurrencyRate.timers := _ |}).
      assert (Hstate : CurrencyRate.state started = s)
        by (unfold started, CurrencyRate.stopPolling; cbn;
            now destruct (CurrencyRate.intervalId c)).
      assert (Husd : CurrencyRate.includeUsdRate started
                     = CurrencyRate.includeUsdRate c)
        by (unfold started, CurrencyRate.stopPolling; cbn;
            now destruct (CurrencyRate.intervalId c)).
      assert (Hfirst :
        CurrencyRate.intervalCallback next started
        = (Some tt,
           {| CurrencyRate.state := stored rates;
              CurrencyRate.includeUsdRate := CurrencyRate.includeUsdRate started;
              CurrencyRate.intervalDelay := CurrencyRate.intervalDelay started;
              CurrencyRate.intervalId := CurrencyRate.intervalId started;
              CurrencyRate.timers := CurrencyRate.timers started |})).
      { unfold CurrencyRate.intervalCallback, CurrencyRate.updateExchangeRate.
        rewrite Hstate, Husd. fold s. fold currency native.
        now rewrite Hnext. }
      rewrite Hfirst. cbn [fst snd CurrencyRate.state].
      split; [reflexivity|]. split; [reflexivity|].
      assert (Hfires :
        match CurrencyRate.intervalId started with
        | Some handle => existsb (Nat.eqb handle) (CurrencyRate.timers started)
        | None => false
        end = true).
      { unfold started. cbn [CurrencyRate.intervalId CurrencyRate.timers].
        rewrite existsb_app. cbn [existsb].
        now rewrite Nat.eqb_refl, orb_true_r. }
      cbn [CurrencyRate.ticks].
      destruct (CurrencyRate.intervalId started) as [handle|];
        [|discriminate].
      rewrite Hfires, Hfirst. reflexivity.
Qed.

(** C9, at the sample: the timer is set and the price API is down. *)
Lemma failed_fetch_tick_witness :
  CurrencyRate.updateExchangeRate SampleRates.down SampleRates.polling
  = (Throw (Error "Fetch failed"), SampleRates.polling)
  /\ CurrencyRate.intervalCallback SampleRates.down SampleRates.polling
     = (None, SampleRates.polling)
  /\ (forall rest,
        CurrencyRate.ticks (SampleRates.down :: rest) SampleRates.polling
        = CurrencyRate.ticks rest SampleRates.polling)
  /\ (let started :=
        CurrencyRate.startPolling SampleRates.down SampleRates.polling in
      fst started = Ok tt
      /\ CurrencyRate.state (snd started)
         = CurrencyRate.state SampleRates.polling
      /\ exists handle,
           CurrencyRate.intervalId (snd started) = Some handle
           /\ handle ∈ CurrencyRate.timers (snd started))
  /\ (forall rest,
        CurrencyRate.ticks (SampleRates.down :: SampleRates.up :: rest)
          SampleRates.polling
        = CurrencyRate.ticks rest
            (snd (CurrencyRate.intervalCallback SampleRates.up
                    SampleRates.polling))).
Proof.
  pose proof (failed_fetch_tick_leaves_state_and_schedule SampleRates.down
                SampleRates.polling (Error "Fetch failed") eq_refl) as Hw.
  cbv zeta in Hw.
  destruct Hw as (Hupdate & Hcallback & Hticks & Hstarted & Hretry).
  split; [exact Hupdate|]. split; [exact Hcallback|].
  split; [exact Hticks|]. split; [exact Hstarted|].
  intros rest.
  destruct (Hretry SampleRates.up _ eq_refl) as (_ & _ & _ & _ & Hnext & _).
  apply (Hnext 1%nat rest eq_refl).
  apply list_elem_of_here.
Defined.

(** The tick after a failed one retries and succeeds. *)
Example retry_after_failed_tick :
  CurrencyRate.currentCurrency
    (CurrencyRate.state
       (CurrencyRate.ticks [SampleRates.down; SampleRates.up]
          SampleRates.polling)) = "eur"
  /\ CurrencyRate.pendingCurrentCurrency
       (CurrencyRate.state
          (CurrencyRate.ticks [SampleRates.down; SampleRates.up]
             SampleRates.polling)) = None.
Proof. split; reflexivity. Qed.

(** ** Detection of collectibles *)

Lemma find_contract_Some (a : string) (l : list CollectibleContract) :
  has_contract a l <-> exists k, Array.find (contract_at a) l = Some k.
Proof.
  split.
  - intros (k & Hk & Ha).
    destruct (Array.find (contract_at a) l) as [k'|] eqn:Hfind; [eauto|].
    pose proof (proj1 (find_None _ _) Hfind k Hk) as Hnone.
    unfold contract_at in Hnone. rewrite Ha, String.eqb_refl in Hnone.
    discriminate.
  - intros [k Hk]. apply find_Some_true in Hk as [Hk Ha].
    exists k. split; [assumption|]. now apply String.eqb_eq.
Qed.

Lemma classic_contract (a : string) (l : list CollectibleContract) :
  has_contract a l \/ ~ has_contract a l.
Proof.
  destruct (Array.find (contract_at a) l) as [k|] eqn:Hfind.
  - left. apply find_contract_Some. eauto.
  - right. intros H. apply find_contract_Some in H as [k Hk]. congruence.
Qed.

Lemma find_contract_None (a : string) (l : list CollectibleContract) :
  ~ has_contract a l <-> Array.find (contract_at a) l = None.
Proof.
  rewrite find_contract_Some.
  destruct (Array.find (contract_at a) l); split; try congruence.
  - intros H. exfalso. apply H. eauto.
  - intros _ [k Hk]. discriminate.
Qed.

Lemma find_collectible_Some (a : string) (tokenId : Z) (l : list Collectible) :
  has_collectible a tokenId l
  <-> exists x, Array.find (is_collectible a tokenId) l = Some x.
Proof.
  split.
  - intros (x & Hx & Ha & Hid).
    destruct (Array.find (is_collectible a tokenId) l) as [x'|] eqn:Hfind; [eauto|].
    pose proof (proj1 (find_None _ _) Hfind x Hx) as Hnone.
    unfold is_collectible in Hnone.
    rewrite Ha, Hid, String.eqb_refl, Z.eqb_refl in Hnone. discriminate.
  - intros [x Hx]. apply find_Some_true in Hx as [Hx Hp].
    unfold is_collectible in Hp. apply andb_true_iff in Hp as [Ha Hid].
    exists x. split; [assumption|].
    split; [now apply String.eqb_eq | now apply Z.eqb_eq].
Qed.

(** The contract step of an add, when no entry for the address is active:
    the entry is appended unless the metadata is refused. *)
Lemma addCollectibleContract_new (net : Network) (address : string)
    (detection : bool) (c : AssetsController) :
  let a := toChecksumAddress address in
  let information := getCollectibleContractInformation net a in
  let refused :=
    (detection && negb (Js.truthy_opt (ContractInformation.image_url information)))
    || Nat.eqb (ContractInformation.keys_length information) 0 in
  ~ has_contract a (collectibleContracts (state c)) ->
  let outcome := addCollectibleContract net address detection c in
  collectibleContracts (state (snd outcome)) = fst outcome
  /\ collectibles (state (snd outcome)) = collectibles (state c)
  /\ config (snd outcome) = config c
  /\ if refused
     then fst outcome = collectibleContracts (state c)
     else exists newEntry,
            CollectibleContract.address newEntry = a
            /\ CollectibleContract.logo newEntry
               = ContractInformation.image_url information
            /\ fst outcome = collectibleContracts (state c) ++ [newEntry].
Proof.
  intros a information refused Habsent outcome.
  apply find_contract_None in Habsent.
  subst outcome. unfold addCollectibleContract.
  fold a. fold (contract_at a). rewrite Habsent.
  fold information. fold refused.
  destruct refused; simpl; repeat split; try reflexivity.
  eexists. repeat split; reflexivity.
Qed.

(** The contract step of an add, when an entry for the address is active:
    nothing is resolved and nothing changes. *)
Lemma addCollectibleContract_existing (net : Network) (address : string)
    (detection : bool) (c : AssetsController) :
  has_contract (toChecksumAddress address) (collectibleContracts (state c)) ->
  addCollectibleContract net address detection c
  = (collectibleContracts (state c), c).
Proof.
  intros Hhas. apply find_contract_Some in Hhas as [k Hk].
  unfold addCollectibleContract. fold (contract_at (toChecksumAddress address)).
  now rewrite Hk.
Qed.

(** The collectible step of an add leaves an entry for the collectible and
    keeps the contract list. *)
Lemma addIndividualCollectible_has (net : Network) (address : string)
    (tokenId : Z) (opts : option CollectibleInformation) (c : AssetsController) :
  let c' := snd (addIndividualCollectible net address tokenId opts c) in
  has_collectible (toChecksumAddress address) tokenId (collectibles (state c'))
  /\ collectibleContracts (state c') = collectibleContracts (state c).
Proof.
  intros c'. subst c'. unfold addIndividualCollectible.
  destruct (Array.find _ (collectibles (state c))) as [x|] eqn:Hfind.
  - split; [|reflexivity]. apply find_collectible_Some. eauto.
  - split; [|reflexivity]. simpl.
    eexists. split; [apply elem_of_app; right; now apply list_elem_of_singleton|].
    split; reflexivity.
Qed.

(** [addCollectible]: the collectible is listed afterwards exactly when it
    was listed before or a contract entry for its address is active after
    the contract step. *)
Lemma addCollectible_retains (net : Network) (address : string) (tokenId : Z)
    (opts : option CollectibleInformation) (detection : bool)
    (c : AssetsController) :
  let a := toChecksumAddress address in
  let c' := addCollectible net address tokenId opts detection c in
  collectibleContracts (state c')
  = fst (addCollectibleContract net a detection c)
  /\ (has_collectible a tokenId (collectibles (state c'))
      <-> has_collectible a tokenId (collectibles (state c))
          \/ has_contract a (collectibleContracts (state c'))).
Proof.
  intros a c'. subst c'. unfold addCollectible. fold a.
  destruct (addCollectibleContract net a detection c) as [contracts c1] eqn:Hstep.
  assert (Hc1 : collectibleContracts (state c1) = contracts
                /\ collectibles (state c1) = collectibles (state c)).
  { destruct (classic_contract a (collectibleContracts (state c))) as [Hhas|Hnot].
    - unfold a in Hhas. rewrite <- toChecksumAddress_idemp in Hhas. fold a in Hhas.
      rewrite (addCollectibleContract_existing net a detection c Hhas) in Hstep.
      injection Hstep as <- <-. now split.
    - unfold a in Hnot. rewrite <- toChecksumAddress_idemp in Hnot. fold a in Hnot.
      destruct (addCollectibleContract_new net a detection c Hnot)
        as (H1 & H2 & _). rewrite Hstep in H1, H2. now split. }
  destruct Hc1 as [Hcon Hcol]. fold (contract_at a).
  destruct (Array.find (contract_at a) contracts) as [k|] eqn:Hfind.
  - destruct (addIndividualCollectible_has net a tokenId opts c1) as [Hhas Hsame].
    unfold a in Hhas at 1. rewrite toChecksumAddress_idemp in Hhas. fold a in Hhas.
    simpl. rewrite Hsame, Hcon. split; [reflexivity|].
    split; [intros _; right|intros _; exact Hhas].
    apply find_contract_Some. eauto.
  - simpl. rewrite Hcon, Hcol. split; [reflexivity|].
    split; [now left|]. intros [H|H]; [assumption|].
    apply find_contract_None in Hfind. contradiction.
Qed.

Lemma ignored_collectible_Some (item : ApiCollectibleResponse)
    (ignored : list Collectible) :
  let a := toChecksumAddress (ApiCollectibleResponse.asset_contract_address item) in
  let tokenId := ApiCollectibleResponse.token_id item in
  (has_collectible a tokenId ignored ->
   exists x, Detection.ignored_collectible ignored item = Some x)
  /\ (~ has_collectible a tokenId ignored ->
      Detection.ignored_collectible ignored item = None).
Proof.
  intros a tokenId. unfold Detection.ignored_collectible.
  fold a tokenId. fold (is_collectible a tokenId). split.
  - intros Hhas. pose proof Hhas as (x & Hx & _).
    destruct ignored as [|y l]; [inversion Hx|]. simpl negb. cbv iota.
    now apply find_collectible_Some.
  - intros Hnot. destruct (Nat.eqb (length ignored) 0); [reflexivity|]. simpl.
    destruct (Array.find (is_collectible a tokenId) ignored) eqn:Hfind;
      [|reflexivity].
    exfalso. apply Hnot. apply find_collectible_Some. eauto.
Qed.

Lemma image_url_means_api (information : ContractInformation) :
  Js.truthy_opt (ContractInformation.image_url information) = true ->
  ContractInformation.keys_length information = 5.
Proof. destruct information; simpl; congruence. Qed.

(** When no contract entry for the address is active, the contract step
    leaves one exactly when the metadata is not refused. *)
Lemma contract_step_new (net : Network) (address : string) (detection : bool)
    (c : AssetsController) :
  let a := toChecksumAddress address in
  let information := getCollectibleContractInformation net a in
  ~ has_contract a (collectibleContracts (state c)) ->
  has_contract a (fst (addCollectibleContract net a detection c))
  <-> (if detection
       then Js.truthy_opt (ContractInformation.image_url information) = true
       else ContractInformation.keys_length information <> 0).
Proof.
  intros a information Habsent.
  assert (Habsent' : ~ has_contract (toChecksumAddress a)
                         (collectibleContracts (state c)))
    by (unfold a; now rewrite toChecksumAddress_idemp).
  destruct (addCollectibleContract_new net a detection c Habsent')
    as (_ & _ & _ & Hstep).
  unfold a in Hstep. rewrite !toChecksumAddress_idemp in Hstep.
  fold a in Hstep. fold information in Hstep.
  destruct (Js.truthy_opt (ContractInformation.image_url information)) eqn:Himage.
  - pose proof (image_url_means_api _ Himage) as Hkeys.
    rewrite Hkeys, andb_false_r in Hstep. simpl in Hstep.
    destruct Hstep as (newEntry & Ha & _ & ->).
    split.
    + intros _. destruct detection; [reflexivity|]. rewrite Hkeys. discriminate.
    + intros _. exists newEntry. split; [|assumption].
      apply elem_of_app. right. now apply list_elem_of_singleton.
  - destruct detection; simpl in Hstep.
    + rewrite Hstep. split; [contradiction | discriminate].
    + destruct (Nat.eqb_spec (ContractInformation.keys_length information) 0)
        as [Hzero|Hpos].
      * rewrite Hstep. split; [contradiction | congruence].
      * destruct Hstep as (newEntry & Ha & _ & ->).
        split; [intros _; assumption|]. intros _. exists newEntry.
        split; [|assumption].
        apply elem_of_app. right. now apply list_elem_of_singleton.
Qed.

(** C4, as the code has it.  In a detection pass, an item whose checksummed
    contract address and token id are those of an entry of
    [ignoredCollectibles] changes nothing; any other item is handed to
    [addCollectible] with [detection = true].  When no contract entry for
    the address is active, an add leaves a contract entry, and with it the
    collectible, exactly when the resolved contract metadata has an image
    URL (detection) or is not the empty object (manual add).  When a
    contract entry for the address is active already, nothing is resolved:
    the contract list is kept and the collectible is listed, in either
    mode. *)
Theorem detection_skips_ignored_and_new_contract_needs_image
    (net : Network) (item : ApiCollectibleResponse) (assets : AssetsController) :
  let address := ApiCollectibleResponse.asset_contract_address item in
  let a := toChecksumAddress address in
  let tokenId := ApiCollectibleResponse.token_id item in
  let opts :=
    Some {| CollectibleInformation.description :=
              ApiCollectibleResponse.description item;
            CollectibleInformation.image :=
              ApiCollectibleResponse.image_original_url item;
            CollectibleInformation.name := ApiCollectibleResponse.name item |} in
  let information := getCollectibleContractInformation net a in
  (has_collectible a tokenId (ignoredCollectibles (state assets)) ->
   Detection.detectCollectible net item assets = assets)
  /\ (~ has_collectible a tokenId (ignoredCollectibles (state assets)) ->
      Detection.detectCollectible net item assets
      = addCollectible net address tokenId opts true assets)
  /\ (~ has_contract a (collectibleContracts (state assets)) ->
      ~ has_collectible a tokenId (collectibles (state assets)) ->
      forall opts',
        let detected := addCollectible net address tokenId opts' true assets in
        let manual := addCollectible net address tokenId opts' false assets in
        (has_contract a (collectibleContracts (state detected))
         <-> Js.truthy_opt (ContractInformation.image_url information) = true)
        /\ (has_collectible a tokenId (collectibles (state detected))
            <-> Js.truthy_opt (ContractInformation.image_url information) = true)
        /\ (has_contract a (collectibleContracts (state manual))
            <-> ContractInformation.keys_length information <> 0)
        /\ (has_collectible a tokenId (collectibles (state manual))
            <-> ContractInformation.keys_length information <> 0))
  /\ (has_contract a (collectibleContracts (state assets)) ->
      forall opts' detection,
        let after := addCollectible net address tokenId opts' detection assets in
        collectibleContracts (state after) = collectibleContracts (state assets)
        /\ has_collectible a tokenId (collectibles (state after))).
Proof.
  intros address a tokenId opts information.
  destruct (ignored_collectible_Some item (ignoredCollectibles (state assets)))
    as [Hignored Hfree].
  fold address a tokenId in Hignored, Hfree.
  split; [|split; [|split]].
  - intros Hhas. destruct (Hignored Hhas) as [x Hx].
    unfold Detection.detectCollectible. now rewrite Hx.
  - intros Hnot. unfold Detection.detectCollectible. now rewrite (Hfree Hnot).
  - intros Hnocontract Hnocollectible opts' detected manual.
    destruct (addCollectible_retains net address tokenId opts' true assets)
      as [Hdc Hdx].
    destruct (addCollectible_retains net address tokenId opts' false assets)
      as [Hmc Hmx].
    fold a detected in Hdc, Hdx. fold a manual in Hmc, Hmx.
    pose proof (contract_step_new net address true assets Hnocontract) as Hd.
    pose proof (contract_step_new net address false assets Hnocontract) as Hm.
    fold a information in Hd, Hm. cbv iota in Hd, Hm.
    rewrite <- Hdc in Hd. rewrite <- Hmc in Hm.
    split; [exact Hd|]. split; [|split; [exact Hm|]].
    + rewrite Hdx, <- Hd. tauto.
    + rewrite Hmx, <- Hm. tauto.
  - intros Hcontract opts' detection after.
    destruct (addCollectible_retains net address tokenId opts' detection assets)
      as [Hc Hx].
    fold a after in Hc, Hx.
    assert (Hcontract' : has_contract (toChecksumAddress a)
                           (collectibleContracts (state assets)))
      by (unfold a; now rewrite toChecksumAddress_idemp).
    rewrite (addCollectibleContract_existing net a detection assets Hcontract')
      in Hc.
    simpl in Hc. split; [exact Hc|]. apply Hx. right. now rewrite Hc.
Qed.

(** C4, counterexample.  The user added a collectible by hand; the contract
    entry has no logo, and no image URL can be resolved for the contract.
    A detection pass then meets another collectible of the contract that is
    not ignored: it is added, although no contract metadata with an image
    URL was resolved. *)
Lemma detected_collectible_of_known_contract_needs_no_image :
  ContractInformation.image_url
    (getCollectibleContractInformation SampleDetection.contractOnly
       Sample.kittiesAddress) = None
  /\ Detection.ignored_collectible
       (ignoredCollectibles (state SampleDetection.manual))
       SampleDetection.item = None
  /\ collectibles (state SampleDetection.manual)
     = [ {| Collectible.address := Sample.kittiesAddress;
            Collectible.description := None; Collectible.image := None;
            Collectible.name := None; Collectible.tokenId := 1 |} ]
  /\ collectibles
       (state (Detection.detectCollectible SampleDetection.contractOnly
                 SampleDetection.item SampleDetection.manual))
     = [ {| Collectible.address := Sample.kittiesAddress;
            Collectible.description := None; Collectible.image := None;
            Collectible.name := None; Collectible.tokenId := 1 |};
         {| Collectible.address := Sample.kittiesAddress;
            Collectible.description := None; Collectible.image := None;
            Collectible.name := Some "Kitty 2"; Collectible.tokenId := 2 |} ].
Proof.
  split; [vm_compute; reflexivity|].
  split; [vm_compute; reflexivity|].
  split; vm_compute; reflexivity.
Qed.

(** ** Detection of tokens *)

Lemma digits_of_uint (u : Decimal.uint) :
  Js.all_chars Js.is_digit (NilEmpty.string_of_uint u) = true.
Proof. induction u; simpl; auto. Qed.

Lemma valid_address_prefix (address : string) :
  isValidAddress address = true ->
  exists rest, address = String "0" (String "x" rest).
Proof.
  destruct address as [|c0 s]; [discriminate|].
  destruct c0 as [[] [] [] [] [] [] [] []]; try discriminate.
  destruct s as [|c1 rest]; [discriminate|].
  destruct c1 as [[] [] [] [] [] [] [] []]; try discriminate.
  eauto.
Qed.

(** A valid address is no property of an array. *)
Lemma address_not_in_array {A : Type} (address : string) (array : list A) :
  isValidAddress address = true -> in_array address array = false.
Proof.
  intros Hvalid. apply valid_address_prefix in Hvalid as [rest ->].
  unfold in_array.
  assert (Hindex : forall l : list nat,
            existsb (fun i => String.eqb (String "0" (String "x" rest))
                                (NilEmpty.string_of_uint (Nat.to_uint i))) l
            = false).
  { induction l as [|i l IH]; cbn [existsb]; [reflexivity|].
    rewrite IH, orb_false_r.
    apply String.eqb_neq. intros Heq.
    pose proof (digits_of_uint (Nat.to_uint i)) as Hdigits.
    rewrite <- Heq in Hdigits. simpl in Hdigits. discriminate. }
  rewrite Hindex. reflexivity.
Qed.

(** On a registry keyed by addresses the candidates are all its ERC20
    addresses, whatever tokens are configured. *)
Lemma tokensToDetect_all_erc20 (contractMap : ContractMap) (d : Detection.t) :
  (forall entry, entry ∈ contractMap -> isValidAddress (fst entry) = true) ->
  Detection.tokensToDetect contractMap d
  = map fst (List.filter (fun entry => ContractMetadata.erc20 (snd entry))
               contractMap).
Proof.
  unfold Detection.tokensToDetect.
  set (tokensAddresses := Array.filter _ _).
  assert (Hgen : forall acc,
    (forall entry, entry ∈ contractMap -> isValidAddress (fst entry) = true) ->
    fold_left
      (fun tokensToDetect '(address, contract) =>
         if ContractMetadata.erc20 contract
            && negb (in_array address tokensAddresses)
         then tokensToDetect ++ [address] else tokensToDetect)
      contractMap acc
    = acc ++ map fst (List.filter (fun entry => ContractMetadata.erc20 (snd entry))
                        contractMap)).
  { induction contractMap as [|[address contract] rest IH]; intros acc Hvalid.
    - simpl. now rewrite app_nil_r.
    - simpl. rewrite IH
        by (intros entry Hentry; apply Hvalid; now apply list_elem_of_further).
      rewrite (address_not_in_array address tokensAddresses
                 (Hvalid (address, contract) (list_elem_of_here _ _))).
      simpl. rewrite andb_true_r.
      destruct (ContractMetadata.erc20 contract); simpl; [|reflexivity].
      now rewrite <- app_assoc. }
  intros Hvalid. now rewrite (Hgen [] Hvalid).
Qed.

(** C5, on the code.  On a registry keyed by addresses the candidate list
    is the list of all ERC20 addresses of the registry: the addresses of
    the configured tokens are not taken out.  In the sample the user tracks
    the first ERC20 contract of the registry, and its address is still
    submitted to the balance call. *)
Theorem tokensToDetect_keeps_tracked_addresses :
  (forall contractMap d,
     (forall entry, entry ∈ contractMap -> isValidAddress (fst entry) = true) ->
     Detection.tokensToDetect contractMap d
     = map fst (List.filter (fun entry => ContractMetadata.erc20 (snd entry))
                  contractMap))
  /\ map Token.address (Detection.tokens (Detection.config SampleDetection.detector))
     = [Sample.checksumAddress]
  /\ Detection.tokensToDetect SampleDetection.contractMap SampleDetection.detector
     = [Sample.checksumAddress; Sample.otherAddress]
  /\ Detection.balancesCall
       (Detection.detectTokens SampleDetection.contractMap
          SampleDetection.noBalances SampleDetection.detector Sample.oneToken)
     = Some ("0x9d8A62f656a8d1615C1294fd71e9CFb3E4855A4F",
             [Sample.checksumAddress; Sample.otherAddress]).
Proof.
  split; [exact tokensToDetect_all_erc20|].
  split; [vm_compute; reflexivity|].
  split; vm_compute; reflexivity.
Qed.

(** ** The order of the steps of a detection pass *)

(** Case analysis on every search and every test of a step. *)
Ltac case_steps :=
  repeat (simpl in *;
          match goal with
          | |- context [match Array.find ?p ?l with _ => _ end] =>
              destruct (Array.find p l) eqn:?
          | |- context [if ?b then _ else _] => destruct b eqn:?
          end);
  simpl in *; try reflexivity; try congruence.

(** A collectible step and a contract step touch different fields. *)
Lemma contract_step_after_collectible_step (net : Network) (a b : string)
    (detection : bool) (tokenId : Z) (opts : option CollectibleInformation)
    (c : AssetsController) :
  addCollectibleContract net a detection
    (snd (addIndividualCollectible net b tokenId opts c))
  = (fst (addCollectibleContract net a detection c),
     snd (addIndividualCollectible net b tokenId opts
            (snd (addCollectibleContract net a detection c)))).
Proof.
  destruct c as [s cfg h ps em]; destruct s.
  unfold addCollectibleContract, addIndividualCollectible, with_state.
  case_steps.
Qed.

Lemma contract_steps_after_collectible_step (net : Network)
    (items : list ApiCollectibleResponse) (collectible : ApiCollectibleResponse)
    (found : bool) (assets : AssetsController) :
  contract_steps net items (collectible_step net collectible found assets)
  = (fst (contract_steps net items assets),
     collectible_step net collectible found
       (snd (contract_steps net items assets))).
Proof.
  destruct found.
  - revert assets; induction items as [|item rest IH]; intros assets.
    + reflexivity.
    + cbn [contract_steps]. unfold collectible_step in *.
      cbn [collectible_steps] in *.
      rewrite contract_step_after_collectible_step.
      destruct (addCollectibleContract net _ true assets) as [contracts assets1].
      cbn [fst snd]. rewrite IH.
      now destruct (contract_steps net rest assets1).
  - unfold collectible_step. cbn [collectible_steps].
    now destruct (contract_steps net items assets).
Qed.

(** The callback on an item that is not ignored, by its two steps. *)
Lemma addCollectible_steps (net : Network) (item : ApiCollectibleResponse)
    (assets : AssetsController) :
  addCollectible net (ApiCollectibleResponse.asset_contract_address item)
    (ApiCollectibleResponse.token_id item)
    (Some
       {| CollectibleInformation.description :=
            ApiCollectibleResponse.description item;
          CollectibleInformation.image :=
            ApiCollectibleResponse.image_original_url item;
          CollectibleInformation.name := ApiCollectibleResponse.name item |})
    true assets
  = collectible_steps net (fst (contract_steps net [item] assets))
      (snd (contract_steps net [item] assets)).
Proof.
  unfold addCollectible. cbn [contract_steps].
  destruct (addCollectibleContract net _ true assets) as [contracts assets1].
  cbn [fst snd collectible_steps]. now destruct (Array.find _ contracts).
Qed.

Lemma steps_in_succession (net : Network) (items : list ApiCollectibleResponse)
    (assets : AssetsController) :
  fold_left
    (fun assets item =>
       addCollectible net (ApiCollectibleResponse.asset_contract_address item)
         (ApiCollectibleResponse.token_id item)
         (Some
            {| CollectibleInformation.description :=
                 ApiCollectibleResponse.description item;
               CollectibleInformation.image :=
                 ApiCollectibleResponse.image_original_url item;
               CollectibleInformation.name := ApiCollectibleResponse.name item |})
         true assets)
    items assets
  = collectible_steps net (fst (contract_steps net items assets))
      (snd (contract_steps net items assets)).
Proof.
  revert assets; induction items as [|item rest IH]; intros assets.
  - reflexivity.
  - cbn [fold_left]. rewrite IH, addCollectible_steps. cbn [contract_steps].
    destruct (addCollectibleContract net _ true assets) as [contracts assets1].
    cbn [fst snd].
    set (found := match Array.find _ contracts with Some _ => true | None => false end).
    change (collectible_steps net [(item, found)] assets1)
      with (collectible_step net item found assets1).
    rewrite contract_steps_after_collectible_step.
    destruct (contract_steps net rest assets1) as [decided assets2].
    reflexivity.
Qed.

Lemma addCollectible_ignoredCollectibles (net : Network) (address : string)
    (tokenId : Z) (opts : option CollectibleInformation) (detection : bool)
    (c : AssetsController) :
  ignoredCollectibles (state (addCollectible net address tokenId opts detection c))
  = ignoredCollectibles (state c).
Proof.
  destruct c as [s cfg h ps em]; destruct s.
  unfold addCollectible, addCollectibleContract, addIndividualCollectible,
    with_state.
  case_steps.
Qed.

(** Consulting the ignore list as each callback starts, or for all items
    before any add, selects the same items. *)
Lemma callbacks_in_succession (net : Network)
    (items : list ApiCollectibleResponse) (assets : AssetsController) :
  fold_left (fun assets item => Detection.detectCollectible net item assets)
    items assets
  = fold_left
      (fun assets item =>
         addCollectible net (ApiCollectibleResponse.asset_contract_address item)
           (ApiCollectibleResponse.token_id item)
           (Some
              {| CollectibleInformation.description :=
                   ApiCollectibleResponse.description item;
                 CollectibleInformation.image :=
                   ApiCollectibleResponse.image_original_url item;
                 CollectibleInformation.name := ApiCollectibleResponse.name item |})
           true assets)
      (detectable (ignoredCollectibles (state assets)) items) assets.
Proof.
  revert assets; induction items as [|item rest IH]; intros assets.
  - reflexivity.
  - cbn [fold_left detectable List.filter]. unfold Detection.detectCollectible at 2.
    destruct (Detection.ignored_collectible _ item).
    + apply IH.
    + cbn [fold_left]. rewrite IH.
      now rewrite addCollectible_ignoredCollectibles.
Qed.

(** The pass as the mutex orders it is the pass that handles the items one
    after the other. *)
Lemma detectCollectibles_scheduled_eq (net : Network)
    (ownerCollectibles : Result (list ApiCollectibleResponse))
    (d : Detection.t) (assets : AssetsController) :
  detectCollectibles_scheduled net ownerCollectibles d assets
  = Detection.detectCollectibles net ownerCollectibles d assets.
Proof.
  unfold detectCollectibles_scheduled, Detection.detectCollectibles.
  destruct (negb (Detection.isMainnet d)); [reflexivity|].
  destruct (negb (Js.truthy _)); [reflexivity|].
  destruct ownerCollectibles as [apiCollectibles|]; [|reflexivity].
  rewrite callbacks_in_succession, steps_in_succession.
  now destruct (contract_steps net _ assets).
Qed.

(** The tokens staged from the balances, when the registry has every
    returned address: one token for each address whose checksummed form is
    not the address of an ignored token. *)
Lemma tokensToAdd_unignored (contractMap : ContractMap)
    (ignoredTokens : list Token) (balances : list (string * N)) :
  (forall entry, entry ∈ balances ->
                 is_Some (contract_lookup contractMap (fst entry))) ->
  exists staged,
    Detection.tokensToAdd contractMap ignoredTokens balances = Ok staged
    /\ map Token.address staged
       = map fst
           (List.filter
              (fun entry =>
                 negb (existsb (has_address (toChecksumAddress (fst entry)))
                         ignoredTokens))
              balances).
Proof.
  induction balances as [|[tokenAddress balance] rest IH]; intros Hknown.
  - exists []. split; reflexivity.
  - destruct IH as (staged & Hstaged & Haddresses).
    { intros entry Hentry. apply Hknown. now apply list_elem_of_further. }
    destruct (Hknown (tokenAddress, balance) (list_elem_of_here _ _))
      as [contract Hcontract].
    cbn [Detection.tokensToAdd List.filter fst].
    fold (has_address (toChecksumAddress tokenAddress)).
    assert (Hfind : (if negb (Nat.eqb (length ignoredTokens) 0)
                     then Array.find (has_address (toChecksumAddress tokenAddress))
                            ignoredTokens
                     else None)
                    = Array.find (has_address (toChecksumAddress tokenAddress))
                        ignoredTokens)
      by now destruct ignoredTokens.
    rewrite Hfind. clear Hfind.
    assert (Hexists : existsb (has_address (toChecksumAddress tokenAddress))
                        ignoredTokens
                      = match Array.find (has_address (toChecksumAddress tokenAddress))
                                ignoredTokens with
                        | Some _ => true
                        | None => false
                        end).
    { unfold Array.find. clear. induction ignoredTokens as [|t l IHl]; simpl;
        [reflexivity|].
      now destruct (has_address (toChecksumAddress tokenAddress) t). }
    rewrite Hexists.
    destruct (Array.find _ ignoredTokens); simpl.
    + exists staged. now split.
    + simpl in Hcontract. rewrite Hcontract, Hstaged.
      eexists. split; [reflexivity|]. simpl. now rewrite Haddresses.
Qed.

(** A run of [detectTokens] on the main network for a selected address:
    the balance call is made once, and [addTokens] is called once with all
    the staged tokens when there is one, and not at all otherwise. *)
Lemma detectTokens_one_batch (contractMap : ContractMap)
    (getBalancesInSingleCall : string -> list string -> Result (list (string * N)))
    (d : Detection.t) (assets : AssetsController)
    (balances : list (string * N)) (staged : list Token) :
  Detection.isMainnet d = true ->
  Js.truthy (Detection.selectedAddress (Detection.config d)) = true ->
  getBalancesInSingleCall (Detection.selectedAddress (Detection.config d))
    (Detection.tokensToDetect contractMap d) = Ok balances ->
  Detection.tokensToAdd contractMap (ignoredTokens (state assets)) balances
  = Ok staged ->
  let run := Detection.detectTokens contractMap getBalancesInSingleCall d assets in
  Detection.balancesCall run
  = Some (Detection.selectedAddress (Detection.config d),
          Detection.tokensToDetect contractMap d)
  /\ match staged with
     | [] => Detection.addTokensCall run = None
             /\ Detection.assetsAfter run = assets
     | _ :: _ => Detection.addTokensCall run = Some staged
                 /\ Detection.assetsAfter run = snd (addTokens staged assets)
     end.
Proof.
  intros Hmain Haddress Hbalances Hstaged run. subst run.
  unfold Detection.detectTokens.
  rewrite Hmain, Haddress. cbn [negb]. rewrite Hbalances, Hstaged.
  destruct staged; (split; [reflexivity | split; reflexivity]).
Qed.

(** ** Runs on the sample inputs *)

(** Adding the first of two tracked tokens again, under another symbol,
    keeps it first. *)
Example addToken_again_keeps_position :
  map (fun token => (Token.address token, Token.symbol token))
    (fst (addToken Sample.lowerAddress "NEW" 6 None
            (snd (addToken Sample.otherAddress "BAT" 18 None Sample.oneToken))))
  = [ (Sample.checksumAddress, "NEW"); (Sample.otherAddress, "BAT") ].
Proof. vm_compute. reflexivity. Qed.

(** Ignoring a token twice enters it once. *)
Example ignoring_twice_enters_once :
  map Token.address
    (ignoredTokens
       (state (removeAndIgnoreToken Sample.lowerAddress
                 (removeAndIgnoreToken Sample.lowerAddress Sample.oneToken))))
  = [Sample.checksumAddress]
  /\ tokens
       (state (removeAndIgnoreToken Sample.lowerAddress
                 (removeAndIgnoreToken Sample.lowerAddress Sample.oneToken)))
     = [].
Proof. split; vm_compute; reflexivity. Qed.

(** Of two collectibles of a contract, removing one keeps the contract
    entry and removing the other as well takes it away. *)
Example removing_collectibles_one_by_one :
  let two :=
    Detection.detectCollectible SampleDetection.contractOnly
      SampleDetection.item SampleDetection.manual in
  let one := removeCollectible Sample.kittiesLower 2 two in
  let none := removeAndIgnoreCollectible Sample.kittiesLower 1 one in
  map CollectibleContract.address (collectibleContracts (state two))
  = [Sample.kittiesAddress]
  /\ map CollectibleContract.address (collectibleContracts (state one))
     = [Sample.kittiesAddress]
  /\ collectibleContracts (state none) = []
  /\ map Collectible.tokenId (ignoredCollectibles (state none)) = [1%Z].
Proof.
  cbv zeta.
  split; [vm_compute; reflexivity|].
  split; [vm_compute; reflexivity|].
  split; vm_compute; reflexivity.
Qed.

(** A detection pass skips the collectible the user ignored. *)
Example detection_skips_ignored_collectible :
  let ignoring := removeAndIgnoreCollectible Sample.kittiesLower 1
                    SampleDetection.manual in
  let listed :=
    {| ApiCollectibleResponse.token_id := 1;
       ApiCollectibleResponse.image_original_url := None;
       ApiCollectibleResponse.name := None;
       ApiCollectibleResponse.description := None;
       ApiCollectibleResponse.asset_contract_address := Sample.kittiesLower |} in
  Detection.detectCollectibles SampleDetection.contractOnly (Ok [listed])
    SampleDetection.detector ignoring = ignoring.
Proof. cbv zeta. vm_compute. reflexivity. Qed.

(** On a new controller a detected collectible is kept when the indexing
    API has an image for its contract, and dropped when only the contract
    itself answers; a manual add is kept in that case, and dropped when
    nothing answers. *)
Example detection_and_manual_add_on_new_controller :
  map Collectible.tokenId
    (collectibles
       (state (Detection.detectCollectible SampleDetection.indexed
                 SampleDetection.item newAssetsController))) = [2%Z]
  /\ Detection.detectCollectible SampleDetection.contractOnly
       SampleDetection.item newAssetsController = newAssetsController
  /\ map Collectible.tokenId (collectibles (state SampleDetection.manual))
     = [1%Z]
  /\ addCollectible SampleDetection.offline Sample.kittiesLower 1 None false
       newAssetsController = newAssetsController.
Proof.
  split; [vm_compute; reflexivity|].
  split; [vm_compute; reflexivity|].
  split; vm_compute; reflexivity.
Qed.

(** * Invariants, round trips and edge cases *)

(** ** Batches of tokens *)

Lemma with_state_with_state (f g : AssetsState -> AssetsState)
    (c : AssetsController) :
  with_state f (with_state g c) = with_state (fun s => f (g s)) c.
Proof. reflexivity. Qed.

Lemma addTokens_eq (l : list Token) (c : AssetsController) :
  let tokens' :=
    fold_left (fun tokens tokenToAdd => put_token tokens (entry_of tokenToAdd))
      l (tokens (state c)) in
  addTokens l c
  = (tokens',
     with_state
       (set_tokens (write_slice (allTokens (state c)) (config c) tokens') tokens')
       c).
Proof. reflexivity. Qed.

Lemma addToken_of_eq (c : AssetsController) (tokenToAdd : Token) :
  addToken_of c tokenToAdd = snd (addTokens [tokenToAdd] c).
Proof. reflexivity. Qed.

Lemma addTokens_cons (first : Token) (rest : list Token) (c : AssetsController) :
  snd (addTokens (first :: rest) c)
  = match rest with
    | [] => addToken_of c first
    | _ :: _ => snd (addTokens rest (addToken_of c first))
    end.
Proof.
  destruct rest as [|second rest]; [reflexivity|].
  rewrite addToken_of_eq, !addTokens_eq. cbn [snd fst].
  unfold with_state. cbn [state config allTokens tokens set_tokens hub promises emitted].
  rewrite write_slice_twice. reflexivity.
Qed.

Lemma addTokens_fold (first : Token) (rest : list Token) (c : AssetsController) :
  snd (addTokens (first :: rest) c) = fold_left addToken_of (first :: rest) c.
Proof.
  revert first c. induction rest as [|second rest IH]; intros first c.
  - reflexivity.
  - rewrite addTokens_cons. rewrite IH. reflexivity.
Qed.

Lemma addTokens_fst (l : list Token) (c : AssetsController) :
  fst (addTokens l c) = tokens (state (snd (addTokens l c))).
Proof. reflexivity. Qed.

(** X1. addTokens on a non-empty batch returns the token list and leaves the
    controller that calling addToken on each element in order does (with the
    element's address, symbol, decimals and image). On an empty batch it returns
    the active token list, leaves that list as it was, and writes it to the
    entry of allTokens for the selected account and chain. *)
Theorem addTokens_is_addToken_in_sequence
    (first : Token) (rest : list Token) (c : AssetsController) :
  let c' := fold_left addToken_of (first :: rest) c in
  addTokens (first :: rest) c = (tokens (state c'), c')
  /\ fst (addTokens [] c) = tokens (state c)
  /\ tokens (state (snd (addTokens [] c))) = tokens (state c)
  /\ read_slice (allTokens (state (snd (addTokens [] c))))
       (selectedAddress (config c)) (chainId (config c))
     = tokens (state c).
Proof.
  intros c'. split; [|split; [|split]].
  - rewrite (surjective_pairing (addTokens (first :: rest) c)).
    rewrite addTokens_fst, addTokens_fold. reflexivity.
  - reflexivity.
  - reflexivity.
  - unfold read_slice. rewrite addTokens_eq. cbn [snd state allTokens with_state set_tokens].
    rewrite read_write_slice. reflexivity.
Qed.

(** ** Unique addresses *)

Lemma put_token_addresses (l : list Token) (newEntry : Token) :
  map Token.address (put_token l newEntry)
  = if existsb (has_address (Token.address newEntry)) l
    then map Token.address l
    else map Token.address l ++ [Token.address newEntry].
Proof.
  rewrite put_token_findIndex.
  destruct (Array.findIndex _ l) as [i|] eqn:Hidx.
  - destruct (findIndex_Some _ _ _ Hidx) as (x & Hx & Hp & _).
    assert (Hex : existsb (has_address (Token.address newEntry)) l = true).
    { apply existsb_exists. exists x. split; [|assumption].
      apply list_elem_of_In, list_elem_of_lookup. eauto. }
    rewrite Hex. change (map Token.address) with (fmap (M:=list) Token.address).
    rewrite list_fmap_insert. apply list_insert_id.
    rewrite list_lookup_fmap, Hx. simpl. f_equal.
    unfold has_address in Hp. now apply String.eqb_eq in Hp.
  - pose proof (proj1 (findIndex_None _ _) Hidx) as Hnone.
    assert (Hex : existsb (has_address (Token.address newEntry)) l = false).
    { apply not_true_is_false. intros H. apply existsb_exists in H as (x & Hx & Hp).
      apply list_elem_of_In in Hx. rewrite (Hnone x Hx) in Hp. discriminate. }
    rewrite Hex. apply map_app.
Qed.

Lemma put_token_unique (l : list Token) (newEntry : Token) :
  tokens_unique l -> tokens_unique (put_token l newEntry).
Proof.
  unfold tokens_unique. intros H. rewrite put_token_addresses.
  destruct (existsb _ l) eqn:Hex; [assumption|].
  apply NoDup_app. split; [assumption|]. split; [|apply NoDup_singleton].
  intros a Ha Hnew. apply list_elem_of_singleton in Hnew. subst a.
  apply list_elem_of_fmap in Ha as (x & Hx & Hin).
  assert (existsb (has_address (Token.address newEntry)) l = true); [|congruence].
  apply existsb_exists. exists x. split; [now apply list_elem_of_In|].
  unfold has_address. now apply String.eqb_eq.
Qed.

Lemma filter_unique (p : Token -> bool) (l : list Token) :
  tokens_unique l -> tokens_unique (Array.filter p l).
Proof.
  unfold tokens_unique, Array.filter.
  induction l as [|x l IH]; simpl; [trivial|].
  intros H. apply NoDup_cons in H as [Hx Hl].
  destruct (p x); simpl; [|auto].
  apply NoDup_cons. split; [|auto].
  intros Hin. apply Hx.
  apply list_elem_of_fmap in Hin as (y & Hy & Hin).
  apply list_elem_of_fmap. exists y. split; [assumption|].
  apply list_elem_of_In. apply list_elem_of_In in Hin.
  now apply List.filter_In in Hin as [Hin _].
Qed.

Lemma fold_put_token_unique (l : list Token) (tokens : list Token) :
  tokens_unique tokens ->
  tokens_unique
    (fold_left (fun tokens tokenToAdd => put_token tokens (entry_of tokenToAdd))
       l tokens).
Proof.
  revert tokens. induction l as [|t l IH]; intros tokens H; simpl; [assumption|].
  apply IH. now apply put_token_unique.
Qed.

Lemma removeAndIgnoreToken_tokens (address : string) (c : AssetsController) :
  tokens (state (removeAndIgnoreToken address c))
  = Array.filter (fun token => negb (has_address (toChecksumAddress address) token))
      (tokens (state c)).
Proof. rewrite removeAndIgnoreToken_eq. reflexivity. Qed.

Lemma removeAndIgnoreToken_ignoredTokens (address : string) (c : AssetsController) :
  ignoredTokens (state (removeAndIgnoreToken address c))
  = ignored_after (has_address (toChecksumAddress address)) (tokens (state c))
      (ignoredTokens (state c)).
Proof. rewrite removeAndIgnoreToken_eq. reflexivity. Qed.

(** X2. If no two active tokens have the same address, the same holds after
    addToken, addTokens, removeToken and removeAndIgnoreToken, whatever their
    arguments. *)
Theorem token_operations_keep_addresses_unique (c : AssetsController) :
  tokens_unique (tokens (state c)) ->
  (forall address symbol decimals image,
     tokens_unique (tokens (state (snd (addToken address symbol decimals image c)))))
  /\ (forall tokensToAdd,
        tokens_unique (tokens (state (snd (addTokens tokensToAdd c)))))
  /\ (forall address, tokens_unique (tokens (state (removeToken address c))))
  /\ (forall address,
        tokens_unique (tokens (state (removeAndIgnoreToken address c)))).
Proof.
  intros H. split; [|split; [|split]].
  - intros. now apply put_token_unique.
  - intros. rewrite addTokens_eq. now apply fold_put_token_unique.
  - intros. now apply filter_unique.
  - intros. rewrite removeAndIgnoreToken_tokens. now apply filter_unique.
Qed.

Lemma token_operations_keep_addresses_unique_witness :
  tokens_unique
    (tokens (state (snd (addToken Sample.lowerAddress "SAI" 18 None Sample.oneToken))))
  /\ tokens_unique (tokens (state (removeToken Sample.lowerAddress Sample.oneToken))).
Proof.
  assert (H : tokens_unique (tokens (state Sample.oneToken))).
  { vm_compute. apply NoDup_singleton. }
  destruct (token_operations_keep_addresses_unique Sample.oneToken H)
    as (Hadd & _ & Hremove & _).
  split; [exact (Hadd _ _ _ _) | exact (Hremove _)].
Defined.

(** ** Checksummed addresses *)

Lemma put_token_checksummed (l : list Token) (newEntry : Token) :
  Forall (fun token => is_checksummed (Token.address token)) l ->
  is_checksummed (Token.address newEntry) ->
  Forall (fun token => is_checksummed (Token.address token)) (put_token l newEntry).
Proof.
  intros Hl Hnew. apply Forall_forall. intros token Hin.
  apply put_token_elem_of in Hin as [->|Hin]; [assumption|].
  now apply (proj1 (Forall_forall _ _) Hl).
Qed.

Lemma entry_of_checksummed (tokenToAdd : Token) :
  is_checksummed (Token.address (entry_of tokenToAdd)).
Proof. apply toChecksumAddress_idemp. Qed.

Lemma fold_put_token_checksummed (l : list Token) (tokens : list Token) :
  Forall (fun token => is_checksummed (Token.address token)) tokens ->
  Forall (fun token => is_checksummed (Token.address token))
    (fold_left (fun tokens tokenToAdd => put_token tokens (entry_of tokenToAdd))
       l tokens).
Proof.
  revert tokens. induction l as [|t l IH]; intros tokens H; simpl; [assumption|].
  apply IH. apply put_token_checksummed; [assumption | apply entry_of_checksummed].
Qed.

Lemma filter_Forall {A : Type} (P : A -> Prop) (p : A -> bool) (l : list A) :
  Forall P l -> Forall P (Array.filter p l).
Proof.
  intros H. apply Forall_forall. intros x Hx.
  apply filter_elem_of in Hx as [Hx _].
  now apply (proj1 (Forall_forall _ _) H).
Qed.

Lemma ignored_after_Forall {A : Type} (P : A -> Prop) (is_target : A -> bool)
    (active ignored : list A) :
  Forall P active -> Forall P ignored ->
  Forall P (ignored_after is_target active ignored).
Proof.
  intros Ha Hi. unfold ignored_after.
  destruct (Array.find is_target ignored); [assumption|].
  destruct (Array.find is_target active) as [entry|] eqn:Hfind; [|assumption].
  apply Forall_app. split; [assumption|]. apply Forall_singleton.
  apply find_Some_true in Hfind as [Hin _].
  now apply (proj1 (Forall_forall _ _) Ha).
Qed.

Lemma acceptWatchAsset_tokens (id : string) (c : AssetsController) :
  tokens (state (snd (acceptWatchAsset id c))) = tokens (state c)
  \/ exists asset,
       tokens (state (snd (acceptWatchAsset id c)))
       = put_token (tokens (state c)) (entry_of asset).
Proof.
  unfold acceptWatchAsset.
  destruct (Array.at_index _ _) as [meta|]; [|left; reflexivity].
  destruct (String.eqb (SuggestedAssetMeta.type meta) "ERC20").
  - right. exists (SuggestedAssetMeta.asset meta). reflexivity.
  - left. reflexivity.
Qed.

Lemma acceptWatchAsset_ignoredTokens (id : string) (c : AssetsController) :
  ignoredTokens (state (snd (acceptWatchAsset id c))) = ignoredTokens (state c).
Proof.
  unfold acceptWatchAsset.
  destruct (Array.at_index _ _) as [meta|]; [|reflexivity].
  destruct (String.eqb (SuggestedAssetMeta.type meta) "ERC20"); reflexivity.
Qed.

(** X3. If every active and every ignored token has a checksummed address (one
    that toChecksumAddress leaves unchanged), the same holds after addToken,
    addTokens, removeToken, removeAndIgnoreToken and acceptWatchAsset. *)
Theorem token_operations_keep_addresses_checksummed (c : AssetsController) :
  tokens_checksummed c ->
  (forall address symbol decimals image,
     tokens_checksummed (snd (addToken address symbol decimals image c)))
  /\ (forall tokensToAdd, tokens_checksummed (snd (addTokens tokensToAdd c)))
  /\ (forall address, tokens_checksummed (removeToken address c))
  /\ (forall address, tokens_checksummed (removeAndIgnoreToken address c))
  /\ (forall suggestedAssetID,
        tokens_checksummed (snd (acceptWatchAsset suggestedAssetID c))).
Proof.
  intros [Hactive Hignored]. split; [|split; [|split; [|split]]].
  - intros. split; [|assumption].
    apply put_token_checksummed; [assumption | apply toChecksumAddress_idemp].
  - intros. split; [|assumption].
    rewrite addTokens_eq. now apply fold_put_token_checksummed.
  - intros. split; [|assumption]. now apply filter_Forall.
  - intros. split.
    + rewrite removeAndIgnoreToken_tokens. now apply filter_Forall.
    + rewrite removeAndIgnoreToken_ignoredTokens. now apply ignored_after_Forall.
  - intros id. split.
    + destruct (acceptWatchAsset_tokens id c) as [->|[asset ->]]; [assumption|].
      apply put_token_checksummed; [assumption | apply entry_of_checksummed].
    + now rewrite acceptWatchAsset_ignoredTokens.
Qed.

Lemma token_operations_keep_addresses_checksummed_witness :
  tokens_checksummed (removeAndIgnoreToken Sample.lowerAddress Sample.oneToken)
  /\ tokens_checksummed
       (snd (addToken Sample.otherAddress "BAT" 18 None Sample.oneToken)).
Proof.
  assert (H : tokens_checksummed Sample.oneToken).
  { split; [|constructor].
    apply (put_token_checksummed []); [constructor|].
    apply toChecksumAddress_idemp. }
  destruct (token_operations_keep_addresses_checksummed Sample.oneToken H)
    as (Hadd & _ & _ & Hignore & _).
  split; [exact (Hignore _) | exact (Hadd _ _ _ _)].
Defined.

(** ** Removing what was added *)

Lemma toChecksumAddress_casing (a b : string) :
  Js.toLowerCase (stripHexPrefix a) = Js.toLowerCase (stripHexPrefix b) ->
  toChecksumAddress a = toChecksumAddress b.
Proof. intros H. unfold toChecksumAddress. now rewrite H. Qed.

Lemma filter_app {A : Type} (p : A -> bool) (l1 l2 : list A) :
  Array.filter p (l1 ++ l2) = Array.filter p l1 ++ Array.filter p l2.
Proof. apply List.filter_app. Qed.

(** X4. If no active token has the checksummed form of an address, addToken of
    that address followed by removeToken of the same address, in any letter case
    and with or without the 0x prefix, restores the active token list; the entry
    of allTokens for the selected account and chain is that list, and the ignore
    list and the configuration are unchanged. *)
Theorem removeToken_undoes_addToken
    (added removed symbol : string) (decimals : Z) (image : option string)
    (c : AssetsController) :
  (forall token, token ∈ tokens (state c) ->
                 Token.address token <> toChecksumAddress added) ->
  Js.toLowerCase (stripHexPrefix removed) = Js.toLowerCase (stripHexPrefix added) ->
  let c' := removeToken removed (snd (addToken added symbol decimals image c)) in
  tokens (state c') = tokens (state c)
  /\ read_slice (allTokens (state c')) (selectedAddress (config c))
       (chainId (config c)) = tokens (state c)
  /\ ignoredTokens (state c') = ignoredTokens (state c)
  /\ config c' = config c.
Proof.
  intros Hnew Hcase c'.
  assert (Htokens : tokens (state c') = tokens (state c)).
  { unfold c', removeToken. cbn [tokens state with_state set_tokens snd addToken].
    rewrite (toChecksumAddress_casing _ _ Hcase).
    assert (Hput : put_token (tokens (state c))
                     {| Token.address := toChecksumAddress added;
                        Token.symbol := symbol; Token.decimals := decimals;
                        Token.image := image |}
                   = tokens (state c)
                     ++ [{| Token.address := toChecksumAddress added;
                            Token.symbol := symbol; Token.decimals := decimals;
                            Token.image := image |}]).
    { rewrite put_token_findIndex.
      rewrite (proj2 (findIndex_None _ _)); [reflexivity|].
      intros token Hin. unfold has_address. apply String.eqb_neq. auto. }
    rewrite Hput, filter_app. cbn [Array.filter List.filter Token.address].
    rewrite String.eqb_refl. cbn [negb]. rewrite app_nil_r.
    apply filter_id. intros token Hin. apply negb_true_iff, String.eqb_neq. auto. }
  split; [assumption|]. split; [|split; reflexivity].
  rewrite <- Htokens. unfold c' at 1, removeToken.
  cbn [allTokens state with_state set_tokens]. unfold read_slice.
  change (config (snd (addToken added symbol decimals image c))) with (config c).
  rewrite read_write_slice. reflexivity.
Qed.

Lemma removeToken_undoes_addToken_witness :
  let c' :=
    removeToken Sample.checksumAddress
      (snd (addToken Sample.lowerAddress "DAI" 18 None newAssetsController)) in
  tokens (state c') = tokens (state newAssetsController)
  /\ read_slice (allTokens (state c')) (selectedAddress (config newAssetsController))
       (chainId (config newAssetsController)) = tokens (state newAssetsController)
  /\ ignoredTokens (state c') = ignoredTokens (state newAssetsController)
  /\ config c' = config newAssetsController.
Proof.
  apply (removeToken_undoes_addToken Sample.lowerAddress Sample.checksumAddress
           "DAI" 18 None newAssetsController).
  - intros token Hin. inversion Hin.
  - reflexivity.
Defined.

(** ** The active lists and the stored slices *)

Lemma read_slice_write_slice {A : Type} (all : Keyed A) (cfg : AssetsConfig)
    (l : list A) :
  read_slice (write_slice all cfg l) (selectedAddress cfg) (chainId cfg) = l.
Proof. unfold read_slice. now rewrite read_write_slice. Qed.

Lemma read_slice_other_account {A : Type} (all : Keyed A) (cfg : AssetsConfig)
    (l : list A) (account chain : string) :
  account <> selectedAddress cfg ->
  read_slice (write_slice all cfg l) account chain = read_slice all account chain.
Proof. intros H. unfold read_slice. now rewrite write_slice_other_account. Qed.

Lemma read_slice_other_chain {A : Type} (all : Keyed A) (cfg : AssetsConfig)
    (l : list A) (chain : string) :
  chain <> chainId cfg ->
  read_slice (write_slice all cfg l) (selectedAddress cfg) chain
  = read_slice all (selectedAddress cfg) chain.
Proof. intros H. unfold read_slice. now rewrite write_slice_other_chain. Qed.

(** Projections out of a controller an operation built. *)
Ltac project :=
  cbn [state config hub promises emitted with_state set_tokens
       set_ignoredTokens set_collectibles set_ignoredCollectibles
       set_collectibleContracts set_suggestedAssets allTokens
       allCollectibleContracts allCollectibles collectibleContracts
       collectibles ignoredTokens ignoredCollectibles suggestedAssets tokens
       fst snd selectedAddress chainId networkType] in *.

Ltac mirror_step :=
  unfold mirrors_slices in *; project;
  repeat match goal with
  | H : _ /\ _ |- _ => destruct H
  | |- _ /\ _ => split
  | |- read_slice (write_slice _ _ _) _ _ = _ => apply read_slice_write_slice
  | |- _ => assumption
  | |- _ => reflexivity
  end.

Lemma addToken_mirrors a s d i c :
  mirrors_slices c -> mirrors_slices (snd (addToken a s d i c)).
Proof. intros H. unfold addToken. mirror_step. Qed.

Lemma addTokens_mirrors l c :
  mirrors_slices c -> mirrors_slices (snd (addTokens l c)).
Proof. intros H. unfold addTokens. mirror_step. Qed.

Lemma removeToken_mirrors a c :
  mirrors_slices c -> mirrors_slices (removeToken a c).
Proof. intros H. unfold removeToken. mirror_step. Qed.

Lemma removeAndIgnoreToken_mirrors a c :
  mirrors_slices c -> mirrors_slices (removeAndIgnoreToken a c).
Proof. intros H. rewrite removeAndIgnoreToken_eq. mirror_step. Qed.

Lemma addCollectibleContract_mirrors net a d c :
  mirrors_slices c -> mirrors_slices (snd (addCollectibleContract net a d c)).
Proof.
  intros H. unfold addCollectibleContract.
  destruct (Array.find _ _); [assumption|].
  destruct (_ || _); [assumption|]. mirror_step.
Qed.

Lemma addIndividualCollectible_mirrors net a t o c :
  mirrors_slices c -> mirrors_slices (snd (addIndividualCollectible net a t o c)).
Proof.
  intros H. unfold addIndividualCollectible.
  destruct (Array.find _ _); [assumption|]. mirror_step.
Qed.

Lemma addCollectible_mirrors net a t o d c :
  mirrors_slices c -> mirrors_slices (addCollectible net a t o d c).
Proof.
  intros H. unfold addCollectible.
  destruct (addCollectibleContract net (toChecksumAddress a) d c) as [l c1] eqn:E.
  assert (H1 : mirrors_slices c1).
  { change c1 with (snd (l, c1)). rewrite <- E.
    now apply addCollectibleContract_mirrors. }
  destruct (Array.find _ l); [|assumption].
  now apply addIndividualCollectible_mirrors.
Qed.

Lemma removeIndividualCollectible_mirrors a t c :
  mirrors_slices c -> mirrors_slices (removeIndividualCollectible a t c).
Proof. intros H. unfold removeIndividualCollectible. mirror_step. Qed.

Lemma removeAndIgnoreIndividualCollectible_mirrors a t c :
  mirrors_slices c -> mirrors_slices (removeAndIgnoreIndividualCollectible a t c).
Proof.
  intros H. rewrite removeAndIgnoreIndividualCollectible_eq. mirror_step.
Qed.

Lemma removeCollectibleContract_mirrors a c :
  mirrors_slices c -> mirrors_slices (snd (removeCollectibleContract a c)).
Proof. intros H. unfold removeCollectibleContract. mirror_step. Qed.

Lemma removeCollectible_mirrors a t c :
  mirrors_slices c -> mirrors_slices (removeCollectible a t c).
Proof.
  intros H. unfold removeCollectible.
  destruct (Array.find _ _).
  - now apply removeIndividualCollectible_mirrors.
  - now apply removeCollectibleContract_mirrors, removeIndividualCollectible_mirrors.
Qed.

Lemma removeAndIgnoreCollectible_mirrors a t c :
  mirrors_slices c -> mirrors_slices (removeAndIgnoreCollectible a t c).
Proof.
  intros H. unfold removeAndIgnoreCollectible.
  destruct (Array.find _ _).
  - now apply removeAndIgnoreIndividualCollectible_mirrors.
  - now apply removeCollectibleContract_mirrors,
      removeAndIgnoreIndividualCollectible_mirrors.
Qed.

Lemma onPreferencesStateChange_mirrors a c :
  mirrors_slices (onPreferencesStateChange a c).
Proof. unfold onPreferencesStateChange. mirror_step. Qed.

Lemma onNetworkStateChange_mirrors a c :
  mirrors_slices (onNetworkStateChange a c).
Proof. unfold onNetworkStateChange. mirror_step. Qed.

Lemma newAssetsController_mirrors : mirrors_slices newAssetsController.
Proof. repeat split. Qed.

(** X5. If the active token, collectible and contract lists are the entries of
    allTokens, allCollectibles and allCollectibleContracts for the selected
    account and chain, they still are after addToken, addTokens, removeToken,
    removeAndIgnoreToken, addCollectible, removeCollectible and
    removeAndIgnoreCollectible. *)
Theorem operations_keep_active_lists_and_slices_in_step (c : AssetsController) :
  mirrors_slices c ->
  (forall address symbol decimals image,
     mirrors_slices (snd (addToken address symbol decimals image c)))
  /\ (forall tokensToAdd, mirrors_slices (snd (addTokens tokensToAdd c)))
  /\ (forall address, mirrors_slices (removeToken address c))
  /\ (forall address, mirrors_slices (removeAndIgnoreToken address c))
  /\ (forall net address tokenId opts detection,
        mirrors_slices (addCollectible net address tokenId opts detection c))
  /\ (forall address tokenId, mirrors_slices (removeCollectible address tokenId c))
  /\ (forall address tokenId,
        mirrors_slices (removeAndIgnoreCollectible address tokenId c)).
Proof.
  intros H.
  split; [intros; now apply addToken_mirrors|].
  split; [intros; now apply addTokens_mirrors|].
  split; [intros; now apply removeToken_mirrors|].
  split; [intros; now apply removeAndIgnoreToken_mirrors|].
  split; [intros; now apply addCollectible_mirrors|].
  split; [intros; now apply removeCollectible_mirrors|].
  intros; now apply removeAndIgnoreCollectible_mirrors.
Qed.

Lemma operations_keep_active_lists_and_slices_in_step_witness :
  mirrors_slices (removeAndIgnoreToken Sample.lowerAddress Sample.oneToken)
  /\ mirrors_slices
       (addCollectible SampleDetection.contractOnly Sample.kittiesLower 1 None
          false Sample.oneToken).
Proof.
  assert (H : mirrors_slices Sample.oneToken).
  { apply addToken_mirrors, newAssetsController_mirrors. }
  destruct (operations_keep_active_lists_and_slices_in_step Sample.oneToken H)
    as (_ & _ & _ & Hignore & Hadd & _).
  split; [exact (Hignore _) | exact (Hadd _ _ _ _ _)].
Defined.

(** ** Switching the account or the chain *)

Lemma state_eq (s : AssetsState) :
  {| allTokens := allTokens s;
     allCollectibleContracts := allCollectibleContracts s;
     allCollectibles := allCollectibles s;
     collectibleContracts := collectibleContracts s;
     collectibles := collectibles s;
     ignoredTokens := ignoredTokens s;
     ignoredCollectibles := ignoredCollectibles s;
     suggestedAssets := suggestedAssets s;
     tokens := tokens s |} = s.
Proof. now destruct s. Qed.

(** X6. When the active lists are the stored entries for the selected account
    and chain, switching to another account (the preferences listener) or to
    another chain (the network listener) and back restores the whole controller.
    A token added before switching to a different account or chain does not
    change the token list shown after the switch. *)
Theorem switching_away_and_back_restores_the_lists
    (other : string) (c : AssetsController) :
  mirrors_slices c ->
  let account := selectedAddress (config c) in
  let chain := chainId (config c) in
  onPreferencesStateChange account (onPreferencesStateChange other c) = c
  /\ onNetworkStateChange chain (onNetworkStateChange other c) = c
  /\ (forall address symbol decimals image,
        other <> account ->
        tokens (state (onPreferencesStateChange other
                         (snd (addToken address symbol decimals image c))))
        = tokens (state (onPreferencesStateChange other c)))
  /\ (forall address symbol decimals image,
        other <> chain ->
        tokens (state (onNetworkStateChange other
                         (snd (addToken address symbol decimals image c))))
        = tokens (state (onNetworkStateChange other c))).
Proof.
  intros (Ht & Hc & Hk) account chain. subst account chain.
  split; [|split; [|split]].
  - unfold onPreferencesStateChange. project. rewrite Ht, Hc, Hk.
    destruct c as [s [n a ch] h p e]. cbn. now rewrite state_eq.
  - unfold onNetworkStateChange. project. rewrite Ht, Hc, Hk.
    destruct c as [s [n a ch] h p e]. cbn. now rewrite state_eq.
  - intros address symbol decimals image Hother.
    unfold onPreferencesStateChange, addToken. project.
    now apply read_slice_other_account.
  - intros address symbol decimals image Hother.
    unfold onNetworkStateChange, addToken. project.
    now apply read_slice_other_chain.
Qed.

Lemma switching_away_and_back_restores_the_lists_witness :
  mirrors_slices Sample.oneToken
  /\ onPreferencesStateChange (selectedAddress (config Sample.oneToken))
       (onPreferencesStateChange Sample.otherAddress Sample.oneToken)
     = Sample.oneToken
  /\ onNetworkStateChange (chainId (config Sample.oneToken))
       (onNetworkStateChange "5" Sample.oneToken)
     = Sample.oneToken.
Proof.
  assert (H : mirrors_slices Sample.oneToken).
  { apply addToken_mirrors, newAssetsController_mirrors. }
  split; [exact H|].
  pose proof (switching_away_and_back_restores_the_lists Sample.otherAddress
                Sample.oneToken H) as Haccount.
  pose proof (switching_away_and_back_restores_the_lists "5"
                Sample.oneToken H) as Hchain.
  cbv zeta in Haccount, Hchain.
  destruct Haccount as (Haccount & _). destruct Hchain as (_ & Hchain & _).
  split; [exact Haccount | exact Hchain].
Defined.

(** ** Adding a collectible, by cases *)

Lemma same_but_collectibles_refl c : same_but_collectibles c c.
Proof. repeat split. Qed.

Lemma same_but_collectibles_trans c1 c2 c3 :
  same_but_collectibles c1 c2 -> same_but_collectibles c2 c3 ->
  same_but_collectibles c1 c3.
Proof.
  unfold same_but_collectibles. intros H1 H2.
  destruct H1 as (?&?&?&?&?&?&?&?&?), H2 as (?&?&?&?&?&?&?&?&?).
  repeat split; congruence.
Qed.

Lemma refused_iff (net : Network) (a : string) (detection : bool) :
  let information := getCollectibleContractInformation net a in
  (detection && negb (Js.truthy_opt (ContractInformation.image_url information)))
  || Nat.eqb (ContractInformation.keys_length information) 0 = false
  <-> accepted_metadata net a detection.
Proof.
  intros information. unfold accepted_metadata. fold information.
  destruct (Js.truthy_opt (ContractInformation.image_url information)) eqn:Himage.
  - rewrite (image_url_means_api _ Himage), andb_false_r. simpl.
    destruct detection; split; intros; [reflexivity..|discriminate|reflexivity].
  - destruct detection; simpl.
    + split; discriminate.
    + destruct (Nat.eqb_spec (ContractInformation.keys_length information) 0);
        split; congruence.
Qed.

(** The contract step, by cases. *)
Lemma addCollectibleContract_cases (net : Network) (address : string)
    (detection : bool) (c : AssetsController) :
  let a := toChecksumAddress address in
  addCollectibleContract net address detection c
  = (collectibleContracts (state c), c)
    /\ (has_contract a (collectibleContracts (state c))
        \/ ~ accepted_metadata net a detection)
  \/ exists newEntry,
       ~ has_contract a (collectibleContracts (state c))
       /\ accepted_metadata net a detection
       /\ CollectibleContract.address newEntry = a
       /\ addCollectibleContract net address detection c
          = (collectibleContracts (state c) ++ [newEntry],
             with_state
               (set_collectibleContracts
                  (write_slice (allCollectibleContracts (state c)) (config c)
                     (collectibleContracts (state c) ++ [newEntry]))
                  (collectibleContracts (state c) ++ [newEntry])) c).
Proof.
  intros a. unfold addCollectibleContract. fold a. fold (contract_at a).
  destruct (Array.find (contract_at a) _) as [k|] eqn:Hfind.
  - left. split; [reflexivity|]. left. apply find_contract_Some. eauto.
  - apply find_contract_None in Hfind.
    destruct (_ || _) eqn:Hrefused.
    + left. split; [reflexivity|]. right. intros H.
      apply refused_iff in H. congruence.
    + right. eexists. split; [assumption|].
      split; [now apply refused_iff|]. split; cycle 1.
      * reflexivity.
      * reflexivity.
Qed.

(** The collectible step, by cases. *)
Lemma addIndividualCollectible_cases (net : Network) (address : string)
    (tokenId : Z) (opts : option CollectibleInformation) (c : AssetsController) :
  let a := toChecksumAddress address in
  snd (addIndividualCollectible net address tokenId opts c) = c
    /\ has_collectible a tokenId (collectibles (state c))
  \/ exists newEntry,
       ~ has_collectible a tokenId (collectibles (state c))
       /\ Collectible.address newEntry = a
       /\ Collectible.tokenId newEntry = tokenId
       /\ snd (addIndividualCollectible net address tokenId opts c)
          = with_state
              (set_collectibles
                 (write_slice (allCollectibles (state c)) (config c)
                    (collectibles (state c) ++ [newEntry]))
                 (collectibles (state c) ++ [newEntry])) c.
Proof.
  intros a. unfold addIndividualCollectible. fold a.
  destruct (Array.find (is_collectible a tokenId) _) as [x|] eqn:Hfind.
  - left. split; [reflexivity|]. apply find_collectible_Some. eauto.
  - right. eexists. split.
    + intros H. apply find_collectible_Some in H as [x Hx]. congruence.
    + split; [|split]; cycle 2.
      * reflexivity.
      * reflexivity.
      * reflexivity.
Qed.

Lemma find_contract_app (a : string) (l : list CollectibleContract)
    (k : CollectibleContract) :
  CollectibleContract.address k = a ->
  exists k', Array.find (contract_at a) (l ++ [k]) = Some k'.
Proof.
  intros Ha. apply find_contract_Some. exists k.
  split; [|assumption]. apply elem_of_app. right. now apply list_elem_of_singleton.
Qed.

(** Membership in an empty or a one-element list. *)
Ltac elems :=
  let Hin := fresh "Hin" in
  intros ? Hin;
  first [ now inversion Hin
        | apply list_elem_of_singleton in Hin; subst; tauto ].

(** [addCollectible], by what it appends: at most one contract entry and
    at most one collectible, both for the checksummed address. *)
Lemma addCollectible_cases (net : Network) (address : string) (tokenId : Z)
    (opts : option CollectibleInformation) (detection : bool)
    (c : AssetsController) :
  let a := toChecksumAddress address in
  let c' := addCollectible net address tokenId opts detection c in
  exists lk lx,
    collectibleContracts (state c') = collectibleContracts (state c) ++ lk
    /\ collectibles (state c') = collectibles (state c) ++ lx
    /\ (forall k, k ∈ lk ->
                  CollectibleContract.address k = a
                  /\ ~ has_contract a (collectibleContracts (state c))
                  /\ accepted_metadata net a detection)
    /\ (forall x, x ∈ lx ->
                  Collectible.address x = a /\ Collectible.tokenId x = tokenId
                  /\ ~ has_collectible a tokenId (collectibles (state c))
                  /\ has_contract a (collectibleContracts (state c')))
    /\ (lk = [] -> lx = [] -> c' = c)
    /\ (has_contract a (collectibleContracts (state c'))
        <-> has_contract a (collectibleContracts (state c))
            \/ accepted_metadata net a detection)
    /\ (has_contract a (collectibleContracts (state c')) ->
        has_collectible a tokenId (collectibles (state c')))
    /\ same_but_collectibles c c'.
Proof.
  intros a c'. subst c'. unfold addCollectible. fold a.
  assert (Haa : toChecksumAddress a = a) by apply toChecksumAddress_idemp.
  pose proof (addCollectibleContract_cases net a detection c) as Hk.
  rewrite Haa in Hk. fold (contract_at a).
  assert (Hlast : forall x l, has_collectible (Collectible.address x)
                                (Collectible.tokenId x) (l ++ [x])).
  { intros x l. exists x. split; [|tauto].
    apply elem_of_app. right. now apply list_elem_of_singleton. }
  destruct Hk as [[-> Hwhy]|(newEntry & Habsent & Haccepted & Hnew & ->)].
  - destruct (classic_contract a (collectibleContracts (state c))) as [Hhas|Hnot].
    + pose proof Hhas as Hfind. apply find_contract_Some in Hfind as [k ->].
      pose proof (addIndividualCollectible_cases net a tokenId opts c) as Hx.
      rewrite Haa in Hx.
      destruct Hx as [[-> Hhasx]|(x & Habsentx & Hxa & Hxt & ->)].
      * exists [], []. rewrite !app_nil_r.
        split; [reflexivity|]. split; [reflexivity|].
        split; [elems|]. split; [elems|]. split; [reflexivity|].
        split; [tauto|]. split; [tauto|]. apply same_but_collectibles_refl.
      * exists [], [x]. project. rewrite app_nil_r.
        split; [reflexivity|]. split; [reflexivity|].
        split; [elems|]. split; [elems|]. split; [discriminate|].
        split; [tauto|]. split; [|repeat split].
        intros _. subst a tokenId. rewrite <- Hxa. apply Hlast.
    + rewrite (proj1 (find_contract_None _ _) Hnot).
      destruct Hwhy as [Hhas|Hrefused]; [contradiction|].
      exists [], []. rewrite !app_nil_r.
      split; [reflexivity|]. split; [reflexivity|].
      split; [elems|]. split; [elems|]. split; [reflexivity|].
      split; [tauto|]. split; [tauto|]. apply same_but_collectibles_refl.
  - destruct (find_contract_app a (collectibleContracts (state c)) newEntry Hnew)
      as [k' ->].
    set (c1 := with_state _ c).
    pose proof (addIndividualCollectible_cases net a tokenId opts c1) as Hx.
    rewrite Haa in Hx.
    assert (Hhas' : has_contract a (collectibleContracts (state c) ++ [newEntry])).
    { exists newEntry. split; [|assumption].
      apply elem_of_app. right. now apply list_elem_of_singleton. }
    destruct Hx as [[-> Hhasx]|(x & Habsentx & Hxa & Hxt & ->)].
    + exists [newEntry], []. subst c1. project. rewrite app_nil_r.
      split; [reflexivity|]. split; [reflexivity|].
      split; [elems|]. split; [elems|]. split; [discriminate|].
      split; [tauto|]. split; [tauto|repeat split].
    + exists [newEntry], [x]. subst c1. project.
      split; [reflexivity|]. split; [reflexivity|].
      split; [elems|]. split; [elems|]. split; [discriminate|].
      split; [tauto|]. split; [|repeat split].
      intros _. subst a tokenId. rewrite <- Hxa. apply Hlast.
Qed.

Lemma has_contract_app (a : string) (l1 l2 : list CollectibleContract) :
  has_contract a (l1 ++ l2) <-> has_contract a l1 \/ has_contract a l2.
Proof.
  unfold has_contract. split.
  - intros (k & Hk & Ha). apply elem_of_app in Hk as [Hk|Hk]; eauto.
  - intros [(k & Hk & Ha)|(k & Hk & Ha)]; exists k; split; try assumption;
      apply elem_of_app; auto.
Qed.

Lemma has_collectible_app (a : string) (t : Z) (l1 l2 : list Collectible) :
  has_collectible a t (l1 ++ l2) <-> has_collectible a t l1 \/ has_collectible a t l2.
Proof.
  unfold has_collectible. split.
  - intros (k & Hk & Ha). apply elem_of_app in Hk as [Hk|Hk]; eauto.
  - intros [(k & Hk & Ha)|(k & Hk & Ha)]; exists k; split; try assumption;
      apply elem_of_app; auto.
Qed.

Lemma classic_collectible (a : string) (t : Z) (l : list Collectible) :
  has_collectible a t l \/ ~ has_collectible a t l.
Proof.
  destruct (Array.find (is_collectible a t) l) as [x|] eqn:Hfind.
  - left. apply find_collectible_Some. eauto.
  - right. intros H. apply find_collectible_Some in H as [x Hx]. congruence.
Qed.

(** ** Adding a collectible twice *)

(** X7. addCollectible is idempotent: a second call with the same address, token
    id and detection flag (and any options), given the same answers of the
    network, leaves the controller exactly as the first call left it. *)
Theorem addCollectible_twice_is_once
    (net : Network) (address : string) (tokenId : Z)
    (opts opts' : option CollectibleInformation) (detection : bool)
    (c : AssetsController) :
  addCollectible net address tokenId opts' detection
    (addCollectible net address tokenId opts detection c)
  = addCollectible net address tokenId opts detection c.
Proof.
  set (a := toChecksumAddress address).
  set (c1 := addCollectible net address tokenId opts detection c).
  destruct (addCollectible_cases net address tokenId opts detection c)
    as (lk & lx & _ & _ & _ & _ & _ & Hiff & Himp & _).
  fold a c1 in Hiff, Himp.
  destruct (addCollectible_cases net address tokenId opts' detection c1)
    as (lk2 & lx2 & Hk2 & _ & Hlk2 & Hlx2 & Hsame & _).
  fold a in Hk2, Hlk2, Hlx2.
  assert (Hnil : lk2 = []).
  { destruct lk2 as [|k lk2]; [reflexivity|]. exfalso.
    destruct (Hlk2 k (list_elem_of_here _ _)) as (_ & Hnot & Hacc). tauto. }
  subst lk2. rewrite app_nil_r in Hk2.
  apply Hsame; [reflexivity|].
  destruct lx2 as [|x lx2]; [reflexivity|]. exfalso.
  destruct (Hlx2 x (list_elem_of_here _ _)) as (_ & _ & Hnot & Hhas).
  rewrite Hk2 in Hhas. tauto.
Qed.

(** ** Contract entries for the active collectibles *)

Lemma addCollectible_cover (net : Network) (address : string) (tokenId : Z)
    (opts : option CollectibleInformation) (detection : bool)
    (c : AssetsController) :
  contracts_cover c ->
  contracts_cover (addCollectible net address tokenId opts detection c).
Proof.
  intros Hcover x Hx.
  destruct (addCollectible_cases net address tokenId opts detection c)
    as (lk & lx & Hk & Hc & _ & Hlx & _).
  rewrite Hc in Hx. apply elem_of_app in Hx as [Hx|Hx].
  - rewrite Hk. apply has_contract_app. left. now apply Hcover.
  - destruct (Hlx x Hx) as (-> & _ & _ & Hhas). exact Hhas.
Qed.

Lemma removal_cover (individual : AssetsController) (address : string)
    (c : AssetsController) :
  let a := toChecksumAddress address in
  contracts_cover c ->
  (forall x, x ∈ collectibles (state individual) -> x ∈ collectibles (state c)) ->
  collectibleContracts (state individual) = collectibleContracts (state c) ->
  contracts_cover
    match Array.find (collectible_at a) (collectibles (state individual)) with
    | Some _ => individual
    | None => snd (removeCollectibleContract a individual)
    end.
Proof.
  intros a Hcover Hsub Hsame.
  destruct (Array.find _ _) eqn:Hfind; intros x Hx.
  - rewrite Hsame. apply Hcover, Hsub, Hx.
  - change (collectibles (state (snd (removeCollectibleContract a individual))))
      with (collectibles (state individual)) in Hx.
    destruct (Hcover x (Hsub x Hx)) as (k & Hk & Hka).
    exists k. split; [|assumption].
    pose proof (removeCollectibleContract_checksummed address individual)
      as [Heq _]. cbv zeta in Heq. fold a in Heq. rewrite Heq.
    apply filter_elem_of. split; [now rewrite Hsame|].
    apply negb_true_iff. unfold contract_at. rewrite Hka.
    exact (proj1 (find_None _ _) Hfind x Hx).
Qed.

Lemma removeCollectible_cover (address : string) (tokenId : Z)
    (c : AssetsController) :
  contracts_cover c -> contracts_cover (removeCollectible address tokenId c).
Proof.
  intros Hcover. unfold removeCollectible.
  apply (removal_cover _ address c Hcover); [|reflexivity].
  intros x Hx. rewrite removeIndividualCollectible_collectibles in Hx.
  now apply filter_elem_of in Hx as [Hx _].
Qed.

Lemma removeAndIgnoreCollectible_cover (address : string) (tokenId : Z)
    (c : AssetsController) :
  contracts_cover c ->
  contracts_cover (removeAndIgnoreCollectible address tokenId c).
Proof.
  intros Hcover. unfold removeAndIgnoreCollectible.
  apply (removal_cover _ address c Hcover).
  - intros x Hx. rewrite removeAndIgnoreIndividualCollectible_collectibles in Hx.
    now apply filter_elem_of in Hx as [Hx _].
  - rewrite removeAndIgnoreIndividualCollectible_eq. reflexivity.
Qed.

(** ** A detection pass over the collectibles *)

Lemma detectCollectible_cases (net : Network) (item : ApiCollectibleResponse)
    (assets : AssetsController) :
  let a := toChecksumAddress (ApiCollectibleResponse.asset_contract_address item) in
  let tokenId := ApiCollectibleResponse.token_id item in
  has_collectible a tokenId (ignoredCollectibles (state assets))
    /\ Detection.detectCollectible net item assets = assets
  \/ ~ has_collectible a tokenId (ignoredCollectibles (state assets))
     /\ Detection.detectCollectible net item assets
        = addCollectible net (ApiCollectibleResponse.asset_contract_address item)
            tokenId (opts_of item) true assets.
Proof.
  intros a tokenId.
  destruct (ignored_collectible_Some item (ignoredCollectibles (state assets)))
    as [Hyes Hno]. fold a tokenId in Hyes, Hno.
  unfold Detection.detectCollectible.
  destruct (classic_collectible a tokenId (ignoredCollectibles (state assets)))
    as [H|H].
  - left. split; [assumption|]. destruct (Hyes H) as [x ->]. reflexivity.
  - right. split; [assumption|]. now rewrite (Hno H).
Qed.

Lemma detectCollectible_cover (net : Network) (item : ApiCollectibleResponse)
    (assets : AssetsController) :
  contracts_cover assets ->
  contracts_cover (Detection.detectCollectible net item assets).
Proof.
  intros H.
  destruct (detectCollectible_cases net item assets) as [[_ ->]|[_ ->]];
    [assumption|]. now apply addCollectible_cover.
Qed.

Lemma detectCollectibles_cover (net : Network)
    (ownerCollectibles : Result (list ApiCollectibleResponse))
    (d : Detection.t) (assets : AssetsController) :
  contracts_cover assets ->
  contracts_cover (Detection.detectCollectibles net ownerCollectibles d assets).
Proof.
  intros H. unfold Detection.detectCollectibles.
  destruct (negb _); [assumption|]. destruct (negb _); [assumption|].
  destruct ownerCollectibles as [items|e]; [|assumption].
  revert assets H. induction items as [|item items IH]; intros assets H;
    simpl; [assumption|].
  apply IH. now apply detectCollectible_cover.
Qed.

(** *** A pass only appends *)

Lemma detectCollectible_appends (net : Network) (item : ApiCollectibleResponse)
    (assets : AssetsController) :
  let assets' := Detection.detectCollectible net item assets in
  exists lk lx,
    collectibleContracts (state assets') = collectibleContracts (state assets) ++ lk
    /\ collectibles (state assets') = collectibles (state assets) ++ lx
    /\ same_but_collectibles assets assets'.
Proof.
  intros assets'. subst assets'.
  destruct (detectCollectible_cases net item assets) as [[_ ->]|[_ ->]].
  - exists [], []. rewrite !app_nil_r.
    split; [reflexivity|]. split; [reflexivity|]. apply same_but_collectibles_refl.
  - destruct (addCollectible_cases net
                (ApiCollectibleResponse.asset_contract_address item)
                (ApiCollectibleResponse.token_id item) (opts_of item) true assets)
      as (lk & lx & Hk & Hx & _ & _ & _ & _ & _ & Hsame).
    exists lk, lx. auto.
Qed.

Lemma detectCollectibles_appends (net : Network)
    (ownerCollectibles : Result (list ApiCollectibleResponse))
    (d : Detection.t) (assets : AssetsController) :
  let assets' := Detection.detectCollectibles net ownerCollectibles d assets in
  exists lk lx,
    collectibleContracts (state assets') = collectibleContracts (state assets) ++ lk
    /\ collectibles (state assets') = collectibles (state assets) ++ lx
    /\ same_but_collectibles assets assets'.
Proof.
  intros assets'. subst assets'.
  assert (Hnone : exists lk lx,
    collectibleContracts (state assets) = collectibleContracts (state assets) ++ lk
    /\ collectibles (state assets) = collectibles (state assets) ++ lx
    /\ same_but_collectibles assets assets).
  { exists [], []. rewrite !app_nil_r.
    split; [reflexivity|]. split; [reflexivity|]. apply same_but_collectibles_refl. }
  unfold Detection.detectCollectibles.
  destruct (negb _); [assumption|]. destruct (negb _); [assumption|].
  destruct ownerCollectibles as [items|e]; [|assumption]. clear Hnone.
  revert assets. induction items as [|item items IH]; intros assets; simpl.
  - exists [], []. rewrite !app_nil_r.
    split; [reflexivity|]. split; [reflexivity|]. apply same_but_collectibles_refl.
  - destruct (detectCollectible_appends net item assets)
      as (lk1 & lx1 & Hk1 & Hx1 & Hsame1).
    destruct (IH (Detection.detectCollectible net item assets))
      as (lk2 & lx2 & Hk2 & Hx2 & Hsame2).
    exists (lk1 ++ lk2), (lx1 ++ lx2).
    rewrite Hk2, Hx2, Hk1, Hx1, !app_assoc.
    split; [reflexivity|]. split; [reflexivity|].
    eapply same_but_collectibles_trans; eassumption.
Qed.

(** *** A pass run twice *)

Lemma settled_unchanged (net : Network) (item : ApiCollectibleResponse)
    (assets : AssetsController) :
  settled net item assets -> Detection.detectCollectible net item assets = assets.
Proof.
  intros Hsettled.
  destruct (detectCollectible_cases net item assets) as [[_ ->]|[Hnot ->]];
    [reflexivity|].
  destruct Hsettled as [H|H]; [contradiction|].
  destruct (addCollectible_cases net
              (ApiCollectibleResponse.asset_contract_address item)
              (ApiCollectibleResponse.token_id item) (opts_of item) true assets)
    as (lk & lx & Hk & _ & Hlk & Hlx & Hsame & Hiff & _).
  assert (Hnil : lk = []).
  { destruct lk as [|k lk]; [reflexivity|]. exfalso.
    destruct (Hlk k (list_elem_of_here _ _)) as (_ & Hno & Hacc). tauto. }
  subst lk. apply Hsame; [reflexivity|].
  destruct lx as [|x lx]; [reflexivity|]. exfalso.
  destruct (Hlx x (list_elem_of_here _ _)) as (_ & _ & Hno & Hhas). tauto.
Qed.

Lemma settled_after (net : Network) (item : ApiCollectibleResponse)
    (assets : AssetsController) :
  settled net item (Detection.detectCollectible net item assets).
Proof.
  destruct (detectCollectible_cases net item assets) as [[Hyes ->]|[Hnot ->]].
  - now left.
  - right.
    destruct (addCollectible_cases net
                (ApiCollectibleResponse.asset_contract_address item)
                (ApiCollectibleResponse.token_id item) (opts_of item) true assets)
      as (lk & lx & Hk & _ & Hlk & _ & _ & Hiff & Himp & _).
    set (assets' := addCollectible _ _ _ _ _ _) in *.
    destruct (classic_contract
                (toChecksumAddress
                   (ApiCollectibleResponse.asset_contract_address item))
                (collectibleContracts (state assets'))) as [Hhas|Hno].
    + left. auto.
    + right. split; [assumption|]. tauto.
Qed.

Lemma settled_kept (net : Network) (item other : ApiCollectibleResponse)
    (assets : AssetsController) :
  settled net item assets ->
  settled net item (Detection.detectCollectible net other assets).
Proof.
  intros Hsettled.
  destruct (detectCollectible_cases net other assets) as [[_ ->]|[_ ->]];
    [assumption|].
  destruct (addCollectible_cases net
              (ApiCollectibleResponse.asset_contract_address other)
              (ApiCollectibleResponse.token_id other) (opts_of other) true assets)
    as (lk & lx & Hk & Hx & Hlk & _ & _ & _ & _ & Hsame).
  set (assets' := addCollectible _ _ _ _ _ _) in *.
  destruct Hsame as (_ & _ & _ & Hignored & _).
  unfold settled. rewrite Hignored, Hk, Hx.
  destruct Hsettled as [H|[[H1 H2]|[H1 H2]]].
  - now left.
  - right. left. split; [apply has_contract_app | apply has_collectible_app]; auto.
  - right. right. split; [|assumption].
    intros H. apply has_contract_app in H as [H|(k & Hin & Ha)]; [contradiction|].
    destruct (Hlk k Hin) as (Hb & _ & Hacc). apply H2.
    rewrite <- Ha, Hb. exact Hacc.
Qed.

Lemma pass_settles (net : Network) (items : list ApiCollectibleResponse)
    (assets : AssetsController) :
  Forall
    (fun item =>
       settled net item
         (fold_left (fun assets item => Detection.detectCollectible net item assets)
            items assets))
    items.
Proof.
  revert assets. induction items as [|item items IH]; intros assets; simpl.
  - constructor.
  - constructor; [|apply IH].
    generalize (settled_after net item assets).
    generalize (Detection.detectCollectible net item assets). clear.
    induction items as [|other items IH]; intros assets H; simpl; [assumption|].
    apply IH. now apply settled_kept.
Qed.

Lemma settled_pass (net : Network) (items : list ApiCollectibleResponse)
    (assets : AssetsController) :
  Forall (fun item => settled net item assets) items ->
  fold_left (fun assets item => Detection.detectCollectible net item assets)
    items assets = assets.
Proof.
  induction 1 as [|item items Hitem _ IH]; simpl; [reflexivity|].
  now rewrite (settled_unchanged _ _ _ Hitem).
Qed.

(** X8. A second detectCollectibles pass over the same listing of the owner's
    collectibles, given the same answers of the network, leaves the assets
    controller exactly as the first pass left it. *)
Theorem detectCollectibles_twice_is_once
    (net : Network) (ownerCollectibles : Result (list ApiCollectibleResponse))
    (d : Detection.t) (assets : AssetsController) :
  Detection.detectCollectibles net ownerCollectibles d
    (Detection.detectCollectibles net ownerCollectibles d assets)
  = Detection.detectCollectibles net ownerCollectibles d assets.
Proof.
  unfold Detection.detectCollectibles.
  destruct (negb _); [reflexivity|]. destruct (negb _); [reflexivity|].
  destruct ownerCollectibles as [items|e]; [|reflexivity].
  apply settled_pass, pass_settles.
Qed.

(** ** Unique entries *)

Lemma addCollectible_appends_at_most_one (net : Network) (address : string)
    (tokenId : Z) (opts : option CollectibleInformation) (detection : bool)
    (c : AssetsController) :
  let a := toChecksumAddress address in
  let c' := addCollectible net address tokenId opts detection c in
  exists lk lx,
    collectibleContracts (state c') = collectibleContracts (state c) ++ lk
    /\ collectibles (state c') = collectibles (state c) ++ lx
    /\ length lk <= 1 /\ length lx <= 1.
Proof.
  intros a c'. subst c'. unfold addCollectible. fold a.
  assert (Haa : toChecksumAddress a = a) by apply toChecksumAddress_idemp.
  pose proof (addCollectibleContract_cases net a detection c) as Hk.
  rewrite Haa in Hk. fold (contract_at a).
  destruct Hk as [[-> Hwhy]|(newEntry & Habsent & Haccepted & Hnew & ->)].
  - destruct (Array.find (contract_at a) _).
    + pose proof (addIndividualCollectible_cases net a tokenId opts c) as Hx.
      destruct Hx as [[-> Hhasx]|(x & Habsentx & Hxa & Hxt & ->)].
      * exists [], []. rewrite !app_nil_r. simpl. auto.
      * exists [], [x]. project. rewrite app_nil_r. simpl. auto.
    + exists [], []. rewrite !app_nil_r. simpl. auto.
  - destruct (find_contract_app a (collectibleContracts (state c)) newEntry Hnew)
      as [k' ->].
    set (c1 := with_state _ c).
    pose proof (addIndividualCollectible_cases net a tokenId opts c1) as Hx.
    destruct Hx as [[-> Hhasx]|(x & Habsentx & Hxa & Hxt & ->)].
    + exists [newEntry], []. subst c1. project. rewrite app_nil_r. simpl. auto.
    + exists [newEntry], [x]. subst c1. project. simpl. auto.
Qed.

Lemma NoDup_app_one {A B : Type} (f : A -> B) (l lx : list A) :
  NoDup (map f l) -> length lx <= 1 ->
  (forall x, x ∈ lx -> f x ∉ map f l) ->
  NoDup (map f (l ++ lx)).
Proof.
  intros Hl Hlen Hnew. rewrite map_app. apply NoDup_app.
  split; [assumption|]. split.
  - intros b Hb Hb'. apply list_elem_of_fmap in Hb' as (x & -> & Hx).
    exact (Hnew x Hx Hb).
  - destruct lx as [|x [|y lx]]; simpl in *; [constructor| |lia].
    apply NoDup_singleton.
Qed.

Lemma addCollectible_unique (net : Network) (address : string) (tokenId : Z)
    (opts : option CollectibleInformation) (detection : bool)
    (c : AssetsController) :
  entries_unique c ->
  entries_unique (addCollectible net address tokenId opts detection c).
Proof.
  intros [Hx Hk].
  destruct (addCollectible_cases net address tokenId opts detection c)
    as (lk & lx & Hk' & Hx' & Hlk & Hlx & _).
  destruct (addCollectible_appends_at_most_one net address tokenId opts
              detection c) as (lk2 & lx2 & Hk2 & Hx2 & Hlenk & Hlenx).
  rewrite Hk' in Hk2. apply app_inv_head in Hk2. subst lk2.
  rewrite Hx' in Hx2. apply app_inv_head in Hx2. subst lx2.
  split.
  - rewrite Hx'. apply NoDup_app_one; [assumption..|].
    intros x Hin Hdup. destruct (Hlx x Hin) as (Ha & Ht & Hnot & _).
    apply Hnot. apply list_elem_of_fmap in Hdup as (y & Hy & Hyin).
    exists y. split; [assumption|]. unfold collectible_key in Hy.
    injection Hy as Hya Hyt. split; congruence.
  - rewrite Hk'. apply NoDup_app_one; [assumption..|].
    intros k Hin Hdup. destruct (Hlk k Hin) as (Ha & Hnot & _).
    apply Hnot. apply list_elem_of_fmap in Hdup as (y & Hy & Hyin).
    exists y. split; [assumption|]. congruence.
Qed.

Lemma filter_NoDup_map {A B : Type} (f : A -> B) (p : A -> bool) (l : list A) :
  NoDup (map f l) -> NoDup (map f (Array.filter p l)).
Proof.
  unfold Array.filter.
  induction l as [|x l IH]; simpl; [trivial|].
  intros H. apply NoDup_cons in H as [Hx Hl].
  destruct (p x); simpl; [|auto].
  apply NoDup_cons. split; [|auto].
  intros Hin. apply Hx.
  apply list_elem_of_fmap in Hin as (y & Hy & Hin).
  apply list_elem_of_fmap. exists y. split; [assumption|].
  apply list_elem_of_In. apply list_elem_of_In in Hin.
  now apply List.filter_In in Hin as [Hin _].
Qed.

Lemma removal_unique (individual : AssetsController) (a : string)
    (c : AssetsController) (p : Collectible -> bool) :
  entries_unique c ->
  collectibles (state individual) = Array.filter p (collectibles (state c)) ->
  collectibleContracts (state individual) = collectibleContracts (state c) ->
  entries_unique
    match Array.find (collectible_at a) (collectibles (state individual)) with
    | Some _ => individual
    | None => snd (removeCollectibleContract a individual)
    end.
Proof.
  intros [Hx Hk] Hfiltered Hsame.
  destruct (Array.find _ _); split.
  - rewrite Hfiltered. now apply filter_NoDup_map.
  - now rewrite Hsame.
  - change (collectibles (state (snd (removeCollectibleContract a individual))))
      with (collectibles (state individual)).
    rewrite Hfiltered. now apply filter_NoDup_map.
  - unfold removeCollectibleContract. project. rewrite Hsame.
    now apply filter_NoDup_map.
Qed.

Lemma removeCollectible_unique (address : string) (tokenId : Z)
    (c : AssetsController) :
  entries_unique c -> entries_unique (removeCollectible address tokenId c).
Proof.
  intros H. unfold removeCollectible.
  eapply removal_unique; [eassumption| |reflexivity].
  apply removeIndividualCollectible_collectibles.
Qed.

Lemma removeAndIgnoreCollectible_unique (address : string) (tokenId : Z)
    (c : AssetsController) :
  entries_unique c -> entries_unique (removeAndIgnoreCollectible address tokenId c).
Proof.
  intros H. unfold removeAndIgnoreCollectible.
  eapply removal_unique; [eassumption| |].
  - apply removeAndIgnoreIndividualCollectible_collectibles.
  - rewrite removeAndIgnoreIndividualCollectible_eq. reflexivity.
Qed.

Lemma detectCollectibles_unique (net : Network)
    (ownerCollectibles : Result (list ApiCollectibleResponse))
    (d : Detection.t) (assets : AssetsController) :
  entries_unique assets ->
  entries_unique (Detection.detectCollectibles net ownerCollectibles d assets).
Proof.
  intros H. unfold Detection.detectCollectibles.
  destruct (negb _); [assumption|]. destruct (negb _); [assumption|].
  destruct ownerCollectibles as [items|e]; [|assumption].
  revert assets H. induction items as [|item items IH]; intros assets H;
    simpl; [assumption|].
  apply IH.
  destruct (detectCollectible_cases net item assets) as [[_ ->]|[_ ->]];
    [assumption|]. now apply addCollectible_unique.
Qed.

(** X9. If no two active collectibles have the same address and token id and no
    two active contract entries the same address, the same holds after
    addCollectible, removeCollectible, removeAndIgnoreCollectible and a
    detectCollectibles pass. *)
Theorem collectible_operations_keep_entries_unique (c : AssetsController) :
  entries_unique c ->
  (forall net address tokenId opts detection,
     entries_unique (addCollectible net address tokenId opts detection c))
  /\ (forall address tokenId, entries_unique (removeCollectible address tokenId c))
  /\ (forall address tokenId,
        entries_unique (removeAndIgnoreCollectible address tokenId c))
  /\ (forall net ownerCollectibles d,
        entries_unique (Detection.detectCollectibles net ownerCollectibles d c)).
Proof.
  intros H.
  split; [intros; now apply addCollectible_unique|].
  split; [intros; now apply removeCollectible_unique|].
  split; [intros; now apply removeAndIgnoreCollectible_unique|].
  intros; now apply detectCollectibles_unique.
Qed.

Lemma collectible_operations_keep_entries_unique_witness :
  entries_unique newAssetsController
  /\ entries_unique SampleDetection.manual
  /\ entries_unique
       (Detection.detectCollectibles SampleDetection.contractOnly
          (Ok [SampleDetection.item; SampleDetection.item])
          SampleDetection.detector SampleDetection.manual).
Proof.
  assert (H : entries_unique newAssetsController).
  { split; apply NoDup_nil_2. }
  destruct (collectible_operations_keep_entries_unique newAssetsController H)
    as (Hadd & _).
  pose proof (Hadd SampleDetection.contractOnly Sample.kittiesLower 1%Z None false)
    as Hmanual.
  destruct (collectible_operations_keep_entries_unique SampleDetection.manual
              Hmanual) as (_ & _ & _ & Hdetect).
  split; [exact H|]. split; [exact Hmanual|]. exact (Hdetect _ _ _).
Defined.

(** ** What a detection pass leaves alone *)

Lemma put_token_addresses_prefix (l : list Token) (newEntry : Token) :
  exists new, map Token.address (put_token l newEntry) = map Token.address l ++ new.
Proof.
  rewrite put_token_addresses. destruct (existsb _ l).
  - exists []. now rewrite app_nil_r.
  - eexists. reflexivity.
Qed.

Lemma addTokens_addresses_prefix (tokensToAdd : list Token) (c : AssetsController) :
  exists new,
    map Token.address (tokens (state (snd (addTokens tokensToAdd c))))
    = map Token.address (tokens (state c)) ++ new.
Proof.
  rewrite addTokens_eq. project. generalize (tokens (state c)).
  induction tokensToAdd as [|t l IH]; intros tokens; simpl.
  - exists []. now rewrite app_nil_r.
  - destruct (IH (put_token tokens (entry_of t))) as [new2 ->].
    destruct (put_token_addresses_prefix tokens (entry_of t)) as [new1 ->].
    exists (new1 ++ new2). now rewrite app_assoc.
Qed.

Lemma detectTokens_after (contractMap : ContractMap)
    (getBalancesInSingleCall : string -> list string -> Result (list (string * N)))
    (d : Detection.t) (assets : AssetsController) :
  let run := Detection.detectTokens contractMap getBalancesInSingleCall d assets in
  match Detection.addTokensCall run with
  | Some staged => Detection.assetsAfter run = snd (addTokens staged assets)
  | None => Detection.assetsAfter run = assets
  end.
Proof.
  intros run. subst run. unfold Detection.detectTokens.
  destruct (negb _); [reflexivity|]. destruct (negb _); [reflexivity|].
  destruct (getBalancesInSingleCall _ _); [|reflexivity].
  destruct (Detection.tokensToAdd _ _ _); [|reflexivity].
  destruct (negb _); reflexivity.
Qed.

(** X10. A detection pass only appends. detectCollectibles appends to the active
    collectibles and contract entries and leaves the tokens and both ignore
    lists as they were; detectTokens keeps the addresses of the active tokens in
    their order, new ones after them, and leaves the collectibles, the contract
    entries and both ignore lists as they were. *)
Theorem detection_never_removes_or_ignores
    (net : Network) (ownerCollectibles : Result (list ApiCollectibleResponse))
    (contractMap : ContractMap)
    (getBalancesInSingleCall : string -> list string -> Result (list (string * N)))
    (d : Detection.t) (assets : AssetsController) :
  let collected := Detection.detectCollectibles net ownerCollectibles d assets in
  let detected :=
    Detection.assetsAfter
      (Detection.detectTokens contractMap getBalancesInSingleCall d assets) in
  (exists newContracts newCollectibles,
     collectibleContracts (state collected)
     = collectibleContracts (state assets) ++ newContracts
     /\ collectibles (state collected)
        = collectibles (state assets) ++ newCollectibles)
  /\ tokens (state collected) = tokens (state assets)
  /\ ignoredTokens (state collected) = ignoredTokens (state assets)
  /\ ignoredCollectibles (state collected) = ignoredCollectibles (state assets)
  /\ (exists newAddresses,
        map Token.address (tokens (state detected))
        = map Token.address (tokens (state assets)) ++ newAddresses)
  /\ collectibles (state detected) = collectibles (state assets)
  /\ collectibleContracts (state detected) = collectibleContracts (state assets)
  /\ ignoredTokens (state detected) = ignoredTokens (state assets)
  /\ ignoredCollectibles (state detected) = ignoredCollectibles (state assets).
Proof.
  intros collected detected.
  destruct (detectCollectibles_appends net ownerCollectibles d assets)
    as (lk & lx & Hk & Hx & Hsame).
  fold collected in Hk, Hx, Hsame.
  destruct Hsame as (Ht & _ & Hit & Hic & _).
  split; [eauto|]. split; [assumption|]. split; [assumption|].
  split; [assumption|].
  pose proof (detectTokens_after contractMap getBalancesInSingleCall d assets)
    as Hafter. cbv zeta in Hafter. fold detected in Hafter.
  destruct (Detection.addTokensCall _) as [staged|]; rewrite Hafter.
  - split; [apply addTokens_addresses_prefix|]. repeat split.
  - split; [exists []; now rewrite app_nil_r|]. repeat split.
Qed.

(** ** The two passes of a detection *)

Lemma addCollectibleContract_addTokens (net : Network) (a : string)
    (detection : bool) (l : list Token) (c : AssetsController) :
  addCollectibleContract net a detection (snd (addTokens l c))
  = (fst (addCollectibleContract net a detection c),
     snd (addTokens l (snd (addCollectibleContract net a detection c)))).
Proof.
  unfold addCollectibleContract. rewrite !addTokens_eq. project.
  destruct (Array.find _ _); [reflexivity|].
  destruct (_ || _); reflexivity.
Qed.

Lemma addIndividualCollectible_addTokens (net : Network) (a : string)
    (tokenId : Z) (opts : option CollectibleInformation) (l : list Token)
    (c : AssetsController) :
  snd (addIndividualCollectible net a tokenId opts (snd (addTokens l c)))
  = snd (addTokens l (snd (addIndividualCollectible net a tokenId opts c))).
Proof.
  unfold addIndividualCollectible. rewrite !addTokens_eq. project.
  destruct (Array.find _ _); reflexivity.
Qed.

Lemma addCollectible_addTokens (net : Network) (address : string) (tokenId : Z)
    (opts : option CollectibleInformation) (detection : bool) (l : list Token)
    (c : AssetsController) :
  addCollectible net address tokenId opts detection (snd (addTokens l c))
  = snd (addTokens l (addCollectible net address tokenId opts detection c)).
Proof.
  unfold addCollectible. rewrite addCollectibleContract_addTokens.
  destruct (addCollectibleContract net _ detection c) as [contracts c1].
  cbn [fst snd]. destruct (Array.find _ contracts); [|reflexivity].
  apply addIndividualCollectible_addTokens.
Qed.

Lemma detectCollectible_addTokens (net : Network) (item : ApiCollectibleResponse)
    (l : list Token) (assets : AssetsController) :
  Detection.detectCollectible net item (snd (addTokens l assets))
  = snd (addTokens l (Detection.detectCollectible net item assets)).
Proof.
  unfold Detection.detectCollectible.
  change (ignoredCollectibles (state (snd (addTokens l assets))))
    with (ignoredCollectibles (state assets)).
  destruct (Detection.ignored_collectible _ _); [reflexivity|].
  apply addCollectible_addTokens.
Qed.

Lemma detectCollectibles_addTokens (net : Network)
    (ownerCollectibles : Result (list ApiCollectibleResponse))
    (d : Detection.t) (l : list Token) (assets : AssetsController) :
  Detection.detectCollectibles net ownerCollectibles d (snd (addTokens l assets))
  = snd (addTokens l (Detection.detectCollectibles net ownerCollectibles d assets)).
Proof.
  unfold Detection.detectCollectibles.
  destruct (negb _); [reflexivity|]. destruct (negb _); [reflexivity|].
  destruct ownerCollectibles as [items|e]; [|reflexivity].
  revert assets.
  induction items as [|item items IH]; intros assets; cbn [fold_left];
    [reflexivity|].
  now rewrite detectCollectible_addTokens, IH.
Qed.

(** X11. The two passes of detectAssets commute when each runs to completion:
    detectTokens after detectCollectibles leaves the assets controller that
    detectCollectibles after detectTokens leaves, and makes the same balance
    call and the same addTokens call. *)
Theorem detection_passes_commute
    (net : Network) (ownerCollectibles : Result (list ApiCollectibleResponse))
    (contractMap : ContractMap)
    (getBalancesInSingleCall : string -> list string -> Result (list (string * N)))
    (d : Detection.t) (assets : AssetsController) :
  let tokensFirst :=
    Detection.detectTokens contractMap getBalancesInSingleCall d assets in
  let collectiblesFirst :=
    Detection.detectTokens contractMap getBalancesInSingleCall d
      (Detection.detectCollectibles net ownerCollectibles d assets) in
  Detection.assetsAfter collectiblesFirst
  = Detection.detectCollectibles net ownerCollectibles d
      (Detection.assetsAfter tokensFirst)
  /\ Detection.balancesCall collectiblesFirst = Detection.balancesCall tokensFirst
  /\ Detection.addTokensCall collectiblesFirst
     = Detection.addTokensCall tokensFirst.
Proof.
  intros tokensFirst collectiblesFirst.
  subst tokensFirst collectiblesFirst.
  destruct (detectCollectibles_appends net ownerCollectibles d assets)
    as (_ & _ & _ & _ & _ & _ & Hignored & _).
  unfold Detection.detectTokens. rewrite Hignored.
  destruct (negb _); [repeat split|]. destruct (negb _); [repeat split|].
  destruct (getBalancesInSingleCall _ _); [|repeat split].
  destruct (Detection.tokensToAdd _ _ _); [|repeat split].
  destruct (negb _); [|repeat split].
  cbn [Detection.assetsAfter Detection.balancesCall Detection.addTokensCall].
  split; [|split; reflexivity].
  symmetry. apply detectCollectibles_addTokens.
Qed.

(** ** A token pass that fails *)

Lemma tokensToAdd_unknown (contractMap : ContractMap) (ignoredTokens : list Token)
    (balances : list (string * N)) (entry : string * N) :
  entry ∈ balances ->
  contract_lookup contractMap (fst entry) = None ->
  (forall token, token ∈ ignoredTokens ->
                 Token.address token <> toChecksumAddress (fst entry)) ->
  exists e, Detection.tokensToAdd contractMap ignoredTokens balances = Throw e.
Proof.
  intros Hin Hnone Hnot.
  induction balances as [|[address balance] balances IH]; [inversion Hin|].
  apply elem_of_cons in Hin as [->|Hin].
  - simpl in *. rewrite Hnone.
    assert (Hfind : (if negb (Nat.eqb (length ignoredTokens) 0)
                     then Array.find
                            (fun token =>
                               String.eqb (Token.address token)
                                 (toChecksumAddress address)) ignoredTokens
                     else None) = None).
    { destruct (negb _); [|reflexivity]. apply find_None.
      intros token Ht. apply String.eqb_neq. auto. }
    rewrite Hfind. eauto.
  - destruct (IH Hin) as [e He]. simpl. rewrite He.
    destruct (if negb _ then _ else _); [eauto|].
    destruct (contract_lookup contractMap address); eauto.
Qed.

(** X12. If the balance call of detectTokens fails, or returns a balance for a
    well-formed address that is neither ignored nor in the contract registry,
    the pass is abandoned: the error is swallowed by safelyExecute, addTokens is
    not called and the assets controller is left as it was, so none of the
    balances returned is added. *)
Theorem detectTokens_failure_changes_nothing
    (contractMap : ContractMap)
    (getBalancesInSingleCall : string -> list string -> Result (list (string * N)))
    (d : Detection.t) (assets : AssetsController) :
  token_pass_fails contractMap getBalancesInSingleCall d assets ->
  let run := Detection.detectTokens contractMap getBalancesInSingleCall d assets in
  Detection.assetsAfter run = assets /\ Detection.addTokensCall run = None.
Proof.
  intros Hfails run. subst run. unfold token_pass_fails in Hfails.
  unfold Detection.detectTokens.
  destruct (negb _); [split; reflexivity|].
  destruct (negb _); [split; reflexivity|].
  destruct (getBalancesInSingleCall _ _) as [balances|e]; [|split; reflexivity].
  destruct Hfails as (entry & Hin & _ & Hnone & Hnot).
  destruct (tokensToAdd_unknown contractMap _ balances entry Hin Hnone Hnot)
    as [e ->].
  split; reflexivity.
Qed.

Lemma detectTokens_failure_changes_nothing_witness :
  let run :=
    Detection.detectTokens SampleDetection.contractMap
      (fun _ _ => Throw (Error "call failed")) SampleDetection.detector
      Sample.oneToken in
  Detection.assetsAfter run = Sample.oneToken
  /\ Detection.addTokensCall run = None.
Proof.
  apply (detectTokens_failure_changes_nothing SampleDetection.contractMap
           (fun _ _ => Throw (Error "call failed")) SampleDetection.detector
           Sample.oneToken).
  exact I.
Defined.

(** ** Events and listeners *)

Lemma fold_settle_misses (o : Settlement) (ls : list nat) (ps : list Settlement)
    (p : nat) :
  p ∉ ls -> fold_left (settle o) ls ps !! p = ps !! p.
Proof.
  revert ps. induction ls as [|q ls IH]; intros ps Hp; simpl; [reflexivity|].
  rewrite IH.
  - apply settle_misses. intros ->. apply Hp. apply list_elem_of_here.
  - intros Hin. apply Hp. now apply list_elem_of_further.
Qed.

Lemma emit_other_promise (id : string) (meta : SuggestedAssetMeta)
    (c : AssetsController) (p : nat) :
  (forall listener, listener ∈ hub c -> snd listener = p -> fst listener <> id) ->
  promises (emit (finished id) meta c) !! p = promises c !! p.
Proof.
  intros Hother. unfold emit. cbn [promises]. apply fold_settle_misses.
  intros Hin. apply list_elem_of_fmap in Hin as (listener & Hp & Hin).
  apply list_elem_of_In, List.filter_In in Hin as [Hin Hid].
  apply String.eqb_eq in Hid.
  exact (Hother listener (proj2 (list_elem_of_In _ _) Hin) (eq_sym Hp) Hid).
Qed.

Lemma emit_other_listener (id : string) (meta : SuggestedAssetMeta)
    (c : AssetsController) (listener : string * nat) :
  listener ∈ hub c -> fst listener <> id ->
  listener ∈ hub (emit (finished id) meta c).
Proof.
  intros Hin Hid. unfold emit. cbn [hub].
  apply list_elem_of_In, List.filter_In. split; [now apply list_elem_of_In|].
  apply negb_true_iff, String.eqb_neq, Hid.
Qed.

Lemma emit_hub_subset (event : HubEvent) (meta : SuggestedAssetMeta)
    (c : AssetsController) (listener : string * nat) :
  listener ∈ hub (emit event meta c) -> listener ∈ hub c.
Proof.
  unfold emit. cbn [hub]. intros Hin.
  apply list_elem_of_In, List.filter_In in Hin as [Hin _].
  now apply list_elem_of_In.
Qed.

Lemma find_has_id (id : string) (l : list SuggestedAssetMeta)
    (meta : SuggestedAssetMeta) :
  Array.find (has_id id) l = Some meta ->
  meta ∈ l /\ SuggestedAssetMeta.id meta = id.
Proof.
  intros H. apply find_Some_true in H as [Hin Hid].
  split; [assumption|]. unfold has_id in Hid. apply String.eqb_eq in Hid.
  now symmetry.
Qed.

(** [acceptWatchAsset], by the record the search finds. *)
Lemma acceptWatchAsset_cases (id : string) (c : AssetsController) :
  let rest :=
    Array.filter (fun m => negb (String.eqb (SuggestedAssetMeta.id m) id))
      (suggestedAssets (state c)) in
  match Array.find (has_id id) (suggestedAssets (state c)) with
  | None => acceptWatchAsset id c = (Throw (TypeError "id"), c)
  | Some meta =>
      if String.eqb (SuggestedAssetMeta.type meta) "ERC20" then
        acceptWatchAsset id c
        = (Ok tt,
           with_state (set_suggestedAssets rest)
             (emit (finished id) (SuggestedAssetMeta.with_status accepted meta)
                (addToken_of c (SuggestedAssetMeta.asset meta))))
      else
        acceptWatchAsset id c
        = (Ok tt,
           with_state (set_suggestedAssets rest)
             (emit (finished id)
                (SuggestedAssetMeta.with_status
                   (failed (Error ("Asset of type "
                                     +:+ SuggestedAssetMeta.type meta
                                     +:+ " not supported"))) meta) c))
  end.
Proof.
  intros rest. subst rest.
  destruct (Array.find _ _) as [meta|] eqn:Hfind.
  - pose proof (find_has_id _ _ _ Hfind) as [_ Hid].
    rewrite find_findIndex in Hfind.
    unfold acceptWatchAsset. fold (has_id id). rewrite Hfind.
    destruct (String.eqb (SuggestedAssetMeta.type meta) "ERC20").
    + cbn. rewrite Hid. reflexivity.
    + cbn. rewrite Hid. reflexivity.
  - rewrite find_findIndex in Hfind.
    unfold acceptWatchAsset. fold (has_id id). rewrite Hfind. reflexivity.
Qed.

(** [rejectWatchAsset], by the record the search finds. *)
Lemma rejectWatchAsset_cases (id : string) (c : AssetsController) :
  let rest :=
    Array.filter (fun m => negb (String.eqb (SuggestedAssetMeta.id m) id))
      (suggestedAssets (state c)) in
  match Array.find (has_id id) (suggestedAssets (state c)) with
  | None => rejectWatchAsset id c = c
  | Some meta =>
      rejectWatchAsset id c
      = with_state (set_suggestedAssets rest)
          (emit (finished id) (SuggestedAssetMeta.with_status rejected meta) c)
  end.
Proof.
  intros rest. subst rest.
  destruct (Array.find _ _) as [meta|] eqn:Hfind.
  - pose proof (find_has_id _ _ _ Hfind) as [_ Hid].
    rewrite find_findIndex in Hfind.
    unfold rejectWatchAsset. fold (has_id id). rewrite Hfind.
    cbn. rewrite Hid. reflexivity.
  - rewrite find_findIndex in Hfind.
    unfold rejectWatchAsset. fold (has_id id). rewrite Hfind. reflexivity.
Qed.

(** X13. Accepting or rejecting the suggestion with one id leaves a pending
    request with another id alone: its promise is not settled, its listener
    stays registered, and every stored suggestion with another id stays stored. *)
Theorem settling_a_suggestion_leaves_the_others_pending
    (id other : string) (p : nat) (c : AssetsController) :
  other <> id ->
  (other, p) ∈ hub c ->
  (forall listener, listener ∈ hub c -> snd listener = p -> fst listener = other) ->
  let accepting := snd (acceptWatchAsset id c) in
  let rejecting := rejectWatchAsset id c in
  promises accepting !! p = promises c !! p
  /\ promises rejecting !! p = promises c !! p
  /\ (other, p) ∈ hub accepting
  /\ (other, p) ∈ hub rejecting
  /\ (forall m, m ∈ suggestedAssets (state c) ->
                SuggestedAssetMeta.id m <> id ->
                m ∈ suggestedAssets (state accepting)
                /\ m ∈ suggestedAssets (state rejecting)).
Proof.
  intros Hother Hin Honly accepting rejecting.
  assert (Hmiss : forall listener,
            listener ∈ hub c -> snd listener = p -> fst listener <> id).
  { intros listener Hl Hp. rewrite (Honly listener Hl Hp). exact Hother. }
  assert (Hkept : forall m, m ∈ suggestedAssets (state c) ->
            SuggestedAssetMeta.id m <> id ->
            m ∈ Array.filter
                  (fun m => negb (String.eqb (SuggestedAssetMeta.id m) id))
                  (suggestedAssets (state c))).
  { intros m Hm Hid. apply filter_elem_of. split; [assumption|].
    now apply negb_true_iff, String.eqb_neq. }
  pose proof (acceptWatchAsset_cases id c) as Ha.
  pose proof (rejectWatchAsset_cases id c) as Hr.
  cbv zeta in Ha, Hr. subst accepting rejecting.
  destruct (Array.find (has_id id) _) as [meta|].
  - rewrite Hr.
    destruct (String.eqb (SuggestedAssetMeta.type meta) "ERC20"); rewrite Ha;
      project.
    + split; [now apply (emit_other_promise id _ (addToken_of c _))|].
      split; [now apply emit_other_promise|].
      split; [now apply (emit_other_listener id _ (addToken_of c _))|].
      split; [now apply emit_other_listener|]. auto.
    + split; [now apply emit_other_promise|].
      split; [now apply emit_other_promise|].
      split; [now apply emit_other_listener|].
      split; [now apply emit_other_listener|]. auto.
  - rewrite Ha, Hr. project. repeat split; auto.
Qed.

Lemma settling_a_suggestion_leaves_the_others_pending_witness :
  let c :=
    snd (watchAsset SampleWatch.asset "ERC20" "id-2" 2 SampleWatch.watching) in
  promises (snd (acceptWatchAsset "id-1" c)) !! 1%nat = promises c !! 1%nat
  /\ promises (rejectWatchAsset "id-1" c) !! 1%nat = promises c !! 1%nat
  /\ ("id-2", 1%nat) ∈ hub (snd (acceptWatchAsset "id-1" c))
  /\ ("id-2", 1%nat) ∈ hub (rejectWatchAsset "id-1" c)
  /\ (forall m, m ∈ suggestedAssets (state c) ->
                SuggestedAssetMeta.id m <> "id-1" ->
                m ∈ suggestedAssets (state (snd (acceptWatchAsset "id-1" c)))
                /\ m ∈ suggestedAssets (state (rejectWatchAsset "id-1" c))).
Proof.
  apply (settling_a_suggestion_leaves_the_others_pending "id-1" "id-2" 1).
  - discriminate.
  - apply list_elem_of_further, list_elem_of_here.
  - intros listener Hin Hp.
    apply elem_of_cons in Hin as [->|Hin]; [discriminate|].
    apply list_elem_of_singleton in Hin. now subst listener.
Defined.

Lemma emit_promises_length (event : HubEvent) (meta : SuggestedAssetMeta)
    (c : AssetsController) :
  length (promises (emit event meta c)) = length (promises c).
Proof.
  unfold emit. cbn [promises]. generalize (promises c).
  induction (map snd _) as [|q ls IH]; intros ps; simpl; [reflexivity|].
  rewrite IH. unfold settle. destruct (ps !! q) as [[]|]; try reflexivity.
  apply length_insert.
Qed.

(** ** Requests that are refused *)

(** X14. watchAsset with a type other than ERC20 rejects with 'Asset of type
    <type> not supported', stores nothing (the state is unchanged) and emits one
    '<id>:finished' event with the failed record; when no listener is registered
    under that id, the listeners and the promises are unchanged as well. *)
Theorem watchAsset_of_unsupported_type_is_refused
    (asset : Token) (type id : string) (now : Z) (c : AssetsController) :
  type <> "ERC20" ->
  let outcome := watchAsset asset type id now c in
  let error := Error ("Asset of type " +:+ type +:+ " not supported") in
  fst outcome = Throw error
  /\ state (snd outcome) = state c
  /\ length (promises (snd outcome)) = length (promises c)
  /\ emitted (snd outcome)
     = emitted c
       ++ [(finished id,
            {| SuggestedAssetMeta.asset := asset;
               SuggestedAssetMeta.id := id;
               SuggestedAssetMeta.status := failed error;
               SuggestedAssetMeta.time := now;
               SuggestedAssetMeta.type := type |})]
  /\ ((forall listener, listener ∈ hub c -> fst listener <> id) ->
      hub (snd outcome) = hub c /\ promises (snd outcome) = promises c).
Proof.
  intros Htype outcome error. subst outcome error. unfold watchAsset.
  rewrite (proj2 (String.eqb_neq _ _) Htype). cbn [failSuggestedAsset fst snd].
  split; [reflexivity|]. split; [reflexivity|].
  split; [apply emit_promises_length|].
  split; [reflexivity|]. intros Hnone.
  rewrite emit_without_listener by exact Hnone. split; reflexivity.
Qed.

Lemma watchAsset_of_unsupported_type_is_refused_witness :
  let outcome :=
    watchAsset SampleWatch.asset "ERC721" "id-1" 1 newAssetsController in
  let error := Error ("Asset of type " +:+ "ERC721" +:+ " not supported") in
  fst outcome = Throw error
  /\ state (snd outcome) = state newAssetsController
  /\ length (promises (snd outcome)) = length (promises newAssetsController)
  /\ emitted (snd outcome)
     = emitted newAssetsController
       ++ [(finished "id-1",
            {| SuggestedAssetMeta.asset := SampleWatch.asset;
               SuggestedAssetMeta.id := "id-1";
               SuggestedAssetMeta.status := failed error;
               SuggestedAssetMeta.time := 1;
               SuggestedAssetMeta.type := "ERC721" |})]
  /\ ((forall listener, listener ∈ hub newAssetsController ->
                        fst listener <> "id-1") ->
      hub (snd outcome) = hub newAssetsController
      /\ promises (snd outcome) = promises newAssetsController).
Proof.
  apply (watchAsset_of_unsupported_type_is_refused SampleWatch.asset "ERC721"
           "id-1" 1 newAssetsController).
  discriminate.
Defined.

(** ** The stored suggestions *)

Lemma is_hex_case (c : ascii) :
  Js.is_hex (Js.upper_char c) = Js.is_hex c
  /\ Js.is_hex (Js.lower_char c) = Js.is_hex c.
Proof. destruct c as [[] [] [] [] [] [] [] []]; split; reflexivity. Qed.

Lemma toLowerCase_hex (s : string) :
  Js.all_chars Js.is_hex (Js.toLowerCase s) = Js.all_chars Js.is_hex s.
Proof.
  induction s as [|c s IH]; simpl; [reflexivity|].
  now rewrite (proj2 (is_hex_case c)), IH.
Qed.

Lemma toLowerCase_length (s : string) :
  String.length (Js.toLowerCase s) = String.length s.
Proof. induction s as [|c s IH]; simpl; congruence. Qed.

Lemma checksum_case_hex (s : string) (hash : list N) :
  Js.all_chars Js.is_hex (checksum_case s hash) = Js.all_chars Js.is_hex s.
Proof.
  revert hash. induction s as [|c s IH]; intros hash; simpl; [reflexivity|].
  destruct hash as [|h hash]; simpl; rewrite IH; [reflexivity|].
  destruct (8 <=? h)%N; [|reflexivity]. now rewrite (proj1 (is_hex_case c)).
Qed.

Lemma checksum_case_length (s : string) (hash : list N) :
  String.length (checksum_case s hash) = String.length s.
Proof.
  revert hash. induction s as [|c s IH]; intros hash; simpl; [reflexivity|].
  destruct hash as [|h hash]; simpl; now rewrite IH.
Qed.

(** The checksummed form of a well-formed address is well-formed. *)
Lemma toChecksumAddress_valid (address : string) :
  isValidAddress address = true ->
  isValidAddress (toChecksumAddress address) = true.
Proof.
  intros Hvalid.
  destruct (valid_address_prefix address Hvalid) as [rest ->].
  unfold toChecksumAddress.
  change (stripHexPrefix (String "0" (String "x" rest))) with rest.
  change ("0x" +:+ ?s) with (String "0" (String "x" s)).
  cbn [isValidAddress] in *.
  now rewrite checksum_case_length, checksum_case_hex, toLowerCase_length,
    toLowerCase_hex.
Qed.

Lemma validateTokenToWatch_address (token : Token) :
  validateTokenToWatch token = Ok tt -> isValidAddress (Token.address token) = true.
Proof.
  unfold validateTokenToWatch.
  destruct (_ || _); [discriminate|].
  destruct (_ <? _)%nat; [discriminate|].
  destruct (_ || _); [discriminate|].
  destruct (isValidAddress _); [reflexivity | discriminate].
Qed.

Lemma watchAsset_suggestedAssets (asset : Token) (type id : string) (now : Z)
    (c : AssetsController) :
  suggestedAssets (state (snd (watchAsset asset type id now c)))
  = suggestedAssets (state c)
  \/ (type = "ERC20"
      /\ validateTokenToWatch asset = Ok tt
      /\ suggestedAssets (state (snd (watchAsset asset type id now c)))
         = suggestedAssets (state c)
           ++ [{| SuggestedAssetMeta.asset := asset;
                  SuggestedAssetMeta.id := id;
                  SuggestedAssetMeta.status := pending;
                  SuggestedAssetMeta.time := now;
                  SuggestedAssetMeta.type := type |}]).
Proof.
  unfold watchAsset.
  destruct (String.eqb_spec type "ERC20") as [->|Htype].
  - destruct (validateTokenToWatch asset) as [[]|e] eqn:Hvalid.
    + right. split; [reflexivity|]. split; reflexivity.
    + left. reflexivity.
  - left. reflexivity.
Qed.

(** X15. If every stored suggestion is a pending ERC20 request whose asset
    passes validateTokenToWatch, the same holds after watchAsset,
    acceptWatchAsset and rejectWatchAsset; and accepting the id of a stored
    suggestion does not throw, makes the token of a stored suggestion with that
    id active under a well-formed checksummed address, and leaves no suggestion
    with that id stored. *)
Theorem stored_suggestions_are_valid_and_can_be_accepted (c : AssetsController) :
  suggestions_valid c ->
  (forall asset type id now,
     suggestions_valid (snd (watchAsset asset type id now c)))
  /\ (forall id, suggestions_valid (snd (acceptWatchAsset id c)))
  /\ (forall id, suggestions_valid (rejectWatchAsset id c))
  /\ (forall m,
        m ∈ suggestedAssets (state c) ->
        let id := SuggestedAssetMeta.id m in
        exists found,
          found ∈ suggestedAssets (state c)
          /\ SuggestedAssetMeta.id found = id
          /\ fst (acceptWatchAsset id c) = Ok tt
          /\ entry_of (SuggestedAssetMeta.asset found)
               ∈ tokens (state (snd (acceptWatchAsset id c)))
          /\ isValidAddress
               (Token.address (entry_of (SuggestedAssetMeta.asset found)))
             = true
          /\ forall left, left ∈ suggestedAssets (state (snd (acceptWatchAsset id c)))
                          -> SuggestedAssetMeta.id left <> id).
Proof.
  intros Hvalid. unfold suggestions_valid in *.
  split; [|split; [|split]].
  - intros asset type id now.
    destruct (watchAsset_suggestedAssets asset type id now c)
      as [->|(-> & Hok & ->)]; [assumption|].
    apply Forall_app. split; [assumption|]. apply Forall_singleton. auto.
  - intros id. pose proof (acceptWatchAsset_cases id c) as Ha. cbv zeta in Ha.
    destruct (Array.find (has_id id) _) as [meta|]; [|now rewrite Ha].
    destruct (String.eqb _ _); rewrite Ha; project; now apply filter_Forall.
  - intros id. pose proof (rejectWatchAsset_cases id c) as Hr. cbv zeta in Hr.
    destruct (Array.find (has_id id) _) as [meta|]; rewrite Hr; [|assumption].
    project. now apply filter_Forall.
  - intros m Hm. set (id := SuggestedAssetMeta.id m).
    pose proof (acceptWatchAsset_cases id c) as Ha. cbv zeta in Ha.
    destruct (Array.find (has_id id) _) as [found|] eqn:Hfind.
    + pose proof (find_has_id _ _ _ Hfind) as [Hin Hid].
      destruct (proj1 (Forall_forall _ _) Hvalid found Hin) as (Htype & Hok & _).
      rewrite Htype in Ha. change (String.eqb "ERC20" "ERC20") with true in Ha.
      cbv iota in Ha. rewrite Ha. project.
      exists found. split; [assumption|]. split; [assumption|].
      split; [reflexivity|]. split; [apply put_token_has_new|].
      split; [now apply toChecksumAddress_valid, validateTokenToWatch_address|].
      intros left Hleft. apply filter_elem_of in Hleft as [_ Hleft].
      now apply negb_true_iff, String.eqb_neq in Hleft.
    + exfalso. pose proof (proj1 (find_None _ _) Hfind m Hm) as Hnone.
      unfold has_id, id in Hnone. rewrite String.eqb_refl in Hnone. discriminate.
Qed.

Lemma stored_suggestions_are_valid_and_can_be_accepted_witness :
  suggestions_valid newAssetsController
  /\ suggestions_valid SampleWatch.watching
  /\ suggestions_valid (rejectWatchAsset "id-1" SampleWatch.watching).
Proof.
  assert (H : suggestions_valid newAssetsController) by constructor.
  destruct (stored_suggestions_are_valid_and_can_be_accepted newAssetsController H)
    as (Hwatch & _).
  pose proof (Hwatch SampleWatch.asset "ERC20" "id-1" 1%Z) as Hwatching.
  destruct (stored_suggestions_are_valid_and_can_be_accepted
              (snd (watchAsset SampleWatch.asset "ERC20" "id-1" 1 newAssetsController))
              Hwatching) as (_ & _ & Hreject & _).
  split; [exact H|]. split; [exact Hwatching | exact (Hreject _)].
Defined.

(** ** Changing the currency *)

Section CurrencyChange.
Import CurrencyRate.
Variables (c : CurrencyRate.t) (requested : string).

Let s := state c.
Let currency := Js.or_else (Some requested) (currentCurrency s).
Let native := Js.or_else (pendingNativeCurrency s) (nativeCurrency s).

(** X16. When the price fetch fails during setCurrentCurrency, the call throws
    the error of the fetch, the current currency and the conversion rate stay as
    they were, and the requested currency stays pending; the next timer tick
    whose fetch succeeds commits it: the requested currency (the old one, if the
    requested symbol is empty) becomes current, the pending field is cleared and
    the rate is the fetched one. *)
Theorem failed_currency_change_stays_pending
    (down up : Fetch) (error : JsError) (rates : Rates) :
  down currency native (includeUsdRate c) = Throw error ->
  up currency native (includeUsdRate c) = Ok rates ->
  let failed := setCurrentCurrency down requested c in
  let retried := intervalCallback up (snd failed) in
  fst failed = Throw error
  /\ currentCurrency (state (snd failed)) = currentCurrency s
  /\ conversionRate (state (snd failed)) = conversionRate s
  /\ pendingCurrentCurrency (state (snd failed)) = Some requested
  /\ fst retried = Some tt
  /\ currentCurrency (state (snd retried)) = currency
  /\ pendingCurrentCurrency (state (snd retried)) = None
  /\ conversionRate (state (snd retried)) = rates_conversionRate rates.
Proof.
  intros Hdown Hup failed retried. subst failed retried.
  unfold setCurrentCurrency, intervalCallback, updateExchangeRate.
  cbn [state pendingCurrentCurrency currentCurrency pendingNativeCurrency
       nativeCurrency includeUsdRate].
  fold s. fold currency native. rewrite Hdown.
  cbn [snd fst state pendingCurrentCurrency currentCurrency pendingNativeCurrency
       nativeCurrency includeUsdRate conversionRate].
  fold s. fold currency native. rewrite Hup.
  repeat split.
Qed.
End CurrencyChange.

Lemma failed_currency_change_stays_pending_witness :
  let failed :=
    CurrencyRate.setCurrentCurrency SampleRates.down "eur" SampleRates.idle in
  let retried := CurrencyRate.intervalCallback SampleRates.up (snd failed) in
  fst failed = Throw (Error "Fetch failed")
  /\ CurrencyRate.currentCurrency (CurrencyRate.state (snd failed)) = "usd"
  /\ CurrencyRate.conversionRate (CurrencyRate.state (snd failed)) = 0%Q
  /\ CurrencyRate.pendingCurrentCurrency (CurrencyRate.state (snd failed))
     = Some "eur"
  /\ fst retried = Some tt
  /\ CurrencyRate.currentCurrency (CurrencyRate.state (snd retried)) = "eur"
  /\ CurrencyRate.pendingCurrentCurrency (CurrencyRate.state (snd retried)) = None
  /\ CurrencyRate.conversionRate (CurrencyRate.state (snd retried)) = 1800%Q.
Proof.
  apply (failed_currency_change_stays_pending SampleRates.idle "eur"
           SampleRates.down SampleRates.up (Error "Fetch failed")
           {| CurrencyRate.rates_conversionDate := 1600000180;
              CurrencyRate.rates_conversionRate := 1800;
              CurrencyRate.rates_usdConversionRate := CurrencyRate.NaN |});
    reflexivity.
Defined.



(** ** Timers *)

Lemma stopPolling_clears (c : CurrencyRate.t) :
  own_timer_only c -> CurrencyRate.timers (CurrencyRate.stopPolling c) = [].
Proof.
  intros [Hnone|(handle & Hid & Hone)]; unfold CurrencyRate.stopPolling.
  - destruct (CurrencyRate.intervalId c); [|assumption].
    cbn [CurrencyRate.timers]. now rewrite Hnone.
  - rewrite Hid. cbn [CurrencyRate.timers]. rewrite Hone. simpl.
    now rewrite Nat.eqb_refl.
Qed.

Lemma updateExchangeRate_timers (fetchExchangeRate : CurrencyRate.Fetch)
    (c : CurrencyRate.t) :
  let c' := snd (CurrencyRate.updateExchangeRate fetchExchangeRate c) in
  CurrencyRate.timers c' = CurrencyRate.timers c
  /\ CurrencyRate.intervalId c' = CurrencyRate.intervalId c.
Proof.
  unfold CurrencyRate.updateExchangeRate.
  destruct (fetchExchangeRate _ _ _); split; reflexivity.
Qed.

(** X18. From a controller with no timer set but its own, start() leaves exactly
    one timer set, the one recorded in intervalId; stop() leaves none and does
    not change the state, and after stop() no tick changes the controller;
    setCurrentCurrency, setNativeCurrency and a timer tick set no further timer. *)
Theorem polling_sets_one_timer_and_stop_clears_it
    (fetchExchangeRate : CurrencyRate.Fetch) (c : CurrencyRate.t) :
  own_timer_only c ->
  let started := snd (CurrencyRate.start fetchExchangeRate c) in
  let stopped := CurrencyRate.stop c in
  (exists handle,
     CurrencyRate.intervalId started = Some handle
     /\ CurrencyRate.timers started = [handle])
  /\ CurrencyRate.timers stopped = []
  /\ CurrencyRate.state stopped = CurrencyRate.state c
  /\ (forall fetches, CurrencyRate.ticks fetches stopped = stopped)
  /\ (forall requested,
        own_timer_only
          (snd (CurrencyRate.setCurrentCurrency fetchExchangeRate requested c))
        /\ own_timer_only
             (snd (CurrencyRate.setNativeCurrency fetchExchangeRate requested c)))
  /\ own_timer_only (snd (CurrencyRate.intervalCallback fetchExchangeRate c)).
Proof.
  intros Hown started stopped. subst started stopped.
  unfold CurrencyRate.start, CurrencyRate.stop.
  pose proof (stopPolling_clears c Hown) as Hclear.
  split; [|split; [|split; [|split; [|split]]]].
  - unfold CurrencyRate.startPolling, CurrencyRate.intervalCallback.
    destruct (updateExchangeRate_timers fetchExchangeRate
                (CurrencyRate.stopPolling c)) as [Ht _].
    destruct (CurrencyRate.updateExchangeRate _ _) as [outcome c2].
    cbn [snd CurrencyRate.intervalId CurrencyRate.timers] in *.
    rewrite Ht, Hclear. eexists. split; reflexivity.
  - exact Hclear.
  - unfold CurrencyRate.stopPolling. now destruct (CurrencyRate.intervalId c).
  - intros fetches. destruct fetches as [|f rest]; [reflexivity|]. simpl.
    rewrite Hclear. simpl.
    now destruct (CurrencyRate.intervalId (CurrencyRate.stopPolling c)).
  - intros requested.
    unfold CurrencyRate.setCurrentCurrency, CurrencyRate.setNativeCurrency.
    split.
    + match goal with
      | |- own_timer_only (snd (CurrencyRate.updateExchangeRate _ ?c0)) =>
          destruct (updateExchangeRate_timers fetchExchangeRate c0) as [Ht Hi]
      end.
      unfold own_timer_only. rewrite Ht, Hi. exact Hown.
    + match goal with
      | |- own_timer_only (snd (CurrencyRate.updateExchangeRate _ ?c0)) =>
          destruct (updateExchangeRate_timers fetchExchangeRate c0) as [Ht Hi]
      end.
      unfold own_timer_only. rewrite Ht, Hi. exact Hown.
  - unfold CurrencyRate.intervalCallback.
    destruct (updateExchangeRate_timers fetchExchangeRate c) as [Ht Hi].
    destruct (CurrencyRate.updateExchangeRate _ _) as [outcome c2].
    cbn [snd] in *. unfold own_timer_only. rewrite Ht, Hi. exact Hown.
Qed.

Lemma polling_sets_one_timer_and_stop_clears_it_witness :
  own_timer_only SampleRates.polling
  /\ CurrencyRate.timers (CurrencyRate.stop SampleRates.polling) = []
  /\ forall fetches,
       CurrencyRate.ticks fetches (CurrencyRate.stop SampleRates.polling)
       = CurrencyRate.stop SampleRates.polling.
Proof.
  assert (H : own_timer_only SampleRates.polling).
  { right. exists 1%nat. split; reflexivity. }
  pose proof (polling_sets_one_timer_and_stop_clears_it SampleRates.down
                SampleRates.polling H) as Hw.
  cbv zeta in Hw. destruct Hw as (_ & Hstopped & _ & Hticks & _).
  split; [exact H|]. split; [exact Hstopped | exact Hticks].
Defined.

(** ** Numbers and hexadecimal text, on examples *)

Example parseInt_examples :
  Js.parseInt "42" = Some 42%Z
  /\ Js.parseInt "  +7up" = Some 7%Z
  /\ Js.parseInt "-12" = Some (-12)%Z
  /\ Js.parseInt "0x10" = Some 0%Z
  /\ Js.parseInt "" = None
  /\ Js.parseInt "abc" = None
  /\ Js.parseInt "1e3" = Some 1%Z.
Proof. repeat split. Qed.

Example isNaN_Number_examples :
  map Js.isNaN_Number
    [ "42"; ""; "  "; " 12 "; "0x10"; "0x"; "0xzz"; "1e3"; "1e"; "12abc";
      "Infinity"; "+Infinity"; "+0x10"; "."; "1."; ".5"; "1.5e+3"; "0b101";
      "0o17"; "0o8"; "abc"; "1 2" ]
  = [ false; false; false; false; false; true; true; false; true; true;
      false; false; true; true; false; false; false; false;
      false; true; true; true ].
Proof. reflexivity. Qed.

Example BNToHex_examples :
  BNToHex 255 = "0xff" /\ BNToHex 0 = "0x0" /\ BNToHex (-4096) = "0x-1000"
  /\ BNToHex 1000000000000000000 = "0xde0b6b3a7640000"
  /\ hexToBN "0xde0b6b3a7640000" = Some 1000000000000000000%Z
  /\ hexToBN "FF" = Some 255%Z /\ hexToBN "0x" = None /\ hexToBN "-" = None
  /\ hexToBN "0x-1000" = Some (-4096)%Z
  /\ hexToBN "0xfg" = None.
Proof. repeat split. Qed.

(** ** The price request *)

Lemma upper_lower_char (c : ascii) :
  Js.upper_char (Js.lower_char c) = Js.upper_char c.
Proof. destruct c as [[] [] [] [] [] [] [] []]; reflexivity. Qed.

Lemma upper_upper_char (c : ascii) :
  Js.upper_char (Js.upper_char c) = Js.upper_char c.
Proof. destruct c as [[] [] [] [] [] [] [] []]; reflexivity. Qed.

Lemma toUpperCase_toLowerCase (s : string) :
  Js.toUpperCase (Js.toLowerCase s) = Js.toUpperCase s.
Proof.
  induction s as [|c s IH]; simpl; [reflexivity|].
  now rewrite upper_lower_char, IH.
Qed.

Lemma toUpperCase_idemp (s : string) :
  Js.toUpperCase (Js.toUpperCase s) = Js.toUpperCase s.
Proof.
  induction s as [|c s IH]; simpl; [reflexivity|].
  now rewrite upper_upper_char, IH.
Qed.

Lemma append_nil_r (s : string) : s +:+ "" = s.
Proof.
  induction s as [|c s IH]; [reflexivity|].
  change (String c (s +:+ "") = String c s). now rewrite IH.
Qed.

Lemma append_assoc (s1 s2 s3 : string) :
  (s1 +:+ s2) +:+ s3 = s1 +:+ (s2 +:+ s3).
Proof.
  induction s1 as [|c s1 IH]; [reflexivity|].
  change (String c ((s1 +:+ s2) +:+ s3) = String c (s1 +:+ (s2 +:+ s3))).
  now rewrite IH.
Qed.

(** X19. The URL of getPricingURL does not depend on the letter case of the two
    symbols. When the current currency is usd the URL asks for USD once, whether
    or not the USD rate is included; for any other current currency, including
    the USD rate appends ',USD' to the URL built without it. *)
Theorem getPricingURL_ignores_case_and_lists_usd_once
    (currentCurrency nativeCurrency : string) (includeUSDRate : bool) :
  getPricingURL (Js.toLowerCase currentCurrency) (Js.toLowerCase nativeCurrency)
    includeUSDRate
  = getPricingURL currentCurrency nativeCurrency includeUSDRate
  /\ getPricingURL (Js.toUpperCase currentCurrency)
       (Js.toUpperCase nativeCurrency) includeUSDRate
     = getPricingURL currentCurrency nativeCurrency includeUSDRate
  /\ getPricingURL "usd" nativeCurrency includeUSDRate
     = "https://min-api.cryptocompare.com/data/price?fsym="
       +:+ Js.toUpperCase nativeCurrency +:+ "&tsyms=USD"
  /\ (Js.toUpperCase currentCurrency <> "USD" ->
      getPricingURL currentCurrency nativeCurrency true
      = getPricingURL currentCurrency nativeCurrency false +:+ ",USD").
Proof.
  unfold getPricingURL. split; [|split; [|split]].
  - now rewrite !toUpperCase_toLowerCase.
  - now rewrite !toUpperCase_idemp.
  - cbn [Js.toUpperCase Js.upper_char]. change (Js.toUpperCase "usd") with "USD".
    change (String.eqb "USD" "USD") with true. rewrite andb_false_r.
    reflexivity.
  - intros Hother. rewrite (proj2 (String.eqb_neq _ _) Hother).
    cbn [andb negb]. rewrite !append_assoc. reflexivity.
Qed.

Lemma getPricingURL_ignores_case_and_lists_usd_once_witness :
  getPricingURL "eur" "eth" true
  = getPricingURL "eur" "eth" false +:+ ",USD".
Proof.
  apply (getPricingURL_ignores_case_and_lists_usd_once "eur" "eth" true).
  discriminate.
Defined.

(** ** Message data *)

Lemma hexRe_not_prefixed (s : string) : hexRe s = true -> isHexPrefixed s = false.
Proof.
  destruct s as [|a s]; [reflexivity|].
  destruct a as [[] [] [] [] [] [] [] []]; try reflexivity.
  destruct s as [|b s]; [reflexivity|].
  destruct b as [[] [] [] [] [] [] [] []]; try reflexivity.
  discriminate.
Qed.

Lemma addHexPrefix_hexRe (s : string) : hexRe s = true -> addHexPrefix s = "0x" +:+ s.
Proof. intros H. unfold addHexPrefix. now rewrite (hexRe_not_prefixed s H). Qed.

(** The two digits written for a byte are hexadecimal digits and denote it. *)
Lemma byte_digits (c : ascii) :
  let b := N_of_ascii c in
  Js.is_hex (hex_digit (N.shiftr b 4)) = true
  /\ Js.is_hex (hex_digit (N.land b 15)) = true
  /\ Js.hex_value (hex_digit (N.shiftr b 4)) = Some (N.shiftr b 4)
  /\ Js.hex_value (hex_digit (N.land b 15)) = Some (N.land b 15)
  /\ (16 * N.shiftr b 4 + N.land b 15)%N = b.
Proof. destruct c as [[] [] [] [] [] [] [] []]; repeat split. Qed.

Lemma hex_of_utf8_bytes (s : string) :
  Js.all_chars Js.is_hex (hex_of_bytes (utf8_bytes s)) = true
  /\ hex_bytes (hex_of_bytes (utf8_bytes s)) = utf8_bytes s
  /\ (s <> "" -> Js.truthy (hex_of_bytes (utf8_bytes s)) = true).
Proof.
  unfold utf8_bytes. induction s as [|c s (IH1 & IH2 & _)].
  - repeat split. congruence.
  - destruct (byte_digits c) as (H1 & H2 & H3 & H4 & H5).
    cbn [list_ascii_of_string map hex_of_bytes Js.all_chars hex_bytes Js.truthy]
      in *.
    rewrite H1, H2, H3, H4, H5, IH1, IH2. repeat split.
Qed.

(** X20. normalizeMessageData always returns 0x-prefixed hexadecimal text: data
    that are hexadecimal digits after an optional 0x prefix are returned with
    the prefix, any other data as the hexadecimal text of their UTF-8 bytes,
    from which those bytes are read back. It is idempotent on non-empty data,
    while the empty string gives '0x' and '0x' gives '0x3078'. *)
Theorem normalizeMessageData_gives_hexadecimal_text (data : string) :
  let normal := normalizeMessageData data in
  isHexString normal = true
  /\ (if hexRe (stripHexPrefix data)
      then normal = "0x" +:+ stripHexPrefix data
      else hex_bytes (stripHexPrefix normal) = utf8_bytes data)
  /\ (data <> "" -> normalizeMessageData normal = normal)
  /\ normalizeMessageData "" = "0x"
  /\ normalizeMessageData "0x" = "0x3078".
Proof.
  intros normal. subst normal.
  destruct (hex_of_utf8_bytes data) as (Hhex & Hbytes & Hsome).
  assert (Hcases :
    (hexRe (stripHexPrefix data) = true
     /\ normalizeMessageData data = "0x" +:+ stripHexPrefix data)
    \/ (hexRe (stripHexPrefix data) = false
        /\ normalizeMessageData data = "0x" +:+ hex_of_bytes (utf8_bytes data))).
  { unfold normalizeMessageData.
    destruct (hexRe (stripHexPrefix data)) eqn:Hre; [left|right];
      (split; [reflexivity|]); [now apply addHexPrefix_hexRe | reflexivity]. }
  assert (Hagain : forall s, hexRe s = true ->
            normalizeMessageData ("0x" +:+ s) = "0x" +:+ s).
  { intros s Hs. unfold normalizeMessageData. rewrite stripHexPrefix_0x, Hs.
    now apply addHexPrefix_hexRe. }
  split; [|split; [|split; [|split; reflexivity]]].
  - destruct Hcases as [[Hre ->]|[Hre ->]].
    + unfold hexRe in Hre. apply andb_true_iff in Hre as [_ Hre]. exact Hre.
    + exact Hhex.
  - destruct Hcases as [[Hre ->]|[Hre ->]]; rewrite Hre; [reflexivity|].
    now rewrite stripHexPrefix_0x.
  - intros Hdata. destruct Hcases as [[Hre ->]|[Hre ->]].
    + now apply Hagain.
    + apply Hagain. unfold hexRe. now rewrite Hhex, (Hsome Hdata).
Qed.

Lemma normalizeMessageData_gives_hexadecimal_text_witness :
  normalizeMessageData (normalizeMessageData "Hello") = normalizeMessageData "Hello".
Proof.
  apply (normalizeMessageData_gives_hexadecimal_text "Hello"). discriminate.
Defined.

(** ** Big numbers as hexadecimal text *)

Lemma nibble_cases (d : N) :
  (d < 16)%N ->
  d = 0%N \/ d = 1%N \/ d = 2%N \/ d = 3%N \/ d = 4%N \/ d = 5%N \/ d = 6%N
  \/ d = 7%N \/ d = 8%N \/ d = 9%N \/ d = 10%N \/ d = 11%N \/ d = 12%N
  \/ d = 13%N \/ d = 14%N \/ d = 15%N.
Proof. lia. Qed.

Lemma hex_digit_read (d : N) :
  (d < 16)%N ->
  Js.hex_value (hex_digit d) = Some d
  /\ Js.is_whitespace (hex_digit d) = false
  /\ hex_digit d <> "-"%char
  /\ hex_digit d <> "x"%char.
Proof.
  intros Hd. apply nibble_cases in Hd.
  repeat (destruct Hd as [->|Hd]; [repeat split; discriminate|]).
  subst d. repeat split; discriminate.
Qed.

Lemma land_15 (n : N) : (N.land n 15 < 16)%N /\ (16 * N.shiftr n 4 + N.land n 15 = n)%N.
Proof.
  change 15%N with (N.ones 4). rewrite N.land_ones, N.shiftr_div_pow2.
  change (2 ^ 4)%N with 16%N. split.
  - apply N.mod_lt. discriminate.
  - symmetry. apply N.div_mod. discriminate.
Qed.

Lemma parseHex_app (l : list ascii) (c : ascii) :
  BN.parseHex (l ++ [c]) = BN.shift_in (BN.parseHex l) c.
Proof. unfold BN.parseHex. now rewrite fold_left_app. Qed.

Lemma hex_digits_S (fuel : nat) (n : N) :
  hex_digits (S fuel) n
  = if (n <? 16)%N then [hex_digit n]
    else hex_digits fuel (N.shiftr n 4) ++ [hex_digit (N.land n 15)].
Proof. reflexivity. Qed.

Lemma hex_digits_read (fuel : nat) (n : N) :
  (n < 2 ^ N.of_nat (S fuel))%N ->
  let digits := hex_digits (S fuel) n in
  BN.parseHex digits = Some n
  /\ Forall (fun c => Js.is_whitespace c = false /\ c <> "-"%char /\ c <> "x"%char)
       digits
  /\ digits <> [].
Proof.
  revert n. induction fuel as [|fuel IH]; intros n Hn;
    cbv zeta; rewrite hex_digits_S;
    destruct (N.ltb_spec n 16) as [Hsmall|Hbig].
  - destruct (hex_digit_read n Hsmall) as (Hread & Hws & Hminus & Hx).
    split; [|split; [|discriminate]].
    + change (BN.parseHex [hex_digit n])
        with (BN.shift_in (Some 0%N) (hex_digit n)).
      unfold BN.shift_in. rewrite Hread. reflexivity.
    + apply Forall_singleton. auto.
  - simpl in Hn. lia.
  - destruct (hex_digit_read n Hsmall) as (Hread & Hws & Hminus & Hx).
    split; [|split; [|discriminate]].
    + change (BN.parseHex [hex_digit n])
        with (BN.shift_in (Some 0%N) (hex_digit n)).
      unfold BN.shift_in. rewrite Hread. reflexivity.
    + apply Forall_singleton. auto.
  - destruct (land_15 n) as [Hlt Hsum].
    destruct (hex_digit_read _ Hlt) as (Hread & Hws & Hminus & Hx).
    assert (Hrest : (N.shiftr n 4 < 2 ^ N.of_nat (S fuel))%N).
    { rewrite N.shiftr_div_pow2. change (2 ^ 4)%N with 16%N.
      rewrite (Nat2N.inj_succ (S fuel)), N.pow_succ_r' in Hn.
      apply N.Div0.div_lt_upper_bound. lia. }
    destruct (IH _ Hrest) as (IHread & IHall & IHsome).
    split; [|split].
    + rewrite parseHex_app, IHread. unfold BN.shift_in. rewrite Hread.
      f_equal. exact Hsum.
    + apply Forall_app. split; [assumption|]. apply Forall_singleton. auto.
    + intros Hnil. apply app_eq_nil in Hnil as [_ Hnil]. discriminate.
Qed.

Lemma filter_all {A : Type} (p : A -> bool) (l : list A) :
  Forall (fun x => p x = true) l -> List.filter p l = l.
Proof.
  induction 1 as [|x l Hx _ IH]; simpl; [reflexivity|]. now rewrite Hx, IH.
Qed.

Lemma positive_digits (p : positive) :
  let digits := hex_digits (S (N.to_nat (N.log2 (Npos p)))) (Npos p) in
  BN.parseHex digits = Some (Npos p)
  /\ Forall (fun c => Js.is_whitespace c = false /\ c <> "-"%char /\ c <> "x"%char)
       digits
  /\ digits <> [].
Proof.
  apply hex_digits_read.
  rewrite Nat2N.inj_succ, N2Nat.id. apply N.log2_spec. reflexivity.
Qed.

(** X21. hexToBN reads back the number that BNToHex wrote, for every integer (a
    negative one is written as 0x followed by a minus sign and the digits), and
    BNToHex always returns a 0x-prefixed string. *)
Theorem hexToBN_reads_back_BNToHex (inputBn : Z) :
  hexToBN (BNToHex inputBn) = Some inputBn
  /\ isHexPrefixed (BNToHex inputBn) = true.
Proof.
  unfold hexToBN, BNToHex.
  destruct inputBn as [|p|p]; [split; reflexivity| |].
  - destruct (positive_digits p) as (Hread & Hall & Hsome).
    cbn [BN.toString]. set (digits := hex_digits _ _) in *.
    assert (Hprefix : isHexPrefixed (string_of_list_ascii digits) = false).
    { destruct digits as [|a [|b digits]]; [congruence|..].
      - simpl. now destruct a as [[] [] [] [] [] [] [] []].
      - apply Forall_cons in Hall as [_ Hall].
        apply Forall_cons in Hall as [(_ & _ & Hb) _].
        simpl. destruct a as [[] [] [] [] [] [] [] []]; try reflexivity.
        destruct b as [[] [] [] [] [] [] [] []]; try reflexivity. congruence. }
    unfold addHexPrefix. rewrite Hprefix, stripHexPrefix_0x.
    split; [|reflexivity].
    unfold BN.ofString. rewrite list_ascii_of_string_of_list_ascii.
    rewrite filter_all.
    + destruct digits as [|a digits]; [congruence|].
      apply Forall_cons in Hall as [(_ & Ha & _) _].
      destruct (Ascii.eqb_spec a "-") as [->|_]; [congruence|].
      destruct a as [[] [] [] [] [] [] [] []];
        first [ congruence | now rewrite Hread ].
    + eapply Forall_impl; [exact Hall|]. intros c (Hws & _). now rewrite Hws.
  - destruct (positive_digits p) as (Hread & Hall & Hsome).
    cbn [BN.toString]. set (digits := hex_digits _ _) in *.
    unfold addHexPrefix. cbn [isHexPrefixed].
    change (stripHexPrefix ("0x" +:+ ?s)) with s.
    split; [|reflexivity].
    unfold BN.ofString. cbn [list_ascii_of_string List.filter].
    change (negb (Js.is_whitespace "-")) with true. cbv iota.
    rewrite list_ascii_of_string_of_list_ascii, filter_all.
    + destruct digits as [|a digits]; [congruence|]. now rewrite Hread.
    + eapply Forall_impl; [exact Hall|]. intros c (Hws & _). now rewrite Hws.
Qed.

(** ** Transactions *)

Lemma addHexPrefix_prefixed (s : string) : isHexPrefixed (addHexPrefix s) = true.
Proof.
  unfold addHexPrefix. destruct (isHexPrefixed s) eqn:H; [assumption|reflexivity].
Qed.

Lemma isHexPrefixed_truthy (s : string) : isHexPrefixed s = true -> Js.truthy s = true.
Proof. destruct s; [discriminate | reflexivity]. Qed.

Lemma isHexPrefixed_toLowerCase (s : string) :
  isHexPrefixed s = true -> isHexPrefixed (Js.toLowerCase s) = true.
Proof.
  destruct s as [|a [|b s]]; try discriminate.
  - destruct a as [[] [] [] [] [] [] [] []]; discriminate.
  - destruct a as [[] [] [] [] [] [] [] []]; try discriminate.
    destruct b as [[] [] [] [] [] [] [] []]; try discriminate. reflexivity.
Qed.

Lemma addHexPrefix_id (s : string) : isHexPrefixed s = true -> addHexPrefix s = s.
Proof. intros H. unfold addHexPrefix. now rewrite H. Qed.

Lemma addHexPrefix_stable : stable addHexPrefix.
Proof.
  intros v. split; [apply addHexPrefix_prefixed|].
  apply addHexPrefix_id, addHexPrefix_prefixed.
Qed.

Lemma lower_addHexPrefix_stable :
  stable (fun v => Js.toLowerCase (addHexPrefix v)).
Proof.
  intros v. split.
  - apply isHexPrefixed_toLowerCase, addHexPrefix_prefixed.
  - rewrite addHexPrefix_id.
    + apply toLowerCase_idemp.
    + apply isHexPrefixed_toLowerCase, addHexPrefix_prefixed.
Qed.

Lemma normalized_stable (normalizer : string -> string) (field : option string) :
  stable normalizer ->
  normalized normalizer (normalized normalizer field) = normalized normalizer field
  /\ forall v, normalized normalizer field = Some v -> isHexPrefixed v = true.
Proof.
  intros Hstable. unfold normalized.
  destruct field as [v|]; [|split; [reflexivity | discriminate]].
  destruct (Js.truthy v); [|split; [reflexivity | discriminate]].
  destruct (Hstable v) as [Hprefixed Hid].
  rewrite (isHexPrefixed_truthy _ Hprefixed), Hid.
  split; [reflexivity|]. now intros w [= <-].
Qed.

(** X22. normalizeTransaction is idempotent. In its result every data, gas,
    gasPrice, nonce, to and value that is present is 0x-prefixed; from is always
    present and in lower case, 0x-prefixed when the input has a non-empty from
    and the empty string otherwise; to is in lower case. *)
Theorem normalizeTransaction_is_idempotent_and_prefixes (transaction : Transaction) :
  let normal := normalizeTransaction transaction in
  normalizeTransaction normal = normal
  /\ (forall v,
        Some v ∈ [ Transaction.data normal; Transaction.gas normal;
                   Transaction.gasPrice normal; Transaction.nonce normal;
                   Transaction.to normal; Transaction.value normal ] ->
        isHexPrefixed v = true)
  /\ (exists from,
        Transaction.from normal = Some from
        /\ Js.toLowerCase from = from
        /\ if Js.truthy_opt (Transaction.from transaction)
           then isHexPrefixed from = true
           else from = "")
  /\ (forall to, Transaction.to normal = Some to -> Js.toLowerCase to = to).
Proof.
  intros normal. subst normal. unfold normalizeTransaction.
  cbn [Transaction.data Transaction.from Transaction.gas Transaction.gasPrice
       Transaction.nonce Transaction.to Transaction.value].
  destruct (normalized_stable _ (Transaction.data transaction) addHexPrefix_stable)
    as [Hdata Hdata'].
  destruct (normalized_stable _ (Transaction.gas transaction) addHexPrefix_stable)
    as [Hgas Hgas'].
  destruct (normalized_stable _ (Transaction.gasPrice transaction)
              addHexPrefix_stable) as [Hprice Hprice'].
  destruct (normalized_stable _ (Transaction.nonce transaction)
              addHexPrefix_stable) as [Hnonce Hnonce'].
  destruct (normalized_stable _ (Transaction.value transaction)
              addHexPrefix_stable) as [Hvalue Hvalue'].
  destruct (normalized_stable _ (Transaction.to transaction)
              lower_addHexPrefix_stable) as [Hto Hto'].
  destruct (normalized_stable _ (Transaction.from transaction)
              lower_addHexPrefix_stable) as [Hfrom Hfrom'].
  rewrite Hdata, Hgas, Hprice, Hnonce, Hvalue, Hto.
  assert (Hfrom2 :
    default ""
      (normalized (fun from => Js.toLowerCase (addHexPrefix from))
         (Some (default ""
                  (normalized (fun from => Js.toLowerCase (addHexPrefix from))
                     (Transaction.from transaction)))))
    = default ""
        (normalized (fun from => Js.toLowerCase (addHexPrefix from))
           (Transaction.from transaction))).
  { destruct (normalized _ (Transaction.from transaction)) as [v|] eqn:Hv;
      [|reflexivity].
    change (default "" (Some v)) with v. now rewrite Hfrom. }
  rewrite Hfrom2. split; [reflexivity|]. split; [|split].
  - intros v Hv. repeat (apply elem_of_cons in Hv as [Hv|Hv]; [eauto|]).
    inversion Hv.
  - eexists. split; [reflexivity|].
    unfold normalized, Js.truthy_opt.
    destruct (Transaction.from transaction) as [w|]; [|split; reflexivity].
    destruct (Js.truthy w); [|split; reflexivity]. cbn [default]. split.
    + apply toLowerCase_idemp.
    + apply isHexPrefixed_toLowerCase, addHexPrefix_prefixed.
  - intros to Hsome. unfold normalized in Hsome.
    destruct (Transaction.to transaction) as [w|]; [|discriminate].
    destruct (Js.truthy w); [|discriminate]. injection Hsome as <-.
    apply toLowerCase_idemp.
Qed.

(** *** Validation *)

Lemma includes_In (c : ascii) (s : string) :
  Js.includes c s = true <-> In c (list_ascii_of_string s).
Proof.
  induction s as [|c' s IH]; simpl; [split; [discriminate | tauto]|].
  rewrite orb_true_iff, IH. destruct (Ascii.eqb_spec c' c); split; intros H.
  - now left.
  - now left.
  - destruct H as [H|H]; [discriminate | now right].
  - destruct H as [H|H]; [contradiction | now right].
Qed.

Lemma skip_whitespace_suffix (l : list ascii) (c : ascii) :
  In c (Js.skip_whitespace l) -> In c l.
Proof.
  induction l as [|a l IH]; simpl; [tauto|].
  destruct (Js.is_whitespace a); [auto | trivial].
Qed.

Lemma decimal_prefix_digits (l : list ascii) :
  Forall (fun c => Js.is_digit c = true) (fst (Js.decimal_prefix l)).
Proof.
  induction l as [|c l IH]; simpl; [constructor|].
  destruct (Js.is_digit c) eqn:Hc; [|constructor].
  destruct (Js.decimal_prefix l) as [digits rest]. simpl in *.
  now constructor.
Qed.

Lemma is_digit_value (c : ascii) :
  Js.is_digit c = true -> (0 <= Js.digit_value c)%Z.
Proof.
  unfold Js.is_digit, Js.digit_value. intros H.
  apply andb_true_iff in H as [H _]. apply N.leb_le in H. lia.
Qed.

Lemma decimal_value_nonneg (digits : list ascii) :
  Forall (fun c => Js.is_digit c = true) digits ->
  (0 <= Js.decimal_value digits)%Z.
Proof.
  unfold Js.decimal_value. intros H.
  assert (Hacc : forall acc, (0 <= acc)%Z ->
            (0 <= fold_left (fun acc c => 10 * acc + Js.digit_value c) digits acc)%Z).
  { induction H as [|c digits Hc _ IH]; intros acc Hacc; simpl; [assumption|].
    apply IH. pose proof (is_digit_value c Hc). lia. }
  apply Hacc. lia.
Qed.

(** Without a minus sign in the text, [parseInt] is not negative. *)
Lemma parseInt_nonneg (value : string) (n : Z) :
  Js.includes "-" value = false -> Js.parseInt value = Some n -> (0 <= n)%Z.
Proof.
  intros Hminus. unfold Js.parseInt.
  assert (Hnot : ~ In "-"%char (Js.skip_whitespace (list_ascii_of_string value))).
  { intros Hin. apply skip_whitespace_suffix, includes_In in Hin. congruence. }
  destruct (Js.skip_whitespace (list_ascii_of_string value)) as [|a l] eqn:Hl.
  - simpl. discriminate.
  - assert (Hcase :
      (let '(sign, inputString) :=
         match a :: l with
         | "-"%char :: rest => ((-1)%Z, rest)
         | "+"%char :: rest => (1%Z, rest)
         | _ => (1%Z, a :: l)
         end in
       match fst (Js.decimal_prefix inputString) with
       | [] => None
       | digits => Some (sign * Js.decimal_value digits)%Z
       end)
      = match fst (Js.decimal_prefix (if Ascii.eqb a "+" then l else a :: l)) with
        | [] => None
        | digits => Some (1 * Js.decimal_value digits)%Z
        end).
    { destruct (Ascii.eqb_spec a "-") as [->|Ha]; [exfalso; apply Hnot; now left|].
      destruct a as [[] [] [] [] [] [] [] []]; try reflexivity. congruence. }
    rewrite Hcase. clear Hcase.
    pose proof (decimal_prefix_digits (if Ascii.eqb a "+" then l else a :: l))
      as Hdigits.
    destruct (fst (Js.decimal_prefix _)) as [|d digits]; [discriminate|].
    intros [= <-]. pose proof (decimal_value_nonneg _ Hdigits). lia.
Qed.

(** X23. A transaction that validateTransaction accepts has a from that is a
    valid address; its to is a valid address, or is missing or '0x' with non-
    empty data (and is then deleted); data, from and value are left as they
    were; a value that is present has no '-' and no '.', converts to a number,
    and parses as a decimal integer between 0 and 2^53 - 1. *)
Theorem validateTransaction_accepts_only_well_formed_transactions
    (transaction accepted : Transaction) :
  validateTransaction transaction = Ok accepted ->
  (exists from,
     Transaction.from transaction = Some from /\ isValidAddress from = true)
  /\ match Transaction.to accepted with
     | Some to => isValidAddress to = true /\ accepted = transaction
     | None =>
         Js.truthy_opt (Transaction.data transaction) = true
         /\ (Transaction.to transaction = None
             \/ Transaction.to transaction = Some "0x")
     end
  /\ Transaction.data accepted = Transaction.data transaction
  /\ Transaction.from accepted = Transaction.from transaction
  /\ Transaction.value accepted = Transaction.value transaction
  /\ (forall value,
        Transaction.value transaction = Some value ->
        Js.includes "-" value = false
        /\ Js.includes "." value = false
        /\ Js.isNaN_Number value = false
        /\ exists n,
             Js.parseInt value = Some n
             /\ (0 <= n <= Js.MAX_SAFE_INTEGER)%Z).
Proof.
  unfold validateTransaction, invalid_from.
  destruct (Transaction.from transaction) as [from|] eqn:Hfrom;
    [|discriminate].
  destruct (Js.truthy from); cbn [negb orb]; [|discriminate].
  destruct (isValidAddress from) eqn:Hvalid; cbn [negb orb]; [|discriminate].
  set (outcome := match Transaction.to transaction with
                  | Some _ => _ | None => _ end).
  destruct outcome as [checked|e] eqn:Hchecked; [|discriminate].
  assert (Hto :
    match Transaction.to checked with
    | Some to => isValidAddress to = true /\ checked = transaction
    | None =>
        Js.truthy_opt (Transaction.data transaction) = true
        /\ (Transaction.to transaction = None
            \/ Transaction.to transaction = Some "0x")
    end
    /\ Transaction.data checked = Transaction.data transaction
    /\ Transaction.from checked = Transaction.from transaction
    /\ Transaction.value checked = Transaction.value transaction).
  { subst outcome.
    destruct (Transaction.to transaction) as [to|] eqn:Hto.
    - destruct (String.eqb_spec to "0x") as [->|Hother].
      + destruct (Js.truthy_opt (Transaction.data transaction)) eqn:Hdata;
          [|discriminate].
        injection Hchecked as <-. simpl. auto.
      + destruct (isValidAddress to) eqn:Hvalidto; [|discriminate].
        injection Hchecked as <-. rewrite Hto. auto.
    - destruct (Js.truthy_opt (Transaction.data transaction)) eqn:Hdata;
        [|discriminate].
      injection Hchecked as <-. rewrite Hto. auto. }
  clear Hchecked. destruct Hto as (Hto & Hd & Hf & Hv).
  rewrite <- Hv.
  destruct (Transaction.value checked) as [value|] eqn:Hvalue.
  - destruct (Js.includes "-" value) eqn:Hminus; [discriminate|].
    destruct (Js.includes "." value) eqn:Hpoint; [discriminate|].
    cbv zeta.
    destruct (Js.Number_isFinite (Js.parseInt value)
              && negb (Js.Number_isNaN (Js.parseInt value))
              && negb (Js.isNaN_Number value)
              && Js.Number_isSafeInteger (Js.parseInt value)) eqn:HisValid;
      [|discriminate].
    apply andb_true_iff in HisValid as [HisValid Hsafe].
    apply andb_true_iff in HisValid as [_ Hnan]. apply negb_true_iff in Hnan.
    cbn [negb]. intros [= <-].
    split; [eauto|]. split; [exact Hto|]. split; [exact Hd|].
    split; [congruence|]. split; [assumption|].
    intros value' [= <-]. split; [assumption|]. split; [assumption|].
    split; [assumption|].
    unfold Js.Number_isSafeInteger in Hsafe.
    destruct (Js.parseInt value) as [n|] eqn:Hparse; [|discriminate].
    exists n. split; [reflexivity|]. apply Z.leb_le in Hsafe.
    pose proof (parseInt_nonneg value n Hminus Hparse). lia.
  - intros [= <-]. split; [eauto|]. split; [exact Hto|]. split; [exact Hd|].
    split; [congruence|]. split; [assumption|]. discriminate.
Qed.

Lemma validateTransaction_accepts_only_well_formed_transactions_witness :
  exists from,
    Transaction.from SampleTransaction.transfer = Some from
    /\ isValidAddress from = true.
Proof.
  destruct (validateTransaction_accepts_only_well_formed_transactions
              SampleTransaction.transfer SampleTransaction.transfer eq_refl)
    as [H _].
  exact H.
Defined.

Lemma hex_char_plain (c : ascii) :
  Js.is_hex c = true ->
  Js.is_whitespace c = false /\ Ascii.eqb c "-" = false /\ Ascii.eqb c "." = false.
Proof. destruct c as [[] [] [] [] [] [] [] []]; try discriminate; repeat split. Qed.

Lemma all_chars_forallb (p : ascii -> bool) (s : string) :
  Js.all_chars p s = forallb p (list_ascii_of_string s).
Proof. induction s as [|c s IH]; simpl; [reflexivity | now rewrite IH]. Qed.

Lemma hex_text_includes (s : string) :
  Js.all_chars Js.is_hex s = true ->
  Js.includes "-" s = false /\ Js.includes "." s = false.
Proof.
  induction s as [|c s IH]; simpl; [auto|].
  intros H. apply andb_true_iff in H as [Hc Hs].
  destruct (hex_char_plain c Hc) as (_ & -> & ->). now apply IH.
Qed.

Lemma skip_whitespace_none (l : list ascii) :
  match l with
  | c :: _ => Js.is_whitespace c = false
  | [] => True
  end ->
  Js.skip_whitespace l = l.
Proof. destruct l as [|c l]; [reflexivity|]. simpl. now intros ->. Qed.

Lemma hex_literal_is_a_number (digits : string) :
  hexRe digits = true -> Js.isNaN_Number ("0x" +:+ digits) = false.
Proof.
  unfold hexRe. intros H. apply andb_true_iff in H as [Hsome Hhex].
  rewrite all_chars_forallb in Hhex.
  unfold Js.isNaN_Number.
  change (list_ascii_of_string ("0x" +:+ digits))
    with ("0"%char :: "x"%char :: list_ascii_of_string digits).
  set (ds := list_ascii_of_string digits) in *.
  assert (Hds : ds <> []) by (subst ds; destruct digits; [discriminate|]; discriminate).
  rewrite (skip_whitespace_none ("0"%char :: "x"%char :: ds)) by reflexivity.
  rewrite skip_whitespace_none.
  - rewrite rev_involutive. cbn [Js.numeric_literal Js.is_nil orb].
    change (Ascii.eqb "x" "x") with true. cbn [orb].
    rewrite Hhex. destruct ds; [congruence|]. reflexivity.
  - destruct (exists_last Hds) as (ds' & z & Hlast).
    rewrite Hlast. change ("0"%char :: "x"%char :: ds' ++ [z])
      with (("0"%char :: "x"%char :: ds') ++ [z]).
    rewrite rev_unit. rewrite Hlast in Hhex.
    rewrite forallb_app in Hhex. apply andb_true_iff in Hhex as [_ Hz].
    simpl in Hz. rewrite andb_true_r in Hz. now destruct (hex_char_plain z Hz).
Qed.

(** X24. If validateTransaction accepts a transaction without a value, it
    accepts the same transaction with any value that is 0x followed by
    hexadecimal digits, whatever its magnitude: parseInt(value, 10) reads such a
    value as 0, so the checks of the integer say nothing about the amount. *)
Theorem validateTransaction_accepts_hexadecimal_quantities
    (transaction accepted : Transaction) (digits : string) :
  validateTransaction (with_value None transaction) = Ok accepted ->
  hexRe digits = true ->
  validateTransaction (with_value (Some ("0x" +:+ digits)) transaction)
  = Ok (with_value (Some ("0x" +:+ digits)) accepted)
  /\ Js.parseInt ("0x" +:+ digits) = Some 0%Z.
Proof.
  intros Hok Hdigits.
  assert (Hparse : Js.parseInt ("0x" +:+ digits) = Some 0%Z) by reflexivity.
  split; [|assumption].
  pose proof (hex_literal_is_a_number digits Hdigits) as Hnan.
  assert (Hinc : Js.includes "-" ("0x" +:+ digits) = false
                 /\ Js.includes "." ("0x" +:+ digits) = false).
  { unfold hexRe in Hdigits. apply andb_true_iff in Hdigits as [_ Hhex].
    destruct (hex_text_includes digits Hhex) as [H1 H2].
    change ("0x" +:+ digits) with (String "0" (String "x" digits)).
    cbn [Js.includes]. now rewrite H1, H2. }
  destruct Hinc as [Hminus Hpoint].
  revert Hok. unfold validateTransaction.
  cbn [with_value Transaction.from Transaction.to Transaction.data
       Transaction.value].
  destruct (invalid_from (Transaction.from transaction)); [discriminate|].
  destruct (Transaction.to transaction) as [to|].
  - destruct (String.eqb to "0x").
    + destruct (Js.truthy_opt (Transaction.data transaction)); [|discriminate].
      cbn [Transaction.value]. intros [= <-].
      rewrite Hminus, Hpoint, Hparse, Hnan. reflexivity.
    + destruct (isValidAddress to); [|discriminate].
      cbn [negb Transaction.value with_value]. intros [= <-].
      rewrite Hminus, Hpoint, Hparse, Hnan. reflexivity.
  - destruct (Js.truthy_opt (Transaction.data transaction)); [|discriminate].
    cbn [Transaction.value with_value]. intros [= <-].
    rewrite Hminus, Hpoint, Hparse, Hnan. reflexivity.
Qed.

Lemma validateTransaction_accepts_hexadecimal_quantities_witness :
  validateTransaction
    (with_value (Some ("0x" +:+ "ffffffffffffffffffffffffffffffff"))
       SampleTransaction.transfer)
  = Ok (with_value (Some ("0x" +:+ "ffffffffffffffffffffffffffffffff"))
          (with_value None SampleTransaction.transfer))
  /\ Js.parseInt ("0x" +:+ "ffffffffffffffffffffffffffffffff") = Some 0%Z.
Proof.
  apply (validateTransaction_accepts_hexadecimal_quantities
           SampleTransaction.transfer
           (with_value None SampleTransaction.transfer)
           "ffffffffffffffffffffffffffffffff"); reflexivity.
Defined.

(** ** What a removal leaves *)

Lemma removal_lists (individual : AssetsController) (address : string) :
  let a := toChecksumAddress address in
  let c' :=
    match Array.find (collectible_at a) (collectibles (state individual)) with
    | Some _ => individual
    | None => snd (removeCollectibleContract a individual)
    end in
  collectibles (state c') = collectibles (state individual)
  /\ ignoredCollectibles (state c') = ignoredCollectibles (state individual)
  /\ (collectibleContracts (state c') = collectibleContracts (state individual)
      /\ (exists x, x ∈ collectibles (state individual)
                    /\ Collectible.address x = a)
      \/ collectibleContracts (state c')
         = Array.filter (fun k => negb (contract_at a k))
             (collectibleContracts (state individual))
         /\ forall x, x ∈ collectibles (state individual) ->
                      Collectible.address x <> a).
Proof.
  intros a c'. subst c'.
  destruct (Array.find _ _) as [x|] eqn:Hfind.
  - split; [reflexivity|]. split; [reflexivity|]. left. split; [reflexivity|].
    apply find_Some_true in Hfind as [Hin Ha]. exists x. split; [assumption|].
    now apply String.eqb_eq.
  - split; [reflexivity|]. split; [reflexivity|]. right. split.
    + now destruct (removeCollectibleContract_checksummed address individual).
    + intros x Hx. apply String.eqb_neq.
      exact (proj1 (find_None _ _) Hfind x Hx).
Qed.

Lemma removal_shape (individual c : AssetsController) (address : string)
    (tokenId : Z) :
  let a := toChecksumAddress address in
  let rest :=
    Array.filter (fun x => negb (is_collectible a tokenId x))
      (collectibles (state c)) in
  let c' :=
    match Array.find (collectible_at a) (collectibles (state individual)) with
    | Some _ => individual
    | None => snd (removeCollectibleContract a individual)
    end in
  collectibles (state individual) = rest ->
  collectibleContracts (state individual) = collectibleContracts (state c) ->
  collectibles (state c') = rest
  /\ ignoredCollectibles (state c') = ignoredCollectibles (state individual)
  /\ (collectibleContracts (state c') = collectibleContracts (state c)
      /\ (exists x, x ∈ rest /\ Collectible.address x = a)
      \/ collectibleContracts (state c')
         = Array.filter (fun k => negb (contract_at a k))
             (collectibleContracts (state c))
         /\ forall x, x ∈ rest -> Collectible.address x <> a).
Proof.
  intros a rest c' Hx Hk.
  destruct (removal_lists individual address) as (H1 & H2 & H3).
  fold a in H1, H2, H3. fold c' in H1, H2, H3.
  rewrite Hx in H1, H3. rewrite Hk in H3. auto.
Qed.

Lemma removeCollectible_lists (address : string) (tokenId : Z)
    (c : AssetsController) :
  let a := toChecksumAddress address in
  let c' := removeCollectible address tokenId c in
  let rest :=
    Array.filter (fun x => negb (is_collectible a tokenId x))
      (collectibles (state c)) in
  collectibles (state c') = rest
  /\ ignoredCollectibles (state c') = ignoredCollectibles (state c)
  /\ (collectibleContracts (state c') = collectibleContracts (state c)
      /\ (exists x, x ∈ rest /\ Collectible.address x = a)
      \/ collectibleContracts (state c')
         = Array.filter (fun k => negb (contract_at a k))
             (collectibleContracts (state c))
         /\ forall x, x ∈ rest -> Collectible.address x <> a).
Proof.
  intros a c' rest. subst c' rest. unfold removeCollectible. fold a.
  fold (collectible_at a).
  apply (removal_shape (removeIndividualCollectible a tokenId c) c address tokenId).
  - rewrite removeIndividualCollectible_collectibles. unfold a.
    now rewrite toChecksumAddress_idemp.
  - reflexivity.
Qed.

Lemma removeAndIgnoreCollectible_shape (address : string) (tokenId : Z)
    (c : AssetsController) :
  let a := toChecksumAddress address in
  let c' := removeAndIgnoreCollectible address tokenId c in
  let rest :=
    Array.filter (fun x => negb (is_collectible a tokenId x))
      (collectibles (state c)) in
  collectibles (state c') = rest
  /\ ignoredCollectibles (state c')
     = ignored_after (is_collectible a tokenId) (collectibles (state c))
         (ignoredCollectibles (state c))
  /\ (collectibleContracts (state c') = collectibleContracts (state c)
      /\ (exists x, x ∈ rest /\ Collectible.address x = a)
      \/ collectibleContracts (state c')
         = Array.filter (fun k => negb (contract_at a k))
             (collectibleContracts (state c))
         /\ forall x, x ∈ rest -> Collectible.address x <> a).
Proof.
  intros a c' rest.
  destruct (removeAndIgnoreCollectible_lists address tokenId c) as [_ Hi].
  fold a c' in Hi. rewrite Hi.
  subst c' rest. unfold removeAndIgnoreCollectible. fold a.
  fold (collectible_at a).
  assert (Haa : toChecksumAddress a = a) by apply toChecksumAddress_idemp.
  destruct (removal_shape (removeAndIgnoreIndividualCollectible a tokenId c) c
              address tokenId) as (H1 & _ & H3).
  - rewrite removeAndIgnoreIndividualCollectible_collectibles. now rewrite Haa.
  - rewrite removeAndIgnoreIndividualCollectible_eq. reflexivity.
  - fold a in H1, H3. auto.
Qed.

(** ** Contract entries and collectibles, both ways *)

Lemma addCollectible_match (net : Network) (address : string) (tokenId : Z)
    (opts : option CollectibleInformation) (detection : bool)
    (c : AssetsController) :
  contracts_match c ->
  contracts_match (addCollectible net address tokenId opts detection c).
Proof.
  intros [Hcover Hused]. split; [now apply addCollectible_cover|].
  destruct (addCollectible_cases net address tokenId opts detection c)
    as (lk & lx & Hk & Hx & Hlk & _ & _ & _ & Himp & _).
  intros k Hin. rewrite Hk in Hin. apply elem_of_app in Hin as [Hin|Hin].
  - destruct (Hused k Hin) as (x & Hxin & Ha). exists x. split; [|assumption].
    rewrite Hx. apply elem_of_app. now left.
  - destruct (Hlk k Hin) as (Ha & _).
    destruct Himp as (x & Hxin & Hxa & _).
    + rewrite Hk. exists k. split; [|assumption]. apply elem_of_app. now right.
    + exists x. split; [assumption|]. congruence.
Qed.

Lemma removal_match (c c' : AssetsController) (a : string) (tokenId : Z) :
  let rest :=
    Array.filter (fun x => negb (is_collectible a tokenId x))
      (collectibles (state c)) in
  contracts_match c ->
  collectibles (state c') = rest ->
  (collectibleContracts (state c') = collectibleContracts (state c)
   /\ (exists x, x ∈ rest /\ Collectible.address x = a)
   \/ collectibleContracts (state c')
      = Array.filter (fun k => negb (contract_at a k))
          (collectibleContracts (state c))
      /\ forall x, x ∈ rest -> Collectible.address x <> a) ->
  contracts_match c'.
Proof.
  intros rest [Hcover Hused] Hx Hk. split.
  - intros x Hin. rewrite Hx in Hin. pose proof Hin as Hrest.
    apply filter_elem_of in Hin as [Hin _].
    destruct (Hcover x Hin) as (k & Hkin & Ha).
    destruct Hk as [[-> _]|[-> Hnone]]; exists k; (split; [|assumption]);
      [assumption|].
    apply filter_elem_of. split; [assumption|].
    apply negb_true_iff, String.eqb_neq. rewrite Ha. now apply Hnone.
  - intros k Hin. rewrite Hx.
    assert (Hcases : forall k, k ∈ collectibleContracts (state c) ->
              (CollectibleContract.address k = a ->
               exists x, x ∈ rest /\ Collectible.address x = a) ->
              exists x, x ∈ rest
                        /\ Collectible.address x = CollectibleContract.address k).
    { intros k0 Hk0 Hat. destruct (Hused k0 Hk0) as (x & Hxin & Ha).
      destruct (is_collectible a tokenId x) eqn:Hremoved.
      - unfold is_collectible in Hremoved.
        apply andb_true_iff in Hremoved as [Hxa _]. apply String.eqb_eq in Hxa.
        destruct Hat as (y & Hy & Hya); [congruence|].
        exists y. split; [assumption|]. congruence.
      - exists x. split; [|assumption]. apply filter_elem_of.
        split; [assumption|]. now rewrite Hremoved. }
    destruct Hk as [[Hsame Hsome]|[Hfiltered Hnone]].
    + rewrite Hsame in Hin. apply Hcases; auto.
    + rewrite Hfiltered in Hin. apply filter_elem_of in Hin as [Hin Hnot].
      apply Hcases; [assumption|]. intros Ha.
      unfold contract_at in Hnot. rewrite Ha, String.eqb_refl in Hnot.
      discriminate.
Qed.

Lemma removeCollectible_match (address : string) (tokenId : Z)
    (c : AssetsController) :
  contracts_match c -> contracts_match (removeCollectible address tokenId c).
Proof.
  intros H.
  destruct (removeCollectible_lists address tokenId c) as (Hx & _ & Hk).
  exact (removal_match c _ _ tokenId H Hx Hk).
Qed.

Lemma removeAndIgnoreCollectible_match (address : string) (tokenId : Z)
    (c : AssetsController) :
  contracts_match c ->
  contracts_match (removeAndIgnoreCollectible address tokenId c).
Proof.
  intros H.
  destruct (removeAndIgnoreCollectible_shape address tokenId c) as (Hx & _ & Hk).
  exact (removal_match c _ _ tokenId H Hx Hk).
Qed.

Lemma detectCollectibles_match (net : Network)
    (ownerCollectibles : Result (list ApiCollectibleResponse))
    (d : Detection.t) (assets : AssetsController) :
  contracts_match assets ->
  contracts_match (Detection.detectCollectibles net ownerCollectibles d assets).
Proof.
  intros H. unfold Detection.detectCollectibles.
  destruct (negb _); [assumption|]. destruct (negb _); [assumption|].
  destruct ownerCollectibles as [items|e]; [|assumption].
  revert assets H. induction items as [|item items IH]; intros assets H;
    simpl; [assumption|].
  apply IH.
  destruct (detectCollectible_cases net item assets) as [[_ ->]|[_ ->]];
    [assumption|]. now apply addCollectible_match.
Qed.

(** X25. If every active collectible has an active contract entry with its
    address and every active contract entry has an active collectible with its
    address, the same holds after addCollectible, removeCollectible,
    removeAndIgnoreCollectible and a detectCollectibles pass. *)
Theorem collectible_operations_keep_contracts_and_collectibles_matched
    (c : AssetsController) :
  contracts_match c ->
  (forall net address tokenId opts detection,
     contracts_match (addCollectible net address tokenId opts detection c))
  /\ (forall address tokenId, contracts_match (removeCollectible address tokenId c))
  /\ (forall address tokenId,
        contracts_match (removeAndIgnoreCollectible address tokenId c))
  /\ (forall net ownerCollectibles d,
        contracts_match (Detection.detectCollectibles net ownerCollectibles d c)).
Proof.
  intros H.
  split; [intros; now apply addCollectible_match|].
  split; [intros; now apply removeCollectible_match|].
  split; [intros; now apply removeAndIgnoreCollectible_match|].
  intros; now apply detectCollectibles_match.
Qed.

Lemma collectible_operations_keep_contracts_and_collectibles_matched_witness :
  contracts_match newAssetsController
  /\ contracts_match SampleDetection.manual
  /\ contracts_match (removeCollectible Sample.kittiesAddress 1 SampleDetection.manual).
Proof.
  assert (H : contracts_match newAssetsController).
  { split; intros x Hin; inversion Hin. }
  destruct (collectible_operations_keep_contracts_and_collectibles_matched
              newAssetsController H) as (Hadd & _).
  pose proof (Hadd SampleDetection.contractOnly Sample.kittiesLower 1%Z None false)
    as Hmanual.
  destruct (collectible_operations_keep_contracts_and_collectibles_matched
              SampleDetection.manual Hmanual) as (_ & Hremove & _).
  split; [exact H|]. split; [exact Hmanual | exact (Hremove _ _)].
Defined.

(** ** Removing a collectible that was added *)

(** X26. When contract entries and collectibles correspond as above and a
    collectible is not active, addCollectible of it followed by
    removeCollectible of the same token id and address, in any letter case,
    restores the active collectibles and contract entries and leaves the ignored
    collectibles as they were, whether or not the add was accepted. *)
Theorem removeCollectible_undoes_addCollectible
    (net : Network) (added removed : string) (tokenId : Z)
    (opts : option CollectibleInformation) (detection : bool)
    (c : AssetsController) :
  contracts_match c ->
  ~ has_collectible (toChecksumAddress added) tokenId (collectibles (state c)) ->
  Js.toLowerCase (stripHexPrefix removed) = Js.toLowerCase (stripHexPrefix added) ->
  let c' :=
    removeCollectible removed tokenId
      (addCollectible net added tokenId opts detection c) in
  collectibles (state c') = collectibles (state c)
  /\ collectibleContracts (state c') = collectibleContracts (state c)
  /\ ignoredCollectibles (state c') = ignoredCollectibles (state c).
Proof.
  intros [Hcover Hused] Hnew Hcase c'. subst c'.
  set (a := toChecksumAddress added) in *.
  set (c1 := addCollectible net added tokenId opts detection c).
  destruct (addCollectible_cases net added tokenId opts detection c)
    as (lk & lx & Hk & Hx & Hlk & Hlx & _ & _ & _ & Hsame).
  fold a c1 in Hk, Hx, Hlk, Hlx, Hsame.
  destruct (removeCollectible_lists removed tokenId c1) as (Hx' & Hi' & Hk').
  rewrite (toChecksumAddress_casing _ _ Hcase) in Hx', Hk'. fold a in Hx', Hk'.
  assert (Hrest :
    Array.filter (fun x => negb (is_collectible a tokenId x))
      (collectibles (state c1)) = collectibles (state c)).
  { rewrite Hx, filter_app.
    rewrite (filter_id _ (collectibles (state c))).
    - assert (Hnone : Array.filter
                        (fun x => negb (is_collectible a tokenId x)) lx = []).
      { clear -Hlx. induction lx as [|x lx IH]; [reflexivity|].
        cbn [Array.filter List.filter].
        destruct (Hlx x (list_elem_of_here _ _)) as (Ha & Ht & _).
        unfold is_collectible at 1. rewrite Ha, Ht, String.eqb_refl, Z.eqb_refl.
        cbn [andb negb]. apply IH. intros y Hy. apply Hlx.
        now apply list_elem_of_further. }
      rewrite Hnone. apply app_nil_r.
    - intros x Hin. apply negb_true_iff.
      destruct (is_collectible a tokenId x) eqn:Hx0; [|reflexivity].
      exfalso. apply Hnew. exists x. split; [assumption|].
      unfold is_collectible in Hx0. apply andb_true_iff in Hx0 as [H1 H2].
      split; [now apply String.eqb_eq | now apply Z.eqb_eq]. }
  rewrite Hrest in Hx', Hk'.
  split; [assumption|]. split.
  - destruct Hk' as [[Hsame' (x & Hxin & Hxa)]|[Hfiltered Hnone]].
    + rewrite Hsame', Hk.
      destruct lk as [|k lk]; [apply app_nil_r|]. exfalso.
      destruct (Hlk k (list_elem_of_here _ _)) as (_ & Hno & _).
      apply Hno. rewrite <- Hxa. now apply Hcover.
    + rewrite Hfiltered, Hk, filter_app.
      assert (Hnew_k : Array.filter (fun k => negb (contract_at a k)) lk = []).
      { clear -Hlk. induction lk as [|k lk IH]; [reflexivity|].
        cbn [Array.filter List.filter].
        destruct (Hlk k (list_elem_of_here _ _)) as (Ha & _).
        unfold contract_at at 1. rewrite Ha, String.eqb_refl. cbn [negb].
        apply IH. intros y Hy. apply Hlk. now apply list_elem_of_further. }
      rewrite Hnew_k, app_nil_r. apply filter_id.
      intros k Hin. apply negb_true_iff, String.eqb_neq.
      destruct (Hused k Hin) as (x & Hxin & Hxa). rewrite <- Hxa.
      now apply Hnone.
  - rewrite Hi'. now destruct Hsame as (_ & _ & _ & -> & _).
Qed.

Lemma removeCollectible_undoes_addCollectible_witness :
  let c' :=
    removeCollectible Sample.kittiesAddress 1
      (addCollectible SampleDetection.contractOnly Sample.kittiesLower 1 None
         false Sample.oneToken) in
  collectibles (state c') = collectibles (state Sample.oneToken)
  /\ collectibleContracts (state c') = collectibleContracts (state Sample.oneToken)
  /\ ignoredCollectibles (state c') = ignoredCollectibles (state Sample.oneToken).
Proof.
  apply (removeCollectible_undoes_addCollectible SampleDetection.contractOnly
           Sample.kittiesLower Sample.kittiesAddress 1%Z None false
           Sample.oneToken).
  - split; intros x Hin; inversion Hin.
  - intros (x & Hin & _). inversion Hin.
  - reflexivity.
Defined.

(** ** Checksummed addresses of collectibles *)

Lemma addCollectible_checksummed (net : Network) (address : string) (tokenId : Z)
    (opts : option CollectibleInformation) (detection : bool)
    (c : AssetsController) :
  collectibles_checksummed c ->
  collectibles_checksummed (addCollectible net address tokenId opts detection c).
Proof.
  intros (Hx & Hi & Hk).
  destruct (addCollectible_cases net address tokenId opts detection c)
    as (lk & lx & Hk' & Hx' & Hlk & Hlx & _ & _ & _ & Hsame).
  destruct Hsame as (_ & _ & _ & Hi' & _).
  unfold collectibles_checksummed. rewrite Hk', Hx', Hi'.
  split; [|split; [assumption|]]; apply Forall_app; (split; [assumption|]);
    apply Forall_forall; intros y Hy.
  - destruct (Hlx y Hy) as (-> & _). apply toChecksumAddress_idemp.
  - destruct (Hlk y Hy) as (-> & _). apply toChecksumAddress_idemp.
Qed.

Lemma removal_checksummed (c c' : AssetsController) (a : string) (tokenId : Z) :
  let rest :=
    Array.filter (fun x => negb (is_collectible a tokenId x))
      (collectibles (state c)) in
  collectibles_checksummed c ->
  collectibles (state c') = rest ->
  (ignoredCollectibles (state c') = ignoredCollectibles (state c)
   \/ ignoredCollectibles (state c')
      = ignored_after (is_collectible a tokenId) (collectibles (state c))
          (ignoredCollectibles (state c))) ->
  (collectibleContracts (state c') = collectibleContracts (state c)
   /\ (exists x, x ∈ rest /\ Collectible.address x = a)
   \/ collectibleContracts (state c')
      = Array.filter (fun k => negb (contract_at a k))
          (collectibleContracts (state c))
      /\ forall x, x ∈ rest -> Collectible.address x <> a) ->
  collectibles_checksummed c'.
Proof.
  intros rest (Hx & Hi & Hk) Hx' Hi' Hk'. unfold collectibles_checksummed.
  rewrite Hx'. split; [now apply filter_Forall|]. split.
  - destruct Hi' as [->| ->]; [assumption|]. now apply ignored_after_Forall.
  - destruct Hk' as [[-> _]|[-> _]]; [assumption|]. now apply filter_Forall.
Qed.

Lemma detectCollectibles_checksummed (net : Network)
    (ownerCollectibles : Result (list ApiCollectibleResponse))
    (d : Detection.t) (assets : AssetsController) :
  collectibles_checksummed assets ->
  collectibles_checksummed
    (Detection.detectCollectibles net ownerCollectibles d assets).
Proof.
  intros H. unfold Detection.detectCollectibles.
  destruct (negb _); [assumption|]. destruct (negb _); [assumption|].
  destruct ownerCollectibles as [items|e]; [|assumption].
  revert assets H. induction items as [|item items IH]; intros assets H;
    simpl; [assumption|].
  apply IH.
  destruct (detectCollectible_cases net item assets) as [[_ ->]|[_ ->]];
    [assumption|]. now apply addCollectible_checksummed.
Qed.

(** X27. If every active collectible, every ignored collectible and every active
    contract entry has a checksummed address, the same holds after
    addCollectible, removeCollectible, removeAndIgnoreCollectible and a
    detectCollectibles pass. *)
Theorem collectible_operations_keep_addresses_checksummed
    (c : AssetsController) :
  collectibles_checksummed c ->
  (forall net address tokenId opts detection,
     collectibles_checksummed (addCollectible net address tokenId opts detection c))
  /\ (forall address tokenId,
        collectibles_checksummed (removeCollectible address tokenId c))
  /\ (forall address tokenId,
        collectibles_checksummed (removeAndIgnoreCollectible address tokenId c))
  /\ (forall net ownerCollectibles d,
        collectibles_checksummed
          (Detection.detectCollectibles net ownerCollectibles d c)).
Proof.
  intros H.
  split; [intros; now apply addCollectible_checksummed|].
  split; [|split].
  - intros address tokenId.
    destruct (removeCollectible_lists address tokenId c) as (Hx & Hi & Hk).
    exact (removal_checksummed c _ _ tokenId H Hx (or_introl Hi) Hk).
  - intros address tokenId.
    destruct (removeAndIgnoreCollectible_shape address tokenId c)
      as (Hx & Hi & Hk).
    exact (removal_checksummed c _ _ tokenId H Hx (or_intror Hi) Hk).
  - intros. now apply detectCollectibles_checksummed.
Qed.

Lemma collectible_operations_keep_addresses_checksummed_witness :
  collectibles_checksummed newAssetsController
  /\ collectibles_checksummed SampleDetection.manual
  /\ collectibles_checksummed
       (removeAndIgnoreCollectible Sample.kittiesLower 1 SampleDetection.manual).
Proof.
  assert (H : collectibles_checksummed newAssetsController).
  { split; [|split]; constructor. }
  destruct (collectible_operations_keep_addresses_checksummed
              newAssetsController H) as (Hadd & _).
  pose proof (Hadd SampleDetection.contractOnly Sample.kittiesLower 1%Z None false)
    as Hmanual.
  destruct (collectible_operations_keep_addresses_checksummed
              SampleDetection.manual Hmanual) as (_ & _ & Hignore & _).
  split; [exact H|]. split; [exact Hmanual | exact (Hignore _ _)].
Defined.

(** ** Detection and the ignore lists *)

Lemma tokensToAdd_not_ignored (contractMap : ContractMap)
    (ignoredTokens : list Token) (balances : list (string * N))
    (staged : list Token) :
  Detection.tokensToAdd contractMap ignoredTokens balances = Ok staged ->
  forall token ignoredToken,
    token ∈ staged -> ignoredToken ∈ ignoredTokens ->
    Token.address ignoredToken <> toChecksumAddress (Token.address token).
Proof.
  revert staged.
  induction balances as [|[tokenAddress balance] balances IH]; intros staged;
    simpl.
  - intros [= <-] token ignoredToken Hin. inversion Hin.
  - destruct (if negb _ then _ else _) as [found|] eqn:Hfound; [apply IH|].
    destruct (contract_lookup contractMap tokenAddress) as [contract|];
      [|discriminate].
    destruct (Detection.tokensToAdd contractMap ignoredTokens balances)
      as [rest|e]; [|discriminate].
    intros [= <-] token ignoredToken Hin Hig.
    apply elem_of_cons in Hin as [->|Hin]; [|now apply (IH rest eq_refl)].
    cbn [Token.address].
    destruct (negb (Nat.eqb (length ignoredTokens) 0)) eqn:Hlen.
    + apply String.eqb_neq.
      exact (proj1 (find_None _ _) Hfound ignoredToken Hig).
    + destruct ignoredTokens; [inversion Hig | discriminate].
Qed.

Lemma fold_put_token_elem_of (l : list Token) (tokens : list Token)
    (token : Token) :
  token ∈ fold_left (fun tokens tokenToAdd => put_token tokens (entry_of tokenToAdd))
            l tokens ->
  token ∈ tokens \/ exists tokenToAdd, tokenToAdd ∈ l /\ token = entry_of tokenToAdd.
Proof.
  revert tokens. induction l as [|t l IH]; intros tokens; simpl; [tauto|].
  intros H. destruct (IH _ H) as [Hin|(t' & Hin & ->)].
  - apply put_token_elem_of in Hin as [->|Hin]; [|tauto].
    right. exists t. split; [apply list_elem_of_here | reflexivity].
  - right. exists t'. split; [now apply list_elem_of_further | reflexivity].
Qed.

Lemma detectTokens_disjoint (contractMap : ContractMap)
    (getBalancesInSingleCall : string -> list string -> Result (list (string * N)))
    (d : Detection.t) (assets : AssetsController) :
  active_ignored_disjoint assets ->
  active_ignored_disjoint
    (Detection.assetsAfter
       (Detection.detectTokens contractMap getBalancesInSingleCall d assets)).
Proof.
  intros H. unfold Detection.detectTokens.
  destruct (negb _); [assumption|]. destruct (negb _); [assumption|].
  destruct (getBalancesInSingleCall _ _) as [balances|e]; [|assumption].
  destruct (Detection.tokensToAdd _ _ _) as [staged|e] eqn:Hstaged; [|assumption].
  destruct (negb _); [|assumption]. cbn [Detection.assetsAfter].
  rewrite addTokens_eq. cbn [snd]. destruct H as [Ht Hc].
  split; [|exact Hc].
  intros token ignoredToken Hin Hig. cbn in Hin, Hig.
  apply fold_put_token_elem_of in Hin as [Hin|(t & Hin & ->)]; [now apply Ht|].
  exact (tokensToAdd_not_ignored _ _ _ _ Hstaged t ignoredToken Hin Hig).
Qed.

Lemma addCollectible_disjoint (net : Network) (address : string) (tokenId : Z)
    (opts : option CollectibleInformation) (detection : bool)
    (c : AssetsController) :
  ~ has_collectible (toChecksumAddress address) tokenId
      (ignoredCollectibles (state c)) ->
  active_ignored_disjoint c ->
  active_ignored_disjoint (addCollectible net address tokenId opts detection c).
Proof.
  intros Hnot [Ht Hc].
  destruct (addCollectible_cases net address tokenId opts detection c)
    as (lk & lx & _ & Hx & _ & Hlx & _ & _ & _ & Hsame).
  destruct Hsame as (Ht' & _ & Hit & Hic & _).
  unfold active_ignored_disjoint. rewrite Ht', Hit, Hic, Hx.
  split; [assumption|].
  intros x ignored Hin Hig [Ha Hid].
  apply elem_of_app in Hin as [Hin|Hin]; [exact (Hc x ignored Hin Hig (conj Ha Hid))|].
  destruct (Hlx x Hin) as (Hxa & Hxt & _).
  apply Hnot. exists ignored. split; [assumption|]. split; congruence.
Qed.

Lemma detectCollectibles_disjoint (net : Network)
    (ownerCollectibles : Result (list ApiCollectibleResponse))
    (d : Detection.t) (assets : AssetsController) :
  active_ignored_disjoint assets ->
  active_ignored_disjoint
    (Detection.detectCollectibles net ownerCollectibles d assets).
Proof.
  intros H. unfold Detection.detectCollectibles.
  destruct (negb _); [assumption|]. destruct (negb _); [assumption|].
  destruct ownerCollectibles as [items|e]; [|assumption].
  revert assets H. induction items as [|item items IH]; intros assets H;
    simpl; [assumption|].
  apply IH.
  destruct (detectCollectible_cases net item assets) as [[_ ->]|[Hnot ->]];
    [assumption|]. now apply addCollectible_disjoint.
Qed.

(** X28. If no active token has the address of an ignored token and no active
    collectible the address and token id of an ignored collectible, the same
    holds after a detectTokens pass and after a detectCollectibles pass; and no
    token that detectTokens hands to addTokens has, in checksummed form, the
    address of an ignored token. *)
Theorem detection_never_activates_an_ignored_asset
    (net : Network) (ownerCollectibles : Result (list ApiCollectibleResponse))
    (contractMap : ContractMap)
    (getBalancesInSingleCall : string -> list string -> Result (list (string * N)))
    (d : Detection.t) (assets : AssetsController) :
  active_ignored_disjoint assets ->
  active_ignored_disjoint
    (Detection.assetsAfter
       (Detection.detectTokens contractMap getBalancesInSingleCall d assets))
  /\ active_ignored_disjoint
       (Detection.detectCollectibles net ownerCollectibles d assets)
  /\ forall staged,
       Detection.addTokensCall
         (Detection.detectTokens contractMap getBalancesInSingleCall d assets)
       = Some staged ->
       forall token ignoredToken,
         token ∈ staged -> ignoredToken ∈ ignoredTokens (state assets) ->
         Token.address ignoredToken <> toChecksumAddress (Token.address token).
Proof.
  intros H. split; [now apply detectTokens_disjoint|].
  split; [now apply detectCollectibles_disjoint|].
  intros staged. unfold Detection.detectTokens.
  destruct (negb _); [discriminate|]. destruct (negb _); [discriminate|].
  destruct (getBalancesInSingleCall _ _) as [balances|e]; [|discriminate].
  destruct (Detection.tokensToAdd _ _ _) as [staged'|e] eqn:Hstaged;
    [|discriminate].
  destruct (negb _); [|discriminate]. intros [= <-].
  exact (tokensToAdd_not_ignored _ _ _ _ Hstaged).
Qed.

Lemma detection_never_activates_an_ignored_asset_witness :
  active_ignored_disjoint Sample.ignoredToken
  /\ active_ignored_disjoint
       (Detection.assetsAfter
          (Detection.detectTokens SampleDetection.contractMap
             (fun _ _ => Ok [(Sample.checksumAddress, 5%N);
                             (Sample.otherAddress, 7%N)])
             SampleDetection.detector Sample.ignoredToken)).
Proof.
  assert (H : active_ignored_disjoint Sample.ignoredToken).
  { apply active_ignored_disjointb_spec. vm_compute. reflexivity. }
  destruct (detection_never_activates_an_ignored_asset
              SampleDetection.offline (Ok [])
              SampleDetection.contractMap
              (fun _ _ => Ok [(Sample.checksumAddress, 5%N);
                              (Sample.otherAddress, 7%N)])
              SampleDetection.detector Sample.ignoredToken H) as (Htokens & _).
  split; [exact H | exact Htokens].
Defined.
